(** * DevTerm CUPS label printer plugin (plugin.py)

    A shallow embedding of [inventree_printer_plugin/plugin.py], the
    properties its specification states and further properties of the code.

    Conventions of the embedding:
    - Python [str] is [string], read as a sequence of code points below 256;
      the tables for whitespace, line boundaries, digits and letter case are
      Python's own over that range.  [bytes] is [list byte].
    - Python [float] is IEEE binary64, as [spec_float] with [prec = 53] and
      [emax = 1024]; every operation rounds to nearest, ties to even.
    - [dict] is [gmap]; the specification does not rely on insertion order.
    - [int] is [Z]; [int] of a text converts at most 4300 digits, the
      default of [sys.get_int_max_str_digits()], and raises [ValueError]
      on more.
    - An object is a [pyobj]: the built-in types the plugin tells apart,
      an object with [read] together with what [read()] does, and an
      instance of any other class with its truth value and its buffer.
    - A call that can raise returns [result]; the module-level
      [ATTRIBUTE_TAG_MAP] is passed and returned explicitly.
    - The host application, the file system, pypdf and pyipp are the fields
      of the class [Host].  Calls to the logger are left out. *)

From Stdlib Require Import ZArith Lia Ascii String Strings.Byte SpecFloat.
From stdpp Require Import gmap strings.

Local Open Scope Z_scope.

(** ** Exceptions and results *)

(** The exception classes the plugin raises or meets.  [OtherException] is
    any further subclass of [Exception]; [BaseOnly] is a class that derives
    from [BaseException] alone ([KeyboardInterrupt], [SystemExit],
    [asyncio.CancelledError]), which [except Exception] lets through. *)
Inductive exn_class :=
| ValueError
| TypeError
| OverflowError
| RuntimeError
| OSError
| OtherException (name : string)
| BaseOnly (name : string).

Record exn := Exn { exn_type : exn_class; exn_str : string }.

(** [isinstance(exc, Exception)] *)
Definition is_Exception (e : exn) : bool :=
  match exn_type e with
  | BaseOnly _ => false
  | _ => true
  end.

Inductive result (A : Type) :=
| Ok (a : A)
| Raise (e : exn).
Arguments Ok {A} a.
Arguments Raise {A} e.

#[global] Instance result_ret : MRet result := @Ok.

#[global] Instance result_bind : MBind result := λ A B k r,
  match r with
  | Ok a => k a
  | Raise e => Raise e
  end.

(** [try: r  except Exception as exc: h exc] *)
Definition try_except {A} (r : result A) (h : exn → result A) : result A :=
  match r with
  | Ok a => Ok a
  | Raise e => if is_Exception e then h e else Raise e
  end.

(** ** Text *)

Definition code (c : ascii) : Z := Z.of_N (N_of_ascii c).

(** [str.isspace] on one character: what [str.strip()] removes. *)
Definition isspace (c : ascii) : bool :=
  let n := code c in
  ((9 <=? n) && (n <=? 13)) || ((28 <=? n) && (n <=? 32))
  || (n =? 133) || (n =? 160).

(** The line boundaries of [str.splitlines]. *)
Definition is_linebreak (c : ascii) : bool :=
  let n := code c in
  ((10 <=? n) && (n <=? 13)) || ((28 <=? n) && (n <=? 30)) || (n =? 133).

(** [\d] in a [str] pattern, and in a [bytes] pattern. *)
Definition isdigit (c : ascii) : bool :=
  let n := code c in (48 <=? n) && (n <=? 57).

Definition lower_char (c : ascii) : ascii :=
  let n := code c in
  if ((65 <=? n) && (n <=? 90))
     || ((192 <=? n) && (n <=? 222) && negb (n =? 215))
  then ascii_of_N (Z.to_N (n + 32))
  else c.

(** [str.lower] *)
Fixpoint lower (s : string) : string :=
  match s with
  | EmptyString => EmptyString
  | String c s' => String (lower_char c) (lower s')
  end.

(** [str.lstrip(chars)], [str.rstrip(chars)] with the set [chars] as a
    predicate, and [str.strip()]. *)
Fixpoint lstrip_by (p : ascii → bool) (s : string) : string :=
  match s with
  | EmptyString => EmptyString
  | String c s' => if p c then lstrip_by p s' else s
  end.

Fixpoint rstrip_by (p : ascii → bool) (s : string) : string :=
  match s with
  | EmptyString => EmptyString
  | String c s' =>
      match rstrip_by p s' with
      | EmptyString => if p c then EmptyString else String c EmptyString
      | r => String c r
      end
  end.

Definition strip (s : string) : string := lstrip_by isspace (rstrip_by isspace s).

(** [sep in s] for a one-character [sep]. *)
Fixpoint contains (sep : ascii) (s : string) : bool :=
  match s with
  | EmptyString => false
  | String c s' => if Ascii.eqb c sep then true else contains sep s'
  end.

(** [s.split(sep)] for a one-character [sep]: never empty, one more piece
    than there are separators. *)
Fixpoint split (sep : ascii) (s : string) : list string :=
  match s with
  | EmptyString => [EmptyString]
  | String c s' =>
      if Ascii.eqb c sep then EmptyString :: split sep s'
      else match split sep s' with
           | p :: ps => String c p :: ps
           | [] => [String c EmptyString]
           end
  end.

(** [s.split(sep, 1)] when [sep in s]: the text before and after the first
    separator. *)
Fixpoint split1 (sep : ascii) (s : string) : string * string :=
  match s with
  | EmptyString => (EmptyString, EmptyString)
  | String c s' =>
      if Ascii.eqb c sep then (EmptyString, s')
      else let '(k, v) := split1 sep s' in (String c k, v)
  end.

(** [str.splitlines()]: a boundary ends a line, CR LF counts once, and no
    empty line follows a final boundary.  [skip_lf] holds right after a CR. *)
Fixpoint splitlines_from (skip_lf : bool) (s : string) : list string :=
  match s with
  | EmptyString => []
  | String c s' =>
      if skip_lf && Ascii.eqb c "010" then splitlines_from false s'
      else if is_linebreak c then
        EmptyString :: splitlines_from (Ascii.eqb c "013") s'
      else match splitlines_from false s' with
           | l :: ls => String c l :: ls
           | [] => [String c EmptyString]
           end
  end.

Definition splitlines (s : string) : list string := splitlines_from false s.

(** [str.encode("utf-8")] for code points below 256. *)
Definition byte_of_code (n : Z) : byte :=
  match Byte.of_N (Z.to_N n) with
  | Some b => b
  | None => "000"%byte
  end.

Fixpoint encode_utf8 (s : string) : list byte :=
  match s with
  | EmptyString => []
  | String c s' =>
      let n := code c in
      if n <? 128 then byte_of_code n :: encode_utf8 s'
      else byte_of_code (Z.lor 192 (Z.shiftr n 6))
           :: byte_of_code (Z.lor 128 (Z.land n 63)) :: encode_utf8 s'
  end.

(** ** Integers as text *)

Definition digit_char (d : Z) : ascii := ascii_of_N (Z.to_N (48 + d)).

(** The decimal digits of [n >= 0] in front of [acc]; [fuel] bounds their
    number. *)
Fixpoint digits_from (fuel : nat) (n : Z) (acc : string) : string :=
  let acc' := String (digit_char (n mod 10)) acc in
  match fuel with
  | O => acc'
  | S fuel' => if n <? 10 then acc' else digits_from fuel' (n / 10) acc'
  end.

Definition str_of_nonneg (n : Z) : string :=
  digits_from (Z.to_nat (Z.log2 n)) n EmptyString.

(** [str(n)], which is what an f-string writes for an [int]. *)
Definition str_of_int (n : Z) : string :=
  if n <? 0 then String "-" (str_of_nonneg (- n)) else str_of_nonneg n.

(** The value of a run of decimal digits, most significant first. *)
Fixpoint digits_value (acc : Z) (s : string) : Z :=
  match s with
  | EmptyString => acc
  | String c s' => digits_value (10 * acc + (code c - 48)) s'
  end.

(** The integer that a text matched by [-?\d+] denotes. *)
Definition int_of_numeral (s : string) : Z :=
  match s with
  | String "-" s' => - digits_value 0 s'
  | _ => digits_value 0 s
  end.

(** [sys.int_info.default_max_str_digits]: the longest run of digits that
    [int] converts, unless the interpreter is set up otherwise. *)
Definition INT_MAX_STR_DIGITS : Z := 4300.

(** The digits of a text that [-?\d+] matches: all but the sign. *)
Definition digit_count (s : string) : Z :=
  match s with
  | String "-" s' => Z.of_nat (String.length s')
  | _ => Z.of_nat (String.length s)
  end.

(** The [ValueError] of [int] on a text of [digits] digits, over the
    limit. *)
Definition int_limit_error (digits : Z) : exn :=
  Exn ValueError
    ("Exceeds the limit (4300 digits) for integer string conversion: value has "
     +:+ str_of_int digits
     +:+ " digits; use sys.set_int_max_str_digits() to increase the limit").

(** [int(s)] on a text that [-?\d+] matches. *)
Definition py_int (s : string) : result Z :=
  if INT_MAX_STR_DIGITS <? digit_count s then Raise (int_limit_error (digit_count s))
  else Ok (int_of_numeral s).

(** ** Floating point *)

Definition prec : Z := 53.
Definition emax : Z := 1024.

Abbreviation float := spec_float.

Definition fsub : float → float → float := SFsub prec emax.
Definition fmul : float → float → float := SFmul prec emax.
Definition fdiv : float → float → float := SFdiv prec emax.

(** The binary64 nearest to [±n / 10^k], for [n, k >= 0]: the value of a
    decimal literal with [k] digits after the point, and [float(n)] when
    [k = 0]. *)
Definition float_of_decimal (neg : bool) (n k : Z) : float :=
  match n with
  | Zpos m => SFdiv prec emax (S754_finite neg m 0)
                (S754_finite false (Z.to_pos (10 ^ k)) 0)
  | _ => S754_zero neg
  end.

Definition is_finite (x : float) : bool :=
  match x with
  | S754_zero _ | S754_finite _ _ _ => true
  | _ => false
  end.

(** The integer nearest to [m * 2^e], ties to the even one, for [m >= 0]. *)
Definition round_half_even (m e : Z) : Z :=
  if 0 <=? e then m * 2 ^ e
  else
    let d := 2 ^ (- e) in
    let q := m / d in
    match 2 * (m mod d) ?= d with
    | Lt => q
    | Gt => q + 1
    | Eq => if Z.even q then q else q + 1
    end.

(** [round(x)] with one argument: an [int], or an exception where [x] is
    not a number. *)
Definition py_round (x : float) : result Z :=
  match x with
  | S754_nan => Raise (Exn ValueError "cannot convert float NaN to integer")
  | S754_infinity _ =>
      Raise (Exn OverflowError "cannot convert float infinity to integer")
  | S754_zero _ => Ok 0
  | S754_finite s m e => Ok (cond_Zopp s (round_half_even (Zpos m) e))
  end.

Definition two_digits (n : Z) : string :=
  String (digit_char (n / 10)) (String (digit_char (n mod 10)) EmptyString).

Definition sign_text (neg : bool) : string := if neg then "-" else "".

(** [h] hundredths written with two decimals. *)
Definition fixed2 (neg : bool) (h : Z) : string :=
  sign_text neg +:+ str_of_nonneg (h / 100) +:+ "." +:+ two_digits (h mod 100).

(** [f"{x:.2f}"]: the exact value of [x] rounded to hundredths, ties to
    even. *)
Definition format_2f (x : float) : string :=
  match x with
  | S754_nan => "nan"
  | S754_infinity s => if s then "-inf" else "inf"
  | S754_zero s => fixed2 s 0
  | S754_finite s m e => fixed2 s (round_half_even (Zpos m * 100) e)
  end.

(** ** Objects *)

Local Set Warnings "-register-all".

(** The Python values the plugin handles.  [PStream] is an object with a
    [read] attribute: its class, its truth value, and what a call of
    [read()] returns or raises.  [PObject] is an instance of any other
    class: the name of the class, the truth value of the object (an empty
    list or [0.0] is false), and its contents if it supports the buffer
    protocol (a [memoryview], say). *)
Inductive pyobj :=
| PNone
| PBool (b : bool)
| PInt (n : Z)
| PStr (s : string)
| PBytes (b : list byte)
| PByteArray (b : list byte)
| PStream (cls : string) (truth : bool) (content : result pyobj)
| PObject (cls : string) (truth : bool) (buffer : option (list byte)).
Local Set Warnings "register-all".

(** Truth value of an object, as [or] and [if] test it. *)
Definition truthy (o : pyobj) : bool :=
  match o with
  | PNone => false
  | PBool b => b
  | PInt n => negb (n =? 0)
  | PStr s => negb (String.eqb s "")
  | PBytes b | PByteArray b => match b with [] => false | _ => true end
  | PStream _ truth _ | PObject _ truth _ => truth
  end.

(** [a or b] *)
Definition py_or (a b : pyobj) : pyobj := if truthy a then a else b.

(** [type(o).__name__] *)
Definition type_name (o : pyobj) : string :=
  match o with
  | PNone => "NoneType"
  | PBool _ => "bool"
  | PInt _ => "int"
  | PStr _ => "str"
  | PBytes _ => "bytes"
  | PByteArray _ => "bytearray"
  | PStream cls _ _ | PObject cls _ _ => cls
  end.

(** The contents of a bytes-like object, which [io.BytesIO] and [re]
    accept. *)
Definition bytes_like (o : pyobj) : option (list byte) :=
  match o with
  | PBytes b | PByteArray b => Some b
  | PObject _ _ buffer => buffer
  | _ => None
  end.

(** ** Regular expressions *)

(** The constructs of [re] that the plugin's patterns use, over characters
    or bytes.  Repetition and option are greedy and backtrack; [x+] is
    [Seq x (Star x)] and a non-capturing group is plain nesting. *)
Inductive regex (A : Type) :=
| Lit (a : A)
| Class (p : A → bool)
| Seq (r1 r2 : regex A)
| Opt (r : regex A)
| Star (r : regex A)
| Group (r : regex A).
Arguments Lit {A} a.
Arguments Class {A} p.
Arguments Seq {A} r1 r2.
Arguments Opt {A} r.
Arguments Star {A} r.
Arguments Group {A} r.

#[global] Instance byte_eq_dec : EqDecision byte := Byte.byte_eq_dec.

Section Matcher.
Context {A : Type} `{EqDecision A} {X : Type}.

(** A matcher takes the input and the captures so far, and a continuation
    for the rest of the pattern. *)
Definition matcher : Type :=
  list A → list (list A) → (list A → list (list A) → option X) → option X.

(** Greedy repetition of [body]: one more round where that leads to a
    match, else on to [k].  A round has to consume input; [fuel] is the
    length of the input at the start. *)
Fixpoint star_loop (body : matcher) (k : list A → list (list A) → option X)
    (fuel : nat) (s : list A) (caps : list (list A)) : option X :=
  match fuel with
  | O => k s caps
  | S fuel' =>
      match body s caps (fun s' caps' =>
              if (length s' <? length s)%nat
              then star_loop body k fuel' s' caps' else None) with
      | Some x => Some x
      | None => k s caps
      end
  end.

(** [rmatch r s caps k] matches [r] at the front of [s] and hands the rest
    of the input and the captures to [k]; where [k] fails the next
    alternative of [r] is tried, the longer one first. *)
Fixpoint rmatch (r : regex A) : matcher :=
  fun s caps k =>
  match r with
  | Lit a =>
      match s with
      | c :: s' => if decide (c = a) then k s' caps else None
      | [] => None
      end
  | Class p =>
      match s with
      | c :: s' => if p c then k s' caps else None
      | [] => None
      end
  | Seq r1 r2 => rmatch r1 s caps (fun s' caps' => rmatch r2 s' caps' k)
  | Opt r' =>
      match rmatch r' s caps k with
      | Some x => Some x
      | None => k s caps
      end
  | Star r' => star_loop (rmatch r') k (length s) s caps
  | Group r' =>
      rmatch r' s caps (fun s' caps' =>
        k s' (caps' ++ [take (length s - length s') s]))
  end.
End Matcher.

(** [re.search(r, s)]: the groups of the leftmost match. *)
Fixpoint re_search {A} `{EqDecision A} (r : regex A) (s : list A)
    : option (list (list A)) :=
  match rmatch r s [] (fun _ caps => Some caps) with
  | Some caps => Some caps
  | None =>
      match s with
      | [] => None
      | _ :: s' => re_search r s'
      end
  end.

(** The continuation that accepts at the end of the input only. *)
Definition at_end {A} (s : list A) (caps : list (list A)) : option () :=
  match s with
  | [] => Some ()
  | _ => None
  end.

(** [re.fullmatch(r, s)] as a truth value. *)
Definition re_fullmatch {A} `{EqDecision A} (r : regex A) (s : list A) : bool :=
  match rmatch r s [] at_end with
  | Some _ => true
  | None => false
  end.

Definition plus {A} (r : regex A) : regex A := Seq r (Star r).

(** [-?\d+], the pattern of [_parse_job_options]. *)
Definition INT_RE : regex ascii := Seq (Opt (Lit "-"%char)) (plus (Class isdigit)).

Fixpoint lits (bs : list byte) (rest : regex byte) : regex byte :=
  match bs with
  | [] => rest
  | b :: bs' => Seq (Lit b) (lits bs' rest)
  end.

Definition byte_code (b : byte) : Z := Z.of_N (Byte.to_N b).

(** [\s] and [\d] of a [bytes] pattern. *)
Definition bspace (b : byte) : bool :=
  let n := byte_code b in ((9 <=? n) && (n <=? 13)) || (n =? 32).

Definition bdigit (b : byte) : bool :=
  let n := byte_code b in (48 <=? n) && (n <=? 57).

(** [-?\d+(?:\.\d+)?] *)
Definition NUMBER_RE : regex byte :=
  Seq (Opt (Lit "-"%byte)) (Seq (plus (Class bdigit))
    (Opt (Seq (Lit "."%byte) (plus (Class bdigit))))).

(** The pattern of [_pdf_media_auto], piece by piece:
    [/MediaBox\s*\[\s*(N)\s+(N)\s+(N)\s+(N)\s*\]] with [N] as above. *)
Definition MEDIABOX_RE : regex byte :=
  lits (list_byte_of_string "/MediaBox")
    (Seq (Star (Class bspace)) (Seq (Lit "["%byte) (Seq (Star (Class bspace))
    (Seq (Group NUMBER_RE) (Seq (plus (Class bspace))
    (Seq (Group NUMBER_RE) (Seq (plus (Class bspace))
    (Seq (Group NUMBER_RE) (Seq (plus (Class bspace))
    (Seq (Group NUMBER_RE) (Seq (Star (Class bspace)) (Lit "]"%byte)))))))))))).

(** The value of a run of digit bytes, most significant first. *)
Fixpoint bdigits_value (acc : Z) (w : list byte) : Z :=
  match w with
  | [] => acc
  | b :: w' => bdigits_value (10 * acc + (byte_code b - 48)) w'
  end.

(** The digits at the front of [w], and what follows them. *)
Fixpoint span_digits (w : list byte) : list byte * list byte :=
  match w with
  | b :: w' =>
      if bdigit b then let '(ds, r) := span_digits w' in (b :: ds, r)
      else ([], w)
  | [] => ([], [])
  end.

(** The binary64 of digits with an optional fraction, negated if [neg]. *)
Definition float_of_digits (neg : bool) (w : list byte) : result float :=
  let '(ip, rest) := span_digits w in
  let bad := Raise (Exn ValueError "could not convert string to float") in
  match ip, rest with
  | _ :: _, [] => Ok (float_of_decimal neg (bdigits_value 0 ip) 0)
  | _ :: _, "."%byte :: fp =>
      match fp, span_digits fp with
      | _ :: _, (_, []) =>
          Ok (float_of_decimal neg (bdigits_value 0 (ip ++ fp)) (Z.of_nat (length fp)))
      | _, _ => bad
      end
  | _, _ => bad
  end.

(** [float(v)] for the text [v] of a capture group of [MEDIABOX_RE]: an
    optional minus sign, digits and an optional fraction, valued at the
    nearest binary64.  The further spellings [float] accepts (exponents,
    [inf], [nan], blanks, underscores) are not modelled and raise here; no
    capture group takes them (see [mediabox_groups_are_numbers]). *)
Definition float_of_numeral (v : list byte) : result float :=
  match v with
  | "-"%byte :: w => float_of_digits true w
  | _ => float_of_digits false v
  end.

(** ** The language of a pattern *)

(** [Match r w caps]: the word [w] is in the language of [r], and matching
    it records the captures [caps], in the order their groups close. *)
Inductive Match {A : Type} : regex A → list A → list (list A) → Prop :=
| Match_lit a : Match (Lit a) [a] []
| Match_class (p : A → bool) a : p a = true → Match (Class p) [a] []
| Match_seq r1 r2 w1 w2 c1 c2 :
    Match r1 w1 c1 → Match r2 w2 c2 → Match (Seq r1 r2) (w1 ++ w2) (c1 ++ c2)
| Match_opt_skip r : Match (Opt r) [] []
| Match_opt_take r w c : Match r w c → Match (Opt r) w c
| Match_star_stop r : Match (Star r) [] []
| Match_star_more r w1 w2 c1 c2 :
    Match r w1 c1 → Match (Star r) w2 c2 → Match (Star r) (w1 ++ w2) (c1 ++ c2)
| Match_group r w c : Match r w c → Match (Group r) w (c ++ [w]).

Fixpoint group_free {A} (r : regex A) : bool :=
  match r with
  | Lit _ | Class _ => true
  | Seq r1 r2 => group_free r1 && group_free r2
  | Opt r' | Star r' => group_free r'
  | Group _ => false
  end.

(** A matcher that only finds matches of [r]. *)
Definition sound_matcher {A X} (body : @matcher A X) (r : regex A) : Prop :=
  ∀ s caps k x, body s caps k = Some x →
    ∃ w s' c, s = w ++ s' ∧ Match r w c ∧ k s' (caps ++ c) = Some x.

(** The bodies of the groups of a pattern, in order, where no group lies
    under a repetition or an option and no group holds another. *)
Fixpoint group_bodies {A} (r : regex A) : option (list (regex A)) :=
  match r with
  | Lit _ | Class _ => Some []
  | Seq r1 r2 =>
      match group_bodies r1, group_bodies r2 with
      | Some b1, Some b2 => Some (b1 ++ b2)
      | _, _ => None
      end
  | Opt r' | Star r' => if group_free r' then Some [] else None
  | Group r' => if group_free r' then Some [r'] else None
  end.

(** ** pyipp and the host *)

(** [pyipp.tags.IppTag], the value tags of job attributes. *)
Inductive IppTag :=
| INTEGER | BOOLEAN | ENUM | TEXT | NAME | KEYWORD | URI | CHARSET
| LANGUAGE | MIME_TYPE.

(** [ATTRIBUTE_TAG_MAP.setdefault(key, tag)] *)
Definition setdefault (key : string) (tag : IppTag) (tags : gmap string IppTag)
    : gmap string IppTag :=
  match tags !! key with
  | Some _ => tags
  | None => <[key := tag]> tags
  end.

(** The four module-level [setdefault] calls, on pyipp's own table. *)
Definition seed_tags (tags : gmap string IppTag) : gmap string IppTag :=
  setdefault "FeedDist" KEYWORD
    (setdefault "FeedWhere" KEYWORD
      (setdefault "BlankSpace" BOOLEAN
        (setdefault "TrimMode" KEYWORD tags))).

(** The message handed to [ipp.execute(IppOperation.PRINT_JOB, message)]. *)
Record message := Message {
  operation_attributes : gmap string pyobj;
  job_attributes : gmap string pyobj;
  message_data : pyobj
}.

(** [reader.pages[0].mediabox] *)
Record mediabox := MediaBox {
  box_left : float; box_bottom : float; box_right : float; box_top : float
}.

(** The options bag after [PrintingOptionsSerializer]: a field is [None]
    when the request leaves it out. *)
Record printing_options := PrintingOptions {
  opt_media : option string;
  opt_copies : option Z;
  opt_title : option string;
  opt_feed_after_mm : option float;
  opt_job_options : option string
}.

Definition no_options : printing_options := PrintingOptions None None None None None.

(** The keyword arguments of [print_label]; [kwargs.get(k)] is [PNone] for
    a keyword that is not passed. *)
Record kwargs := Kwargs {
  kw_pdf_data : pyobj;
  kw_label : pyobj;
  kw_data : pyobj;
  kw_payload : pyobj;
  kw_printing_options : option printing_options
}.

(** What the plugin calls and does not define. *)
Class Host := {
  (** [SettingsMixin.get_setting(key)]: the stored text, if any *)
  get_setting : string → option string;
  (** [os.path.exists(path)] *)
  path_exists : string → bool;
  (** [open(path, "rb")] and [read()]: the contents, or the text of the
      [OSError] *)
  read_binary : string → list byte + string;
  (** [PdfReader(io.BytesIO(payload))] up to the media box of the first
      page: [Ok None] when [reader.pages] is empty *)
  first_page_mediabox : list byte → result (option mediabox);
  (** [IPP(uri)] and [ipp.execute(PRINT_JOB, message)] under [asyncio.run];
      the serializer reads the tag table *)
  ipp_execute : gmap string IppTag → string → message → result unit;
  (** [int(s)] and [float(s)] on the text of a setting *)
  int_of_str : string → result Z;
  float_of_str : string → result float;
  (** the text of the [TypeError] that [re.search] with a bytes pattern
      raises for an object that is not bytes-like; its wording depends on
      the interpreter *)
  scan_type_error : pyobj → string
}.

(** [a or b] where each is [None] or a [str]. *)
Definition str_or (a b : option string) : option string :=
  match a with
  | Some s => if String.eqb s "" then b else a
  | None => b
  end.

(** [a or d] where [a] is [None] or a [str] and [d] a [str]. *)
Definition str_or_default (a : option string) (d : string) : string :=
  match a with
  | Some s => if String.eqb s "" then d else s
  | None => d
  end.

(** [SETTINGS]: the default of each key. *)
Definition SETTINGS_default (key : string) : option string :=
  if String.eqb key "CUPS_HOST" then Some "portterm"
  else if String.eqb key "CUPS_QUEUE" then Some "devterm_printer"
  else if String.eqb key "CUPS_PORT" then Some "631"
  else if String.eqb key "DEFAULT_MEDIA" then Some "auto"
  else if String.eqb key "DEFAULT_FEED_AFTER_MM" then Some "0"
  else if String.eqb key "JOB_OPTIONS" then
    Some ("print-scaling=none" +:+ String "010" "TrimMode=Strong"
          +:+ String "010" "BlankSpace=False"
          +:+ String "010" "orientation-requested=none")
  else None.

(** ** plugin.py *)

(** The literals [0], [3.0], [25.4] and [72.0]. *)
Definition zero : float := S754_zero false.
Definition three : float := float_of_decimal false 3 0.
Definition mm_per_inch : float := float_of_decimal false 254 1.
Definition points_per_inch : float := float_of_decimal false 72 0.

(** [dict.update]: the entries of [other] replace those of [d]. *)
Definition dict_update (d other : gmap string pyobj) : gmap string pyobj :=
  other ∪ d.

Section Plugin.
Context `{Host}.

(** [ValueError("No label payload provided")] *)
Definition no_payload : exn := Exn ValueError "No label payload provided".

(** The result is [bytes] on every path but the last of a stream: what
    [read()] returns that is not a [str] is returned as it is. *)
Definition _as_bytes (label : pyobj) : result pyobj :=
  match label with
  | PNone => Raise no_payload
  | PBytes b => Ok (PBytes b)
  | PByteArray b => Ok (PBytes b)
  | PStr s =>
      if path_exists s then
        match read_binary s with
        | inl contents => Ok (PBytes contents)
        | inr msg => Raise (Exn OSError msg)
        end
      else Ok (PBytes (encode_utf8 s))
  | PStream _ _ content =>
      payload ← content;
      match payload with
      | PStr s => Ok (PBytes (encode_utf8 s))
      | _ => Ok payload
      end
  | PBool _ | PInt _ | PObject _ _ _ =>
      Raise (Exn TypeError
        ("Unsupported label payload type: <class '" +:+ type_name label +:+ "'>"))
  end.

Definition _printer_uri (host : string) (port : Z) (queue : string) : string :=
  "ipp://" +:+ host +:+ ":" +:+ str_of_int port +:+ "/printers/" +:+ queue.

(** [raw_lines]: every line cut at its commas, each piece stripped. *)
Definition raw_lines (text : string) : list string :=
  concat (map (fun line => map strip (split "," line)) (splitlines text)).

(** The typed value of one option; [int] raises on more digits than it
    converts. *)
Definition parsed_value (value : string) : result pyobj :=
  let v_lower := lower value in
  if String.eqb v_lower "true" then Ok (PBool true)
  else if String.eqb v_lower "false" then Ok (PBool false)
  else if re_fullmatch INT_RE (list_ascii_of_string value)
  then n ← py_int value; Ok (PInt n)
  else Ok (PStr value).

(** One turn of the loop over [raw_lines], on [result] and the tag table.
    An exception ends the loop: the turns after it change nothing, and the
    tag table keeps what the turns before it added. *)
Definition parse_token
    (st : result (gmap string pyobj) * gmap string IppTag) (token : string)
    : result (gmap string pyobj) * gmap string IppTag :=
  match st.1 with
  | Raise _ => st
  | Ok result =>
      if String.eqb token "" || negb (contains "=" token) then st
      else
        let '(key, value) := split1 "=" token in
        let key := strip key in
        let value := strip value in
        if String.eqb key "" then st
        else if String.eqb (lower value) "none" then st
        else
          match parsed_value value with
          | Raise e => (Raise e, st.2)
          | Ok parsed => (Ok (<[key := parsed]> result), setdefault key KEYWORD st.2)
          end
  end.

Definition _parse_job_options (text : string) (tags : gmap string IppTag)
    : result (gmap string pyobj) * gmap string IppTag :=
  if String.eqb text "" then (Ok ∅, tags)
  else fold_left parse_token (raw_lines text) (Ok ∅, tags).

Definition _format_mm (value : float) : string :=
  let s := format_2f value in
  let s := rstrip_by (Ascii.eqb ".") (rstrip_by (Ascii.eqb "0") s) in
  if String.eqb s "" then "0" else s.

(** [points * 25.4 / 72.0] *)
Definition points_to_mm (points : float) : float :=
  fdiv (fmul points mm_per_inch) points_per_inch.

Definition custom_media (width_pt height_pt : float) : string :=
  "Custom." +:+ _format_mm (points_to_mm width_pt) +:+ "x"
  +:+ _format_mm (points_to_mm height_pt) +:+ "mm".

(** The raw scan of a document that is [bytes]. *)
Definition scan_bytes (document : list byte) : result string :=
  match re_search MEDIABOX_RE document with
  | None => Ok ""
  | Some [g1; g2; g3; g4] =>
      x1 ← float_of_numeral g1;
      y1 ← float_of_numeral g2;
      x2 ← float_of_numeral g3;
      y2 ← float_of_numeral g4;
      Ok (custom_media (SFabs (fsub x2 x1)) (SFabs (fsub y2 y1)))
  | Some _ => Raise (Exn ValueError "not enough values to unpack")
  end.

(** The second half of [_pdf_media_auto]: [re.search] takes a bytes-like
    object and raises [TypeError] for any other. *)
Definition mediabox_by_regex (payload : pyobj) : result string :=
  match bytes_like payload with
  | Some document => scan_bytes document
  | None => Raise (Exn TypeError (scan_type_error payload))
  end.

(** [PdfReader(io.BytesIO(payload))] up to the media box of the first
    page: [io.BytesIO] takes a bytes-like object, is empty for [None] and
    raises [TypeError] for any other object. *)
Definition read_pdf (payload : pyobj) : result (option mediabox) :=
  match bytes_like payload, payload with
  | Some document, _ => first_page_mediabox document
  | None, PNone => first_page_mediabox []
  | None, _ =>
      Raise (Exn TypeError
        ("a bytes-like object is required, not '" +:+ type_name payload +:+ "'"))
  end.

Definition _pdf_media_auto (payload : pyobj) : result string :=
  match read_pdf payload with
  | Ok (Some box) =>
      Ok (custom_media (SFabs (fsub (box_right box) (box_left box)))
                       (SFabs (fsub (box_top box) (box_bottom box))))
  | Ok None => mediabox_by_regex payload
  | Raise e => if is_Exception e then mediabox_by_regex payload else Raise e
  end.

Definition _resolve_media (media_value : option string) (payload : pyobj)
    : result string :=
  let media := strip (str_or_default media_value "") in
  if String.eqb media "" then Ok ""
  else if String.eqb (lower media) "auto" then _pdf_media_auto payload
  else Ok media.

Definition _feed_options (feed_after_mm : float) : result (gmap string pyobj) :=
  if SFleb feed_after_mm zero then Ok {[ "FeedWhere" := PStr "None" ]}
  else
    rounded ← py_round (fdiv feed_after_mm three);
    let steps := Z.max 1 (Z.min 15 rounded) in
    let dist_mm := steps * 3 in
    let dist_key := str_of_int (steps - 1) +:+ "feed" +:+ str_of_int dist_mm +:+ "mm" in
    Ok ({[ "FeedWhere" := PStr "AfterJob"; "FeedDist" := PStr dist_key ]}).

(** [job_attrs] as [_print_via_ipp] builds it. *)
Definition job_attrs (title : string) (copies : Z)
    (parsed feed : gmap string pyobj) (media_resolved : string)
    : gmap string pyobj :=
  let attrs := {[ "job-name" := PStr title; "copies" := PInt copies ]} in
  let attrs := dict_update attrs parsed in
  let attrs := dict_update attrs feed in
  if String.eqb media_resolved "" then attrs
  else <["media" := PStr media_resolved]> attrs.

(** [message] as [_print_via_ipp] builds it. *)
Definition print_job_message (attrs : gmap string pyobj) (payload : pyobj)
    : message :=
  {| operation_attributes := {[ "document-format" := PStr "application/pdf" ]};
     job_attributes := attrs;
     message_data := payload |}.

Definition _print_via_ipp (host : string) (port : Z) (queue : string)
    (payload : pyobj) (media : option string) (copies : Z)
    (title : string) (feed_after_mm : float) (job_options_text : string)
    (tags : gmap string IppTag) : result unit * gmap string IppTag :=
  let uri := _printer_uri host port queue in
  match _resolve_media media payload with
  | Raise e => (Raise e, tags)
  | Ok media_resolved =>
      let '(parsed, tags) := _parse_job_options job_options_text tags in
      match parsed with
      | Raise e => (Raise e, tags)
      | Ok parsed =>
          match _feed_options feed_after_mm with
          | Raise e => (Raise e, tags)
          | Ok feed =>
              let message :=
                print_job_message
                  (job_attrs title copies parsed feed media_resolved) payload in
              (ipp_execute tags uri message, tags)
          end
      end
  end.

(** The [try] statement of [print_label] around the submission. *)
Definition ipp_failure_wrapped (r : result ()) : result () :=
  try_except r (fun exc =>
    Raise (Exn RuntimeError ("IPP print failed: " +:+ exn_str exc))).

(** The locals of [print_label] that the options and settings decide. *)
Definition label_of (kw : kwargs) : pyobj :=
  py_or (py_or (py_or (kw_pdf_data kw) (kw_label kw)) (kw_data kw)) (kw_payload kw).

Definition options_of (kw : kwargs) : printing_options :=
  default no_options (kw_printing_options kw).

Definition media_of (options : printing_options) : option string :=
  str_or (opt_media options) (get_setting "DEFAULT_MEDIA").

Definition copies_of (options : printing_options) : Z :=
  default 1 (opt_copies options).

Definition title_of (options : printing_options) : string :=
  str_or_default (opt_title options) "inventree-label".

Definition feed_after_mm_of (options : printing_options) : result float :=
  match opt_feed_after_mm options with
  | Some x => Ok x
  | None =>
      match get_setting "DEFAULT_FEED_AFTER_MM" with
      | Some s => if String.eqb s "" then Ok zero else float_of_str s
      | None => Ok zero
      end
  end.

Definition job_options_text_of (options : printing_options) : string :=
  str_or_default (str_or (opt_job_options options) (get_setting "JOB_OPTIONS")) "".

Definition print_label (kw : kwargs) (tags : gmap string IppTag)
    : result unit * gmap string IppTag :=
  let label := label_of kw in
  let options := options_of kw in
  let media := media_of options in
  let copies := copies_of options in
  let title := title_of options in
  match feed_after_mm_of options with
  | Raise e => (Raise e, tags)
  | Ok feed_after_mm =>
  let job_options_text := job_options_text_of options in
  let cups_host := str_or_default (get_setting "CUPS_HOST") "portterm" in
  let cups_queue := str_or_default (get_setting "CUPS_QUEUE") "devterm_printer" in
  match int_of_str (str_or_default (get_setting "CUPS_PORT") "631") with
  | Raise e => (Raise e, tags)
  | Ok cups_port =>
  match _as_bytes label with
  | Raise e => (Raise e, tags)
  | Ok payload =>
      let '(r, tags) := _print_via_ipp cups_host cups_port cups_queue payload
                          media copies title feed_after_mm job_options_text tags in
      (ipp_failure_wrapped r, tags)
  end end end.

End Plugin.

(** ** The option grammar in the specification's words *)

Fixpoint all_digits (s : string) : bool :=
  match s with
  | EmptyString => true
  | String c s' => isdigit c && all_digits s'
  end.

(** "An optional leading minus followed by one or more digits, entire
    string." *)
Definition spec_is_integer (s : string) : bool :=
  match s with
  | String "-" s' => negb (String.eqb s' "") && all_digits s'
  | _ => negb (String.eqb s "") && all_digits s
  end.

(** Value typing, in priority order. *)
Definition spec_typed_value (value : string) : pyobj :=
  if String.eqb (lower value) "true" then PBool true
  else if String.eqb (lower value) "false" then PBool false
  else if spec_is_integer value then PInt (int_of_numeral value)
  else PStr value.

(** What one token contributes: nothing without an [=], with an empty key
    or with the value [none]; else its key and typed value. *)
Definition spec_binding (token : string) : option (string * pyobj) :=
  if contains "=" token then
    let key := strip (split1 "=" token).1 in
    let value := strip (split1 "=" token).2 in
    if String.eqb key "" then None
    else if String.eqb (lower value) "none" then None
    else Some (key, spec_typed_value value)
  else None.

(** A value that [int] does not convert: an integer of more digits than
    the limit. *)
Definition oversized (value : string) : bool :=
  spec_is_integer value && (INT_MAX_STR_DIGITS <? digit_count value).

(** A token that binds a value that [int] does not convert. *)
Definition token_oversized (token : string) : bool :=
  match spec_binding token with
  | Some _ => oversized (strip (split1 "=" token).2)
  | None => false
  end.

(** What [int] raises on the value of such a token. *)
Definition token_error (token : string) : exn :=
  int_limit_error (digit_count (strip (split1 "=" token).2)).

(** The first token of a list that binds such a value. *)
Definition first_oversized (tokens : list string) : option string :=
  head (filter (fun token => token_oversized token = true) tokens).

(** The tokens in front of it: all of them, if there is none. *)
Fixpoint accepted (tokens : list string) : list string :=
  match tokens with
  | [] => []
  | token :: tokens' =>
      if token_oversized token then [] else token :: accepted tokens'
  end.

(** Lines, then commas, each token trimmed. *)
Definition spec_tokens (text : string) : list string :=
  line ← splitlines text; strip <$> split "," line.

(** Later tokens overwrite earlier ones: [list_to_map] keeps the first
    entry of a key, so the bindings go in last to first. *)
Definition spec_parse (text : string) : gmap string pyobj :=
  list_to_map (reverse (omap spec_binding (spec_tokens text))).

(** The entries that the tokens in front of the first oversized value
    give: the keys that reach the tag table. *)
Definition spec_registered (text : string) : gmap string pyobj :=
  list_to_map (reverse (omap spec_binding (accepted (spec_tokens text)))).

(** Trimming in other words: the white space is taken off the front of the
    text, and off the front of what is left read backwards. *)
Fixpoint skip_while (p : ascii → bool) (l : list ascii) : list ascii :=
  match l with
  | c :: l' => if p c then skip_while p l' else l
  | [] => []
  end.

Definition spec_trim (s : string) : string :=
  string_of_list_ascii
    (reverse (skip_while isspace
       (reverse (skip_while isspace (list_ascii_of_string s))))).

(** Lines in other words: CR LF is read as LF, the text is cut at every
    line boundary, and a last piece that is empty is no line. *)
Fixpoint crlf_to_lf (s : string) : string :=
  match s with
  | EmptyString => EmptyString
  | String c s' =>
      match s' with
      | String d s'' =>
          if Ascii.eqb c "013" && Ascii.eqb d "010"
          then String "010" (crlf_to_lf s'')
          else String c (crlf_to_lf s')
      | EmptyString => s
      end
  end.

Fixpoint cut_at (p : ascii → bool) (s : string) : list string :=
  match s with
  | EmptyString => [EmptyString]
  | String c s' =>
      if p c then EmptyString :: cut_at p s'
      else match cut_at p s' with
           | piece :: pieces => String c piece :: pieces
           | [] => [String c EmptyString]
           end
  end.

Fixpoint without_empty_last (pieces : list string) : list string :=
  match pieces with
  | [] => []
  | [piece] => if String.eqb piece "" then [] else [piece]
  | piece :: pieces' => piece :: without_empty_last pieces'
  end.

Definition spec_lines (text : string) : list string :=
  without_empty_last (cut_at is_linebreak (crlf_to_lf text)).

(** Pieces put together again with [=] between them. *)
Fixpoint join_equals (pieces : list string) : string :=
  match pieces with
  | [] => EmptyString
  | piece :: pieces' =>
      match pieces' with
      | [] => piece
      | _ => piece +:+ String "=" (join_equals pieces')
      end
  end.

(** A token split on its first [=] only: what is in front of it, and the
    rest with every further [=] in place.  Nothing for a token without
    [=]. *)
Definition spec_key_value (token : string) : option (string * string) :=
  match cut_at (fun c => Ascii.eqb c "=") token with
  | key :: piece :: pieces => Some (key, join_equals (piece :: pieces))
  | _ => None
  end.

(** The key and the value of a token, trimmed, as text: nothing for a
    token without [=], with an empty key or with the value [none]. *)
Definition grammar_entry (token : string) : option (string * string) :=
  match spec_key_value token with
  | Some (key, value) =>
      let key := spec_trim key in
      let value := spec_trim value in
      if String.eqb key "" then None
      else if String.eqb (lower value) "none" then None
      else Some (key, value)
  | None => None
  end.

(** The tokens of a text: lines, then commas, each token trimmed. *)
Definition grammar_tokens (text : string) : list string :=
  line ← spec_lines text; spec_trim <$> cut_at (fun c => Ascii.eqb c ",") line.

Definition grammar_entries (text : string) : list (string * string) :=
  omap grammar_entry (grammar_tokens text).

(** The mapping of a text: every entry with its value typed, later ones
    first so that they win. *)
Definition grammar_parse (text : string) : gmap string pyobj :=
  list_to_map (reverse (prod_map id spec_typed_value <$> grammar_entries text)).

(** The first entry of a text whose value [int] does not convert. *)
Definition grammar_oversized (text : string) : option (string * string) :=
  find (fun entry => oversized entry.2) (grammar_entries text).

(** What a token that [int] converts does to the mapping and to the tag
    table. *)
Definition spec_step (st : gmap string pyobj * gmap string IppTag) (token : string)
    : gmap string pyobj * gmap string IppTag :=
  match spec_binding token with
  | None => st
  | Some (key, v) => (<[key := v]> st.1, setdefault key KEYWORD st.2)
  end.

(** Options with blanks, tabs, a no-break space and line boundaries of
    every kind between and around them. *)
Definition spaced_options : string :=
  "  a = 1 ," +:+ String "009" ("b=True" +:+ String "013" (String "010"
  (" c = x y " +:+ String "010" (String "010" ("d=-07" +:+ String "011"
  ("e=" +:+ String "160" (" f" +:+ String "133" ("g = none , h=="
  +:+ String "012" ("=i" +:+ String "013" ("j=1" +:+ String "028"
  ("k=2" +:+ String "031" (",l=FALSE " +:+ String "010" "")))))))))))).

(** An integer of 4301 digits. *)
Definition long_number : string := string_of_list_ascii (repeat "1"%char 4301).




(** The decimals that [_format_mm] keeps of [f] hundredths, [0 <= f < 100]. *)
Definition spec_decimals (f : Z) : string :=
  if f =? 0 then ""
  else if f mod 10 =? 0 then String "." (String (digit_char (f / 10)) "")
  else String "." (two_digits f).

(** No character of [s] is in the set [p]. *)
Fixpoint none_of (p : ascii → bool) (s : string) : bool :=
  match s with
  | EmptyString => true
  | String c s' => negb (p c) && none_of p s'
  end.

(** Every character of [s] is in the set [p]. *)
Fixpoint all_of (p : ascii → bool) (s : string) : bool :=
  match s with
  | EmptyString => true
  | String c s' => p c && all_of p s'
  end.

(** The pieces put together again, [sep] between them. *)
Fixpoint join (sep : ascii) (pieces : list string) : string :=
  match pieces with
  | [] => EmptyString
  | [p] => p
  | p :: ps => p +:+ String sep (join sep ps)
  end.

(** ** Hosts to run the plugin on *)

(** Default settings, the given files on disk, a PDF reader that rejects
    every document and the given printer. *)
Definition make_host (files : gmap string (list byte))
    (printer : message → result ()) : Host := {|
  get_setting := SETTINGS_default;
  path_exists := fun path => bool_decide (is_Some (files !! path));
  read_binary := fun path =>
    match files !! path with
    | Some contents => inl contents
    | None => inr "No such file or directory"
    end;
  first_page_mediabox := fun _ =>
    Raise (Exn (OtherException "PdfReadError") "EOF marker not found");
  ipp_execute := fun _ _ message => printer message;
  int_of_str := fun s =>
    if re_fullmatch INT_RE (list_ascii_of_string s) then py_int s
    else Raise (Exn ValueError "invalid literal for int() with base 10");
  float_of_str := fun s => float_of_numeral (list_byte_of_string s);
  scan_type_error := fun o =>
    match o with
    | PStr _ => "cannot use a bytes pattern on a string-like object"
    | _ => "expected string or bytes-like object, got '" +:+ type_name o +:+ "'"
    end
|}.

(** No file on disk and a printer that takes every job. *)
Definition plain_host : Host := make_host ∅ (fun _ => Ok ()).

(** A printer that cannot be reached. *)
Definition refusing_host : Host :=
  make_host ∅ (fun _ =>
    Raise (Exn (OtherException "IPPConnectionError") "Connection refused")).



(** ** Notions used to state further properties *)

(** The input goes on with something that [p] rejects, or ends. *)
Definition stops {A} (p : A → bool) (s : list A) : Prop :=
  match s with
  | [] => True
  | c :: _ => p c = false
  end.

(** The input goes on with something that cannot belong to a number, or
    ends. *)
Definition number_ends (s : list byte) : Prop :=
  match s with
  | [] => True
  | c :: _ => bdigit c = false ∧ c ≠ "."%byte
  end.

(** A binary64 that is not below zero: [nan], or one with a clear sign
    bit. *)
Definition unsigned_float (x : float) : Prop :=
  match x with
  | S754_nan => True
  | S754_zero s | S754_infinity s | S754_finite s _ _ => s = false
  end.

(** A numeral: an optional minus sign, digits, and an optional point with
    digits after it. *)
Record numeral := Numeral {
  num_neg : bool;
  num_int : list byte;
  num_frac : list byte
}.

Definition numeral_ok (n : numeral) : Prop :=
  num_int n ≠ [] ∧ forallb bdigit (num_int n) = true
  ∧ forallb bdigit (num_frac n) = true.

Definition numeral_text (n : numeral) : list byte :=
  (if num_neg n then ["-"%byte] else [])
  ++ num_int n
  ++ match num_frac n with [] => [] | _ => "."%byte :: num_frac n end.

(** The binary64 nearest to the number that a numeral denotes. *)
Definition numeral_value (n : numeral) : float :=
  float_of_decimal (num_neg n) (bdigits_value 0 (num_int n ++ num_frac n))
                   (Z.of_nat (length (num_frac n))).

(** The bytes of a media box entry of a PDF: the name, the brackets, four
    numerals [n1] to [n4] and the white space [w0] to [w5] around them. *)
Definition mediabox_text (w0 w1 n1 w2 n2 w3 n3 w4 n4 w5 : list byte) : list byte :=
  list_byte_of_string "/MediaBox" ++ w0 ++ ["["%byte] ++ w1
  ++ n1 ++ w2 ++ n2 ++ w3 ++ n3 ++ w4 ++ n4 ++ w5 ++ ["]"%byte].

(** A media box entry as the scan reads it: white space is optional after
    the name and inside the brackets and required between the numerals. *)
Definition box_ok (w0 w1 w2 w3 w4 w5 : list byte) : Prop :=
  forallb bspace w0 = true ∧ forallb bspace w1 = true
  ∧ (w2 ≠ [] ∧ forallb bspace w2 = true)
  ∧ (w3 ≠ [] ∧ forallb bspace w3 = true)
  ∧ (w4 ≠ [] ∧ forallb bspace w4 = true)
  ∧ forallb bspace w5 = true.

(** The input starts with a media box entry. *)
Definition box_at (s : list byte) : Prop :=
  ∃ w0 w1 n1 w2 n2 w3 n3 w4 n4 w5 rest,
    s = mediabox_text w0 w1 (numeral_text n1) w2 (numeral_text n2)
                      w3 (numeral_text n3) w4 (numeral_text n4) w5 ++ rest
    ∧ box_ok w0 w1 w2 w3 w4 w5
    ∧ numeral_ok n1 ∧ numeral_ok n2 ∧ numeral_ok n3 ∧ numeral_ok n4.

(** An entry that breaks off, and then one with a tab, a line feed, a
    carriage return and a vertical tab as its white space. *)
Definition spaced_box : list byte :=
  list_byte_of_string
    ("/MediaBox[0 0 1 1 /MediaBox" +:+ String "009" ("[" +:+ String "010"
     ("-10.5 0" +:+ String "013" ("61.5  144.25" +:+ String "011" "]")))).

(** The default of [JOB_OPTIONS] in [SETTINGS]. *)
Definition JOB_OPTIONS_default : string :=
  "print-scaling=none" +:+ String "010" "TrimMode=Strong"
  +:+ String "010" "BlankSpace=False"
  +:+ String "010" "orientation-requested=none".

(** Default settings, no file on disk, a printer that takes every job and
    a PDF reader that finds a first page of 136 by 85 points in every
    document. *)
Definition reading_host : Host := {|
  get_setting := SETTINGS_default;
  path_exists := fun _ => false;
  read_binary := fun _ => inr "No such file or directory";
  first_page_mediabox := fun _ =>
    Ok (Some (MediaBox zero zero (float_of_decimal false 136 0)
                       (float_of_decimal false 85 0)));
  ipp_execute := fun _ _ _ => Ok ();
  int_of_str := @int_of_str plain_host;
  float_of_str := @float_of_str plain_host;
  scan_type_error := @scan_type_error plain_host
|}.

(** ** Properties of the text functions *)

Lemma append_cons (c : ascii) (a b : string) :
  String c a +:+ b = String c (a +:+ b).
Proof. reflexivity. Qed.

Lemma append_empty_l (b : string) : "" +:+ b = b.
Proof. reflexivity. Qed.

Lemma append_empty_r (a : string) : a +:+ "" = a.
Proof. induction a as [|c a IH]; [done|]. by rewrite append_cons, IH. Qed.

Lemma append_assoc (a b c : string) : (a +:+ b) +:+ c = a +:+ (b +:+ c).
Proof.
  induction a as [|x a IH]; [done|]. by rewrite !append_cons, IH.
Qed.

Lemma eqb_empty (s : string) : String.eqb s "" = true ↔ s = "".
Proof. apply String.eqb_eq. Qed.

Lemma rstrip_by_none p s : none_of p s = true → rstrip_by p s = s.
Proof.
  induction s as [|c s IH]; simpl; [done|].
  intros [Hc Hs]%andb_true_iff. rewrite (IH Hs).
  destruct s; [|done]. by destruct (p c).
Qed.

(** [rstrip] works on the tail of a concatenation first. *)
Lemma rstrip_by_app p a b :
  rstrip_by p (a +:+ b) =
    match rstrip_by p b with
    | EmptyString => rstrip_by p a
    | r => a +:+ r
    end.
Proof.
  induction a as [|c a IH].
  - rewrite append_empty_l. simpl. by destruct (rstrip_by p b).
  - rewrite append_cons. simpl. rewrite IH.
    destruct (rstrip_by p b) as [|x r]; [done|].
    rewrite append_cons. by destruct a.
Qed.

Lemma lstrip_by_split p s : ∃ l, s = l +:+ lstrip_by p s ∧ all_of p l = true.
Proof.
  induction s as [|c s (l & Hs & Hl)]; simpl.
  - by exists "".
  - destruct (p c) eqn:Hc.
    + exists (String c l). rewrite append_cons, <- Hs. simpl. by rewrite Hc, Hl.
    + by exists "".
Qed.

Lemma lstrip_by_head p s c t : lstrip_by p s = String c t → p c = false.
Proof.
  induction s as [|a s IH]; simpl; [done|].
  destruct (p a) eqn:Ha; [done|]. by intros [= <- _].
Qed.

Lemma rstrip_by_split p s : ∃ r, s = rstrip_by p s +:+ r ∧ all_of p r = true.
Proof.
  induction s as [|c s (r & Hs & Hr)]; simpl.
  - by exists "".
  - destruct (rstrip_by p s) as [|a u] eqn:Hu.
    + rewrite append_empty_l in Hs. subst r. destruct (p c) eqn:Hc.
      * exists (String c s). simpl. by rewrite Hc, Hr.
      * exists s. by rewrite append_cons, append_empty_l.
    + exists r. by rewrite append_cons, <- Hs.
Qed.

Lemma rstrip_by_last p s t c : rstrip_by p s = t +:+ String c "" → p c = false.
Proof.
  revert t. induction s as [|a s IH]; intros t; simpl.
  - by destruct t.
  - destruct (rstrip_by p s) as [|b u] eqn:Hu.
    + destruct (p a) eqn:Ha; [by destruct t|].
      destruct t as [|x t]; [by intros [= <-]|].
      rewrite append_cons. intros [= _ Ht]. by destruct t.
    + destruct t as [|x t].
      * rewrite append_empty_l. by intros [= _ ?].
      * rewrite append_cons. intros [= _ Ht]. by apply (IH t).
Qed.

(** [strip] takes whitespace off both ends, and all of it. *)
Lemma strip_spec s :
  ∃ l r, s = l +:+ strip s +:+ r
    ∧ all_of isspace l = true ∧ all_of isspace r = true
    ∧ (∀ c t, strip s = String c t → isspace c = false)
    ∧ (∀ t c, strip s = t +:+ String c "" → isspace c = false).
Proof.
  unfold strip.
  destruct (rstrip_by_split isspace s) as (r & Hs & Hr).
  destruct (lstrip_by_split isspace (rstrip_by isspace s)) as (l & Hu & Hl).
  exists l, r. split; [|split; [done|split; [done|split]]].
  - rewrite <- append_assoc, <- Hu. done.
  - intros c t. apply lstrip_by_head.
  - intros t c Ht. rewrite Ht in Hu. rewrite <- append_assoc in Hu.
    by apply rstrip_by_last in Hu.
Qed.

Lemma split_nonempty sep s : split sep s ≠ [].
Proof.
  destruct s as [|c s]; simpl; [done|].
  destruct (Ascii.eqb c sep); [done|]. by destruct (split sep s).
Qed.

Lemma join_cons sep p ps :
  ps ≠ [] → join sep (p :: ps) = p +:+ String sep (join sep ps).
Proof. by destruct ps. Qed.

Lemma join_cons_char sep c p ps :
  join sep (String c p :: ps) = String c (join sep (p :: ps)).
Proof. by destruct ps. Qed.

(** [split] cuts at every separator and nowhere else. *)
Lemma split_spec sep s :
  join sep (split sep s) = s
  ∧ Forall (fun piece => contains sep piece = false) (split sep s).
Proof.
  induction s as [|c s [IHj IHf]]; cbn [split].
  - split; [done|]. by repeat constructor.
  - destruct (Ascii.eqb c sep) eqn:Hc.
    + apply Ascii.eqb_eq in Hc as ->. split.
      * rewrite join_cons by apply split_nonempty.
        by rewrite append_empty_l, IHj.
      * by constructor.
    + pose proof (split_nonempty sep s).
      destruct (split sep s) as [|p ps]; [done|]. split.
      * by rewrite join_cons_char, IHj.
      * inversion IHf; subst. constructor; [|done]. cbn [contains]. by rewrite Hc.
Qed.

(** [split1] cuts at the first separator. *)
Lemma split1_spec sep s :
  contains sep s = true →
  s = (split1 sep s).1 +:+ String sep (split1 sep s).2
  ∧ contains sep (split1 sep s).1 = false.
Proof.
  induction s as [|c s IH]; simpl; [done|].
  destruct (Ascii.eqb c sep) eqn:Hc.
  - apply Ascii.eqb_eq in Hc as ->. done.
  - intros Hs. destruct (IH Hs) as [Heq Hk].
    destruct (split1 sep s) as [k v]. simpl in *.
    rewrite append_cons, <- Heq, Hc. done.
Qed.

(** No line of [splitlines] holds a line boundary. *)
Lemma splitlines_from_lines skip s :
  Forall (fun line => none_of is_linebreak line = true) (splitlines_from skip s).
Proof.
  revert skip. induction s as [|c s IH]; intros skip; simpl; [constructor|].
  destruct (skip && Ascii.eqb c "010"); [apply IH|].
  destruct (is_linebreak c) eqn:Hc.
  - constructor; [done|apply IH].
  - specialize (IH false). destruct (splitlines_from false s) as [|l ls].
    + repeat constructor. simpl. by rewrite Hc.
    + inversion IH; subst. constructor; [|done]. simpl. by rewrite Hc.
Qed.

Lemma lower_char_idemp c : lower_char (lower_char c) = lower_char c.
Proof. by destruct c as [[] [] [] [] [] [] [] []]. Qed.

Lemma lower_idemp s : lower (lower s) = lower s.
Proof. induction s as [|c s IH]; simpl; [done|]. by rewrite lower_char_idemp, IH. Qed.

(** The text functions on small inputs. *)
Example text_examples :
  strip "  a b  " = "a b"
  ∧ split "," "a,,b" = ["a"; ""; "b"]
  ∧ split1 "=" "d=x=y" = ("d", "x=y")
  ∧ splitlines ("a" +:+ String "013" (String "010" ("b" +:+ String "010" "")))
    = ["a"; "b"]
  ∧ splitlines (String "010" "") = [""]
  ∧ lower "TrUe" = "true"
  ∧ str_of_int 45 = "45" ∧ str_of_int (-7) = "-7" ∧ str_of_int 0 = "0"
  ∧ encode_utf8 (String "233" "!") = ["195"; "169"; "!"]%byte.
Proof. by vm_compute. Qed.

(** ** Properties of the arithmetic *)

Lemma round_half_even_exact m e : 0 <= e → round_half_even m e = m * 2 ^ e.
Proof. intros He. unfold round_half_even. by rewrite (proj2 (Z.leb_le 0 e) He). Qed.

(** [round_half_even m e] is an integer nearest to [m / 2^(-e)], and the
    even one of the two when the value lies halfway. *)
Lemma round_half_even_nearest m e :
  0 <= m → e < 0 →
  let n := round_half_even m e in
  let d := 2 ^ (- e) in
  2 * Z.abs (n * d - m) <= d ∧ (2 * Z.abs (n * d - m) = d → Z.even n = true).
Proof.
  intros Hm He. unfold round_half_even.
  rewrite (proj2 (Z.leb_gt 0 e) He).
  set (d := 2 ^ (- e)).
  assert (Hd : 0 < d) by (apply Z.pow_pos_nonneg; lia).
  pose proof (Z.div_mod m d ltac:(lia)) as Hdm.
  pose proof (Z.mod_pos_bound m d Hd) as Hr.
  set (q := m / d) in *. set (r := m mod d) in *.
  cbv zeta.
  destruct (Z.compare_spec (2 * r) d) as [Heq|Hlt|Hgt].
  - destruct (Z.even q) eqn:Hev.
    + split; [nia|done].
    + split; [nia|]. intros _. by rewrite Z.even_add, Hev.
  - split; [nia|]. intros Hx. nia.
  - split; [nia|]. intros Hx. nia.
Qed.

Lemma digits2_pos_size p : digits2_pos p = Pos.size p.
Proof. induction p; simpl; congruence. Qed.

Lemma Zdigits2_bound m k : 0 <= m → 0 <= k → m < 2 ^ k → Zdigits2 m <= k.
Proof.
  intros Hm Hk Hlt. destruct m as [|p|p]; simpl; [lia| |lia].
  rewrite digits2_pos_size.
  pose proof (Pos.size_le p) as Hle.
  assert (H2 : 2 ^ Z.pos (Pos.size p) <= 2 * Z.pos p).
  { rewrite <- Pos2Z.inj_pow. change (2 * Z.pos p) with (Z.pos p~0). lia. }
  destruct (Z.le_gt_cases (Z.pos (Pos.size p)) k) as [|Hgt]; [done|].
  assert (2 ^ (k + 1) <= 2 ^ Z.pos (Pos.size p)) by (apply Z.pow_le_mono_r; lia).
  rewrite Z.pow_add_r in * by lia. lia.
Qed.

Lemma Zdigits2_gt p : Z.pos p < 2 ^ Z.pos (digits2_pos p).
Proof.
  rewrite digits2_pos_size. pose proof (Pos.size_gt p) as H.
  rewrite <- Pos2Z.inj_pow. lia.
Qed.

Lemma shr_1_m r : 0 <= shr_m r → 0 <= shr_m (shr_1 r) ∧ 2 * shr_m (shr_1 r) <= shr_m r.
Proof.
  destruct r as [m b1 b2]. simpl. intros Hm.
  destruct m as [|[p|p|]|p]; simpl; lia.
Qed.

Lemma iter_shr_1_m p r :
  0 <= shr_m r →
  0 <= shr_m (SpecFloat.iter_pos shr_1 p r)
  ∧ 2 ^ Z.pos p * shr_m (SpecFloat.iter_pos shr_1 p r) <= shr_m r.
Proof.
  revert r. induction p as [p IH|p IH|]; intros r Hr; simpl SpecFloat.iter_pos.
  - destruct (shr_1_m r Hr) as [H0 H1].
    destruct (IH _ H0) as [H2 H3]. destruct (IH _ H2) as [H4 H5].
    split; [done|].
    replace (Z.pos p~1) with (Z.pos p + Z.pos p + 1) by lia.
    rewrite !Z.pow_add_r by lia.
    assert (0 < 2 ^ Z.pos p) by (apply Z.pow_pos_nonneg; lia). nia.
  - destruct (IH _ Hr) as [H2 H3]. destruct (IH _ H2) as [H4 H5].
    split; [done|].
    replace (Z.pos p~0) with (Z.pos p + Z.pos p) by lia.
    rewrite !Z.pow_add_r by lia.
    assert (0 < 2 ^ Z.pos p) by (apply Z.pow_pos_nonneg; lia). nia.
  - destruct (shr_1_m r Hr). split; [done|]. change (2 ^ 1) with 2. lia.
Qed.

Lemma shr_m_bound r e n r' e' :
  0 <= shr_m r → shr r e n = (r', e') →
  0 <= shr_m r' ∧ e' = e + Z.max 0 n ∧ 2 ^ Z.max 0 n * shr_m r' <= shr_m r.
Proof.
  intros Hr. unfold shr. destruct n as [|p|p]; intros [= <- <-].
  - change (Z.max 0 0) with 0. change (2 ^ 0) with 1. lia.
  - destruct (iter_shr_1_m p r Hr) as [Ha Hb].
    change (Z.max 0 (Z.pos p)) with (Z.pos p). done.
  - change (Z.max 0 (Z.neg p)) with 0. change (2 ^ 0) with 1. lia.
Qed.

Lemma shr_record_of_loc_m m l : shr_m (shr_record_of_loc m l) = m.
Proof. by destruct l as [|[]]. Qed.

Lemma round_nearest_even_bound m l :
  m <= round_nearest_even m l <= m + 1.
Proof. destruct l as [|[]]; simpl; try lia. destruct (Z.even m); lia. Qed.

Lemma pow2_lt_split a b c x :
  0 <= a → 0 <= b → c = a + b → 0 <= x → 2 ^ a * x < 2 ^ c → x < 2 ^ b.
Proof.
  intros Ha Hb -> Hx. rewrite Z.pow_add_r by done.
  assert (0 < 2 ^ a) by (apply Z.pow_pos_nonneg; lia).
  assert (0 < 2 ^ b) by (apply Z.pow_pos_nonneg; lia). nia.
Qed.

(** A value below [2^1023] rounds to a finite binary64. *)
Lemma binary_round_aux_finite sx mx ex lx :
  0 <= mx → -1074 <= ex <= 970 → mx < 2 ^ (1023 - ex) →
  is_finite (binary_round_aux prec emax sx mx ex lx) = true.
Proof.
  intros Hmx Hex Hval. unfold binary_round_aux.
  destruct (shr_fexp prec emax mx ex lx) as [r1 e1] eqn:E1.
  unfold shr_fexp in E1.
  apply shr_m_bound in E1; [|by rewrite shr_record_of_loc_m].
  rewrite shr_record_of_loc_m in E1. destruct E1 as (Hr1 & He1 & Hb1).
  set (q2 := round_nearest_even (shr_m r1) (loc_of_shr_record r1)).
  pose proof (round_nearest_even_bound (shr_m r1) (loc_of_shr_record r1)) as Hq2.
  fold q2 in Hq2.
  destruct (shr_fexp prec emax q2 e1 loc_Exact) as [r3 e3] eqn:E3.
  unfold shr_fexp in E3.
  apply shr_m_bound in E3; [|simpl; lia].
  simpl shr_m in E3. destruct E3 as (Hr3 & He3 & Hb3).
  destruct (shr_m r3) as [|p|p] eqn:Ep; [done| |done].
  enough (e3 <= emax - prec) as Hle by (by rewrite (proj2 (Z.leb_le _ _) Hle)).
  pose proof (Zdigits2_bound mx (1023 - ex) Hmx ltac:(lia) Hval) as Hd1.
  unfold fexp, emin, emax, prec in *.
  set (n1 := Z.max 0 (Z.max (Zdigits2 mx + ex - 53) (3 - 1024 - 53) - ex)) in *.
  assert (Hn1 : 0 <= n1) by lia.
  assert (He1' : e1 <= 970) by lia.
  assert (Hs1 : shr_m r1 < 2 ^ (1023 - e1)).
  { apply (pow2_lt_split n1 (1023 - e1) (1023 - ex)); [lia..|].
    eapply Z.le_lt_trans; [exact Hb1|exact Hval]. }
  assert (Hq2' : q2 < 2 ^ (1024 - e1)).
  { replace (1024 - e1) with (1 + (1023 - e1)) by lia.
    rewrite Z.pow_add_r by lia. change (2 ^ 1) with 2.
    assert (0 < 2 ^ (1023 - e1)) by (apply Z.pow_pos_nonneg; lia). lia. }
  pose proof (Zdigits2_bound q2 (1024 - e1) ltac:(lia) ltac:(lia) Hq2') as Hd2.
  lia.
Qed.

Lemma bounded_range m e :
  bounded prec emax m e = true →
  -1074 <= e <= 971 ∧ Z.pos m < 2 ^ 53.
Proof.
  unfold bounded, canonical_mantissa, fexp, emin, emax, prec.
  intros [Hc He]%andb_true_iff. apply Z.eqb_eq in Hc. apply Z.leb_le in He.
  split; [lia|].
  assert (Hd : Z.pos (digits2_pos m) <= 53) by lia.
  eapply Z.lt_le_trans; [apply Zdigits2_gt|].
  apply Z.pow_le_mono_r; lia.
Qed.

(** A third of a finite binary64 is a finite binary64. *)
Lemma fdiv_three_finite x :
  valid_binary prec emax x = true → is_finite x = true →
  is_finite (fdiv x three) = true.
Proof.
  destruct x as [s|s| |s m e]; try done.
  intros Hb _. simpl in Hb. apply bounded_range in Hb as [He Hm].
  change three with (S754_finite false 6755399441055744 (-51)).
  unfold fdiv, SFdiv, SFdiv_core_binary.
  change (Zdigits2 (Z.pos 6755399441055744)) with 53.
  set (d1 := Zdigits2 (Z.pos m)).
  assert (Hd1 : 0 <= d1) by (unfold d1; simpl; lia).
  assert (Hd1' : d1 <= 53).
  { apply Zdigits2_bound; [lia..|done]. }
  set (e' := Z.min (fexp prec emax (d1 + e - (53 + -51))) (e - -51)).
  assert (He' : -1074 <= e' <= 970 ∧ e' <= e + 51).
  { unfold e', fexp, emin, emax, prec. lia. }
  set (sh := e - -51 - e').
  assert (Hsh : 0 <= sh) by (unfold sh; lia).
  set (m' := match sh with
             | Z.pos _ => Z.shiftl (Z.pos m) sh
             | 0 => Z.pos m
             | Z.neg _ => 0
             end).
  assert (Hm' : m' = Z.pos m * 2 ^ sh).
  { unfold m'. destruct sh as [|p|p]; [change (2 ^ 0) with 1; lia| |lia].
    by rewrite Z.shiftl_mul_pow2. }
  destruct (Z.div_eucl m' (Z.pos 6755399441055744)) as [q r] eqn:Hqr.
  assert (Hq : q = m' / 6755399441055744) by (unfold Z.div; by rewrite Hqr).
  assert (H2s : 0 < 2 ^ sh) by (apply Z.pow_pos_nonneg; lia).
  assert (Hq0 : 0 <= q) by (subst q; apply Z.div_pos; lia).
  assert (Hqm : 6755399441055744 * q <= m') by (subst q; apply Z.mul_div_le; lia).
  apply binary_round_aux_finite; [done|lia|].
  apply Z.lt_le_trans with (2 ^ (sh + 1)).
  - rewrite Z.pow_add_r by lia. change (2 ^ 1) with 2.
    change (2 ^ 53) with 9007199254740992 in Hm. nia.
  - apply Z.pow_le_mono_r; [lia|]. unfold sh. lia.
Qed.

(** The literals as binary64, and rounding on ties. *)
Example literals :
  three = S754_finite false 6755399441055744 (-51)
  ∧ mm_per_inch = S754_finite false 7149464408450662 (-48)
  ∧ points_per_inch = S754_finite false 5066549580791808 (-46)
  ∧ float_of_decimal false 1 1 = S754_finite false 7205759403792794 (-56)
  ∧ py_round (float_of_decimal false 25 1) = Ok 2
  ∧ py_round (float_of_decimal false 35 1) = Ok 4
  ∧ py_round (float_of_decimal true 5 1) = Ok 0
  ∧ format_2f (float_of_decimal false 125 3) = "0.12"
  ∧ format_2f (float_of_decimal false 375 3) = "0.38"
  ∧ format_2f (float_of_decimal true 1 3) = "-0.00".
Proof. by vm_compute. Qed.

Lemma py_round_finite x : is_finite x = true → ∃ r, py_round x = Ok r.
Proof. destruct x; try done; simpl; eauto. Qed.

Lemma positive_not_le x : SFltb zero x = true → SFleb x zero = false.
Proof. by destruct x as [s|[]| |[] m e]. Qed.

(** ** The feed policy encoder *)

Lemma feed_options_nonpositive x :
  SFleb x zero = true → _feed_options x = Ok {[ "FeedWhere" := PStr "None" ]}.
Proof. intros Hx. unfold _feed_options. by rewrite Hx. Qed.

Lemma feed_options_positive x r :
  SFltb zero x = true → py_round (fdiv x three) = Ok r →
  _feed_options x =
    Ok {[ "FeedWhere" := PStr "AfterJob";
          "FeedDist" := PStr (str_of_int (Z.max 1 (Z.min 15 r) - 1) +:+ "feed"
                              +:+ str_of_int (Z.max 1 (Z.min 15 r) * 3) +:+ "mm") ]}.
Proof.
  intros Hx Hr. unfold _feed_options.
  by rewrite (positive_not_le x Hx), Hr.
Qed.

(** C1 as stated fails at an infinite distance: it is greater than zero and
    the encoder raises instead of returning a mapping. *)
Lemma feed_options_infinity :
  SFltb zero (S754_infinity false) = true
  ∧ _feed_options (S754_infinity false)
    = Raise (Exn OverflowError "cannot convert float infinity to integer").
Proof. split; reflexivity. Qed.

(** C1, amended to finite distances: a binary64 that is at most zero gives
    [{FeedWhere: "None"}] alone; a finite one above zero gives
    [{FeedWhere: "AfterJob", FeedDist: "<steps-1>feed<3*steps>mm"}] where
    [steps] is [round(x / 3.0)] clamped to 1..15; and 0, 7 and 100 give the
    three mappings of the specification. *)
Theorem feed_options_finite (x : float) :
  valid_binary prec emax x = true →
  (SFleb x zero = true →
     _feed_options x = Ok {[ "FeedWhere" := PStr "None" ]})
  ∧ (is_finite x = true → SFltb zero x = true →
     ∃ r steps,
       py_round (fdiv x three) = Ok r
       ∧ steps = Z.max 1 (Z.min 15 r) ∧ 1 <= steps <= 15
       ∧ _feed_options x =
           Ok {[ "FeedWhere" := PStr "AfterJob";
                 "FeedDist" := PStr (str_of_int (steps - 1) +:+ "feed"
                                     +:+ str_of_int (steps * 3) +:+ "mm") ]})
  ∧ _feed_options (float_of_decimal false 0 0) = Ok {[ "FeedWhere" := PStr "None" ]}
  ∧ _feed_options (float_of_decimal false 7 0)
    = Ok {[ "FeedWhere" := PStr "AfterJob"; "FeedDist" := PStr "1feed6mm" ]}
  ∧ _feed_options (float_of_decimal false 100 0)
    = Ok {[ "FeedWhere" := PStr "AfterJob"; "FeedDist" := PStr "14feed45mm" ]}.
Proof.
  intros Hvalid. split; [apply feed_options_nonpositive|].
  split; [|by vm_compute].
  intros Hfin Hpos.
  destruct (py_round_finite _ (fdiv_three_finite x Hvalid Hfin)) as [r Hr].
  exists r, (Z.max 1 (Z.min 15 r)). split; [done|]. split; [done|].
  split; [lia|]. by apply feed_options_positive.
Qed.

Lemma feed_options_finite_witness :
  ∃ r steps,
    py_round (fdiv (float_of_decimal false 7 0) three) = Ok r
    ∧ steps = Z.max 1 (Z.min 15 r) ∧ 1 <= steps <= 15
    ∧ _feed_options (float_of_decimal false 7 0) =
        Ok {[ "FeedWhere" := PStr "AfterJob";
              "FeedDist" := PStr (str_of_int (steps - 1) +:+ "feed"
                                  +:+ str_of_int (steps * 3) +:+ "mm") ]}.
Proof.
  destruct (feed_options_finite (float_of_decimal false 7 0)) as (_ & H & _).
  - reflexivity.
  - apply H; reflexivity.
Defined.

(** ** The integer pattern *)

Lemma star_class_at_end {A} `{EqDecision A} (p : A → bool) fuel s caps :
  (length s <= fuel)%nat →
  star_loop (rmatch (Class p)) at_end fuel s caps
  = if forallb p s then Some () else None.
Proof.
  revert s. induction fuel as [|fuel IH]; intros s Hlen.
  - destruct s; [done|simpl in Hlen; lia].
  - destruct s as [|c s]; [done|].
    simpl. destruct (p c); [|done].
    rewrite (proj2 (Nat.ltb_lt _ _)) by lia.
    rewrite IH by (simpl in Hlen; lia).
    by destruct (forallb p s).
Qed.

Lemma plus_class_at_end {A} `{EqDecision A} (p : A → bool) s caps :
  rmatch (plus (Class p)) s caps at_end
  = match s with
    | [] => None
    | _ :: _ => if forallb p s then Some () else None
    end.
Proof.
  destruct s as [|c s]; [done|]. simpl. destruct (p c); [|done].
  by apply star_class_at_end.
Qed.

Lemma forallb_isdigit s : forallb isdigit (list_ascii_of_string s) = all_digits s.
Proof. induction s as [|c s IH]; simpl; [done|]. by rewrite IH. Qed.

Lemma fullmatch_INT_RE s :
  re_fullmatch INT_RE (list_ascii_of_string s) = spec_is_integer s.
Proof.
  unfold re_fullmatch, INT_RE.
  cbn [rmatch].
  change (fun s' caps' => rmatch (Class isdigit) s' caps'
            (fun s'0 caps'0 => rmatch (Star (Class isdigit)) s'0 caps'0 at_end))
    with (fun s' caps' => rmatch (plus (Class isdigit)) s' caps' (@at_end ascii)).
  destruct s as [|c s]; [done|].
  cbn [list_ascii_of_string].
  destruct (decide (c = "-"%char)) as [->|Hc].
  - rewrite !plus_class_at_end. cbn [spec_is_integer].
    destruct s as [|d s]; [done|].
    cbn [list_ascii_of_string negb String.eqb andb].
    rewrite <- forallb_isdigit. cbn [list_ascii_of_string].
    destruct (forallb isdigit (d :: list_ascii_of_string s)); [done|].
    done.
  - rewrite plus_class_at_end.
    assert (spec_is_integer (String c s) = all_digits (String c s)) as ->.
    { unfold spec_is_integer.
      destruct c as [[] [] [] [] [] [] [] []]; try done. }
    rewrite <- (forallb_isdigit (String c s)). cbn [list_ascii_of_string].
    by destruct (forallb isdigit (c :: list_ascii_of_string s)).
Qed.

(** ** The job option parser *)

Lemma integer_is_lower s : spec_is_integer s = true → lower s = s.
Proof.
  assert (Hd : ∀ t, all_digits t = true → lower t = t).
  { induction t as [|c t IH]; [done|]. cbn [all_digits lower].
    intros [Hc Ht]%andb_true_iff. rewrite (IH Ht). f_equal.
    destruct c as [[] [] [] [] [] [] [] []]; done. }
  destruct s as [|c s]; [done|].
  destruct (decide (c = "-"%char)) as [->|Hc].
  - cbn [spec_is_integer lower]. intros [_ Hs]%andb_true_iff.
    by rewrite (Hd s Hs).
  - intros Hs. apply Hd.
    assert (spec_is_integer (String c s) = all_digits (String c s)) as <-; [|done].
    unfold spec_is_integer. destruct c as [[] [] [] [] [] [] [] []]; done.
Qed.

Lemma integer_is_no_boolean s :
  spec_is_integer s = true →
  String.eqb (lower s) "true" = false ∧ String.eqb (lower s) "false" = false.
Proof.
  intros Hs. rewrite (integer_is_lower s Hs).
  destruct s as [|c s]; [done|].
  destruct (decide (c = "-"%char)) as [->|Hc]; [done|].
  assert (Hc' : isdigit c = true).
  { assert (spec_is_integer (String c s) = all_digits (String c s)) as Heq.
    { unfold spec_is_integer. destruct c as [[] [] [] [] [] [] [] []]; done. }
    rewrite Heq in Hs. cbn [all_digits] in Hs. by apply andb_true_iff in Hs as [? _]. }
  cbn [String.eqb].
  destruct (Ascii.eqb c "t") eqn:Ht; [apply Ascii.eqb_eq in Ht as ->; done|].
  destruct (Ascii.eqb c "f") eqn:Hf; [apply Ascii.eqb_eq in Hf as ->; done|].
  done.
Qed.

Lemma parsed_value_spec value :
  parsed_value value
  = if oversized value then Raise (int_limit_error (digit_count value))
    else Ok (spec_typed_value value).
Proof.
  unfold parsed_value, spec_typed_value, oversized, py_int.
  rewrite fullmatch_INT_RE.
  destruct (spec_is_integer value) eqn:Hint.
  - destruct (integer_is_no_boolean value Hint) as [-> ->].
    cbn [andb]. by destruct (INT_MAX_STR_DIGITS <? digit_count value).
  - cbn [andb].
    by destruct (String.eqb (lower value) "true"), (String.eqb (lower value) "false").
Qed.

Lemma contains_empty sep : contains sep "" = false.
Proof. done. Qed.

Lemma parse_token_spec st token :
  parse_token st token =
    match st.1 with
    | Raise _ => st
    | Ok result =>
        if token_oversized token then (Raise (token_error token), st.2)
        else (Ok (spec_step (result, st.2) token).1, (spec_step (result, st.2) token).2)
    end.
Proof.
  unfold parse_token, spec_step, token_oversized, token_error, spec_binding.
  destruct st as [[result|e] t]; [|done]. cbn [fst snd].
  destruct (String.eqb token "") eqn:Hempty.
  - apply String.eqb_eq in Hempty as ->. done.
  - destruct (contains "=" token); [|done]. cbn [orb negb].
    destruct (split1 "=" token) as [key value]. cbn [fst snd].
    destruct (String.eqb (strip key) ""); [done|].
    destruct (String.eqb (lower (strip value)) "none"); [done|].
    rewrite parsed_value_spec. by destruct (oversized (strip value)).
Qed.

Lemma raw_lines_spec text : raw_lines text = spec_tokens text.
Proof.
  unfold raw_lines, spec_tokens.
  induction (splitlines text) as [|line ls IH]; [done|].
  simpl. by rewrite IH.
Qed.

(** Once an exception is raised the loop is left. *)
Lemma parse_fold_raise tokens e (t : gmap string IppTag) :
  fold_left parse_token tokens (Raise e, t) = (Raise e, t).
Proof. induction tokens as [|token tokens IH]; [done|]. simpl. apply IH. Qed.

(** The loop is the run of [spec_step] over the tokens in front of the
    first value that [int] does not convert. *)
Lemma parse_fold_steps tokens (m : gmap string pyobj) (t : gmap string IppTag) :
  fold_left parse_token tokens (Ok m, t)
  = (match first_oversized tokens with
     | None => Ok (fold_left spec_step (accepted tokens) (m, t)).1
     | Some token => Raise (token_error token)
     end,
     (fold_left spec_step (accepted tokens) (m, t)).2).
Proof.
  revert m t. induction tokens as [|token tokens IH]; intros m t; [done|].
  cbn [fold_left accepted]. rewrite parse_token_spec. cbn [fst snd].
  unfold first_oversized. rewrite filter_cons.
  destruct (token_oversized token) eqn:Hover.
  - rewrite decide_True by done. cbn [head fold_left]. apply parse_fold_raise.
  - rewrite decide_False by done. cbn [fold_left].
    destruct (spec_step (m, t) token) as [m' t'] eqn:Hstep. cbn [fst snd].
    apply IH.
Qed.

Lemma accepted_all tokens : first_oversized tokens = None → accepted tokens = tokens.
Proof.
  unfold first_oversized. induction tokens as [|token tokens IH]; [done|].
  rewrite filter_cons. cbn [accepted].
  destruct (token_oversized token); [by rewrite decide_True|].
  rewrite decide_False by done. intros Hrest. by rewrite IH.
Qed.

Lemma steps_result tokens (m : gmap string pyobj) (t : gmap string IppTag) :
  (fold_left spec_step tokens (m, t)).1
  = list_to_map (reverse (omap spec_binding tokens)) ∪ m.
Proof.
  revert m t. induction tokens as [|token tokens IH]; intros m t.
  - simpl. by rewrite (left_id_L ∅ (∪)).
  - simpl. unfold spec_step at 2.
    destruct (spec_binding token) as [[key v]|]; [|apply IH].
    cbn [fst snd].
    rewrite IH. rewrite reverse_cons, list_to_map_app. simpl.
    rewrite <- (assoc_L (∪)). f_equal.
    rewrite insert_empty. by rewrite <- insert_union_singleton_l.
Qed.

Lemma setdefault_lookup key tag (t : gmap string IppTag) k :
  setdefault key tag t !! k =
    match t !! k with
    | Some x => Some x
    | None => if decide (key = k) then Some tag else None
    end.
Proof.
  unfold setdefault. destruct (t !! key) eqn:Hkey.
  - destruct (t !! k) eqn:Hk; [done|]. case_decide; [congruence|done].
  - destruct (decide (key = k)) as [->|Hne].
    + by rewrite lookup_insert_eq, Hkey.
    + rewrite lookup_insert_ne by done. by destruct (t !! k).
Qed.

Lemma setdefault_keeps key tag (t : gmap string IppTag) k x :
  t !! k = Some x → setdefault key tag t !! k = Some x.
Proof. intros Hk. by rewrite setdefault_lookup, Hk. Qed.

(** What a run of steps does to the tag table: an entry stays as it is,
    or is new, tagged [KEYWORD] and the key of a parsed option. *)
Lemma steps_tags tokens (m : gmap string pyobj) (t : gmap string IppTag) :
  let r := fold_left spec_step tokens (m, t) in
  (∀ k, r.2 !! k = t !! k
        ∨ (t !! k = None ∧ r.2 !! k = Some KEYWORD ∧ is_Some (r.1 !! k)))
  ∧ (∀ k, is_Some (r.1 !! k) → is_Some (m !! k) ∨ is_Some (r.2 !! k))
  ∧ (∀ k, is_Some (m !! k) → is_Some (r.1 !! k)).
Proof.
  revert m t. induction tokens as [|token tokens IH]; intros m t; simpl.
  - split; [by left|]. split; [by left|done].
  - unfold spec_step at 2 4 6 8 10 12.
    destruct (spec_binding token) as [[key v]|]; [|apply IH].
    destruct (IH (<[key := v]> m) (setdefault key KEYWORD t)) as (H1 & H2 & H3).
    simpl in *.
    set (r := fold_left spec_step tokens (<[key := v]> m, setdefault key KEYWORD t)) in *.
    assert (Hkey : is_Some (r.1 !! key)).
    { apply H3. rewrite lookup_insert_eq. eauto. }
    split; [|split].
    + intros k. pose proof (H1 k) as Hk. rewrite setdefault_lookup in Hk.
      destruct (t !! k) eqn:Htk.
      * destruct Hk as [Heq|(Hn & _)]; [by left|done].
      * destruct (decide (key = k)) as [->|Hne].
        -- right. destruct Hk as [Heq|(Hn & _)]; done.
        -- destruct Hk as [Heq|(Hn & Hkw & Hs)]; [by left|by right].
    + intros k Hk. destruct (H2 k Hk) as [Hm|Ht]; [|by right].
      destruct (decide (key = k)) as [->|Hne].
      * right. destruct (H1 k) as [Heq|(_ & -> & _)]; [|eauto].
        rewrite Heq, setdefault_lookup. destruct (t !! k); [eauto|].
        rewrite decide_True by done. eauto.
      * left. by rewrite lookup_insert_ne in Hm.
    + intros k Hk. apply H3.
      destruct (decide (key = k)) as [->|Hne].
      * rewrite lookup_insert_eq. eauto.
      * by rewrite lookup_insert_ne.
Qed.

(** The parser, in one equation: the mapping of the grammar unless a value
    is too long for [int], and the tag table after the tokens in front of
    the first such value. *)
Lemma parse_job_options_steps text tags :
  _parse_job_options text tags
  = (match first_oversized (spec_tokens text) with
     | None => Ok (spec_parse text)
     | Some token => Raise (token_error token)
     end,
     (fold_left spec_step (accepted (spec_tokens text)) (∅, tags)).2).
Proof.
  unfold _parse_job_options, spec_parse.
  destruct (String.eqb text "") eqn:Hempty.
  - apply String.eqb_eq in Hempty as ->. done.
  - rewrite parse_fold_steps, raw_lines_spec.
    destruct (first_oversized (spec_tokens text)) eqn:Hfirst; [done|].
    rewrite (accepted_all _ Hfirst), steps_result. by rewrite (right_id_L ∅ (∪)).
Qed.

Lemma parse_job_options_result text tags parsed :
  (_parse_job_options text tags).1 = Ok parsed → parsed = spec_parse text.
Proof.
  rewrite parse_job_options_steps. cbn [fst].
  destruct (first_oversized (spec_tokens text)); [done|]. by intros [= <-].
Qed.

Lemma parse_job_options_ok text tags :
  first_oversized (spec_tokens text) = None →
  (_parse_job_options text tags).1 = Ok (spec_parse text).
Proof. intros Hnone. by rewrite parse_job_options_steps, Hnone. Qed.

Lemma parse_job_options_registered text :
  first_oversized (spec_tokens text) = None → spec_registered text = spec_parse text.
Proof. intros Hnone. unfold spec_registered. by rewrite (accepted_all _ Hnone). Qed.

(** The tag table after a parse, entry by entry. *)
Lemma parse_job_options_tags text (tags : gmap string IppTag) k :
  (_parse_job_options text tags).2 !! k =
    match tags !! k with
    | Some tag => Some tag
    | None =>
        match spec_registered text !! k with
        | Some _ => Some KEYWORD
        | None => None
        end
    end.
Proof.
  rewrite parse_job_options_steps. cbn [snd]. unfold spec_registered.
  pose proof (steps_result (accepted (spec_tokens text)) ∅ tags) as Hres.
  rewrite (right_id_L ∅ (∪)) in Hres. rewrite <- Hres.
  destruct (steps_tags (accepted (spec_tokens text)) ∅ tags) as (H1 & H2 & _).
  set (r := fold_left spec_step (accepted (spec_tokens text)) (∅, tags)) in *.
  destruct (H1 k) as [Heq|(Hnone & Hkw & [v Hv])].
  + rewrite Heq. destruct (tags !! k) eqn:Htk; [done|].
    destruct (r.1 !! k) as [v|] eqn:Hv; [|done].
    destruct (H2 k (mk_is_Some _ _ Hv)) as [[? Hm]|[? Ht]]; [done|congruence].
  + by rewrite Hnone, Hkw, Hv.
Qed.

(** Two parses leave the same tag table in either order. *)
Lemma parse_job_options_tags_commute text1 text2 (tags : gmap string IppTag) :
  (_parse_job_options text2 (_parse_job_options text1 tags).2).2
  = (_parse_job_options text1 (_parse_job_options text2 tags).2).2.
Proof.
  apply map_eq. intros k. rewrite !parse_job_options_tags.
  destruct (tags !! k); [done|].
  by destruct (spec_registered text1 !! k), (spec_registered text2 !! k).
Qed.

(** ** The grammar in other words *)

Lemma lstrip_by_skip p s :
  lstrip_by p s = string_of_list_ascii (skip_while p (list_ascii_of_string s)).
Proof.
  induction s as [|c s IH]; [done|]. cbn [lstrip_by list_ascii_of_string skip_while].
  destruct (p c); [done|]. cbn [string_of_list_ascii].
  by rewrite string_of_list_ascii_of_string.
Qed.

Lemma skip_while_snoc p l c :
  skip_while p (l ++ [c])
  = match skip_while p l with
    | [] => if p c then [] else [c]
    | r => r ++ [c]
    end.
Proof.
  induction l as [|d l IH]; [done|]. cbn [app skip_while].
  destruct (p d); [apply IH|done].
Qed.

Lemma reverse_skip_cons p c l :
  reverse (skip_while p (reverse (c :: l)))
  = match reverse (skip_while p (reverse l)) with
    | [] => if p c then [] else [c]
    | r => c :: r
    end.
Proof.
  rewrite reverse_cons, skip_while_snoc.
  destruct (skip_while p (reverse l)) as [|d r] eqn:Hskip.
  - by destruct (p c).
  - rewrite reverse_app. change (reverse [c]) with [c]. cbn [app].
    rewrite reverse_cons. by destruct (reverse r).
Qed.

Lemma rstrip_by_skip p s :
  rstrip_by p s
  = string_of_list_ascii
      (reverse (skip_while p (reverse (list_ascii_of_string s)))).
Proof.
  induction s as [|c s IH]; [done|].
  cbn [rstrip_by list_ascii_of_string]. rewrite reverse_skip_cons, IH.
  destruct (reverse (skip_while p (reverse (list_ascii_of_string s)))) as [|d r];
    [|done].
  by destruct (p c).
Qed.

(** Taking white space off the two ends comes to the same in either
    order. *)
Lemma skip_both_ends p l :
  skip_while p (reverse (skip_while p (reverse l)))
  = reverse (skip_while p (reverse (skip_while p l))).
Proof.
  induction l as [|c l IH]; [done|].
  rewrite reverse_skip_cons. cbn [skip_while].
  destruct (p c) eqn:Hc.
  - rewrite <- IH. destruct (reverse (skip_while p (reverse l))) as [|d r]; [done|].
    cbn [skip_while]. by rewrite Hc.
  - rewrite reverse_skip_cons, Hc.
    destruct (reverse (skip_while p (reverse l))) as [|d r]; cbn [skip_while];
      by rewrite Hc.
Qed.

Lemma strip_trim s : strip s = spec_trim s.
Proof.
  unfold strip, spec_trim. rewrite lstrip_by_skip, rstrip_by_skip.
  rewrite list_ascii_of_string_of_list_ascii. by rewrite skip_both_ends.
Qed.

Lemma split_cut sep s : split sep s = cut_at (fun c => Ascii.eqb c sep) s.
Proof.
  induction s as [|c s IH]; [done|]. cbn [split cut_at]. by rewrite IH.
Qed.

Lemma cut_at_nonempty p s : cut_at p s ≠ [].
Proof.
  destruct s as [|c s]; [done|]. cbn [cut_at].
  destruct (p c); [done|]. by destruct (cut_at p s).
Qed.

Lemma without_empty_last_cons piece pieces :
  pieces ≠ [] →
  without_empty_last (piece :: pieces) = piece :: without_empty_last pieces.
Proof. by destruct pieces. Qed.

Lemma splitlines_from_skip s :
  splitlines_from true s
  = match s with
    | String "010" s' => splitlines_from false s'
    | _ => splitlines_from false s
    end.
Proof.
  destruct s as [|c s]; [done|]. cbn [splitlines_from andb].
  destruct (Ascii.eqb c "010") eqn:Hc.
  - by apply Ascii.eqb_eq in Hc as ->.
  - destruct c as [[] [] [] [] [] [] [] []]; done.
Qed.

Lemma crlf_to_lf_cons c s :
  crlf_to_lf (String c s)
  = match s with
    | String d s'' =>
        if Ascii.eqb c "013" && Ascii.eqb d "010"
        then String "010" (crlf_to_lf s'')
        else String c (crlf_to_lf s)
    | EmptyString => String c EmptyString
    end.
Proof. by destruct s. Qed.

Lemma crlf_to_lf_keep c s :
  Ascii.eqb c "013" = false ∨ (∀ s', s ≠ String "010" s') →
  crlf_to_lf (String c s) = String c (crlf_to_lf s).
Proof.
  intros Hc. rewrite crlf_to_lf_cons. destruct s as [|d s]; [done|].
  destruct (Ascii.eqb c "013") eqn:Hcr; [|done].
  destruct (Ascii.eqb d "010") eqn:Hlf; [|done].
  apply Ascii.eqb_eq in Hlf as ->. destruct Hc as [?|Hc]; [done|].
  by destruct (Hc s).
Qed.

Lemma lines_break c s :
  is_linebreak c = true →
  Ascii.eqb c "013" = false ∨ (∀ s', s ≠ String "010" s') →
  spec_lines (String c s) = "" :: spec_lines s.
Proof.
  intros Hbreak Hc. unfold spec_lines. rewrite (crlf_to_lf_keep c s Hc).
  cbn [cut_at]. rewrite Hbreak. apply without_empty_last_cons, cut_at_nonempty.
Qed.

Lemma lines_crlf s : spec_lines (String "013" (String "010" s)) = "" :: spec_lines s.
Proof.
  unfold spec_lines. rewrite crlf_to_lf_cons.
  change (Ascii.eqb "013" "013" && Ascii.eqb "010" "010") with true. cbv iota.
  cbn [cut_at]. change (is_linebreak "010") with true. cbv iota.
  apply without_empty_last_cons, cut_at_nonempty.
Qed.

Lemma lines_char c s :
  is_linebreak c = false →
  spec_lines (String c s)
  = match spec_lines s with
    | l :: ls => String c l :: ls
    | [] => [String c ""]
    end.
Proof.
  intros Hbreak. unfold spec_lines. rewrite crlf_to_lf_keep.
  - cbn [cut_at]. rewrite Hbreak.
    pose proof (cut_at_nonempty is_linebreak (crlf_to_lf s)) as Hne.
    destruct (cut_at is_linebreak (crlf_to_lf s)) as [|x xs]; [done|].
    destruct xs as [|y ys]; [|done].
    cbn [without_empty_last String.eqb]. by destruct x.
  - left. destruct (Ascii.eqb c "013") eqn:Hcr; [|done].
    by apply Ascii.eqb_eq in Hcr as ->.
Qed.

Lemma splitlines_lines s : splitlines s = spec_lines s.
Proof.
  unfold splitlines.
  induction s as [|c s IH]; [done|].
  cbn [splitlines_from andb].
  destruct (is_linebreak c) eqn:Hbreak.
  - destruct (Ascii.eqb c "013") eqn:Hcr.
    + apply Ascii.eqb_eq in Hcr as ->. rewrite splitlines_from_skip.
      destruct s as [|d s]; [done|].
      destruct (decide (d = "010"%char)) as [->|Hd].
      * rewrite lines_crlf. rewrite (lines_break "010" s) in IH by (done || by left).
        cbn [splitlines_from andb] in IH.
        change (is_linebreak "010") with true in IH. cbv iota in IH.
        change (Ascii.eqb "010" "013") with false in IH. by injection IH as ->.
      * rewrite lines_break by (done || right; congruence).
        rewrite <- IH. by destruct d as [[] [] [] [] [] [] [] []].
    + rewrite lines_break by (done || by left). by rewrite IH.
  - rewrite (lines_char c s Hbreak), IH. done.
Qed.

Lemma tokens_grammar text : spec_tokens text = grammar_tokens text.
Proof.
  unfold spec_tokens, grammar_tokens. rewrite splitlines_lines.
  induction (spec_lines text) as [|line ls IH]; [done|].
  cbn [mbind list_bind]. rewrite IH, split_cut. f_equal.
  induction (cut_at _ line) as [|x xs IHx]; [done|].
  cbn [fmap list_fmap]. by rewrite strip_trim, IHx.
Qed.

Lemma join_equals_cons piece pieces :
  pieces ≠ [] →
  join_equals (piece :: pieces) = piece +:+ String "=" (join_equals pieces).
Proof. by destruct pieces. Qed.

Lemma join_cut s : join_equals (cut_at (fun c => Ascii.eqb c "=") s) = s.
Proof.
  induction s as [|c s IH]; [done|]. cbn [cut_at].
  pose proof (cut_at_nonempty (fun c => Ascii.eqb c "=") s) as Hne.
  destruct (Ascii.eqb c "=") eqn:Hc.
  - apply Ascii.eqb_eq in Hc as ->.
    rewrite join_equals_cons by done. by rewrite IH, append_empty_l.
  - destruct (cut_at _ s) as [|x xs]; [done|].
    destruct xs as [|y ys].
    + cbn [join_equals] in *. by rewrite IH.
    + rewrite join_equals_cons by done. rewrite join_equals_cons in IH by done.
      by rewrite append_cons, IH.
Qed.

Lemma key_value_split1 token :
  spec_key_value token
  = if contains "=" token then Some (split1 "=" token) else None.
Proof.
  unfold spec_key_value.
  induction token as [|c s IH]; [done|]. cbn [cut_at contains split1].
  pose proof (cut_at_nonempty (fun c => Ascii.eqb c "=") s) as Hne.
  pose proof (join_cut s) as Hjoin.
  destruct (Ascii.eqb c "=") eqn:Hc.
  - destruct (cut_at _ s) as [|x xs]; [done|]. by rewrite Hjoin.
  - destruct (cut_at _ s) as [|x xs]; [done|].
    destruct xs as [|y ys].
    + by destruct (contains "=" s).
    + destruct (contains "=" s); [|done].
      destruct (split1 "=" s) as [k v]. by injection IH as <- <-.
Qed.

Lemma grammar_entry_split1 token :
  grammar_entry token
  = if contains "=" token then
      let key := strip (split1 "=" token).1 in
      let value := strip (split1 "=" token).2 in
      if String.eqb key "" then None
      else if String.eqb (lower value) "none" then None
      else Some (key, value)
    else None.
Proof.
  unfold grammar_entry. rewrite key_value_split1.
  destruct (contains "=" token); [|done].
  destruct (split1 "=" token) as [k v]. cbn [fst snd]. by rewrite !strip_trim.
Qed.

Lemma binding_entry token :
  spec_binding token = prod_map id spec_typed_value <$> grammar_entry token.
Proof.
  rewrite grammar_entry_split1. unfold spec_binding.
  destruct (contains "=" token); [|done]. cbv zeta.
  destruct (String.eqb (strip _) ""); [done|].
  by destruct (String.eqb (lower _) "none").
Qed.

Lemma token_oversized_entry token :
  token_oversized token
  = match grammar_entry token with
    | Some entry => oversized entry.2
    | None => false
    end.
Proof.
  unfold token_oversized. rewrite binding_entry, grammar_entry_split1.
  destruct (contains "=" token); [|done]. cbv zeta.
  destruct (String.eqb (strip _) ""); [done|].
  by destruct (String.eqb (lower _) "none").
Qed.

Lemma token_error_entry token key value :
  grammar_entry token = Some (key, value) →
  token_error token = int_limit_error (digit_count value).
Proof.
  rewrite grammar_entry_split1. unfold token_error.
  destruct (contains "=" token); [|done]. cbv zeta.
  destruct (String.eqb (strip _) ""); [done|].
  destruct (String.eqb (lower _) "none"); [done|]. by intros [= _ <-].
Qed.

Lemma bindings_entries (tokens : list string) :
  omap spec_binding tokens
  = prod_map id spec_typed_value <$> omap grammar_entry tokens.
Proof.
  induction tokens as [|token tokens IH]; [done|]. cbn [omap list_omap].
  rewrite binding_entry. destruct (grammar_entry token); cbn; by rewrite IH.
Qed.

Lemma parse_grammar text : spec_parse text = grammar_parse text.
Proof.
  unfold spec_parse, grammar_parse, grammar_entries.
  by rewrite bindings_entries, tokens_grammar.
Qed.

Lemma first_oversized_entries (tokens : list string) :
  match find (fun entry => oversized entry.2) (omap grammar_entry tokens) with
  | None => first_oversized tokens = None
  | Some (key, value) =>
      ∃ token, first_oversized tokens = Some token
               ∧ token_error token = int_limit_error (digit_count value)
  end.
Proof.
  unfold first_oversized.
  induction tokens as [|token tokens IH]; [done|].
  rewrite filter_cons, token_oversized_entry. cbn [omap list_omap].
  destruct (grammar_entry token) as [[key value]|] eqn:Hentry.
  - cbn [find snd]. destruct (oversized value) eqn:Hover.
    + rewrite decide_True by done. exists token. split; [done|].
      by apply (token_error_entry token key).
    + by rewrite decide_False by done.
  - by rewrite decide_False by done.
Qed.

Lemma parse_job_options_grammar text tags :
  (_parse_job_options text tags).1
  = match grammar_oversized text with
    | None => Ok (grammar_parse text)
    | Some (_, value) => Raise (int_limit_error (digit_count value))
    end.
Proof.
  rewrite parse_job_options_steps. cbn [fst]. unfold grammar_oversized, grammar_entries.
  pose proof (first_oversized_entries (spec_tokens text)) as Hfirst.
  rewrite tokens_grammar in *.
  destruct (find _ _) as [[key value]|].
  - by destruct Hfirst as (token & -> & ->).
  - by rewrite Hfirst, parse_grammar.
Qed.

(** ** The parser against the grammar *)

(** A token with the value [none] is passed over: it does not take back an
    earlier token of its key. *)
Example parse_none_after_value :
  spec_parse "a=1,a=none" = {[ "a" := PInt 1 ]}
  ∧ spec_parse "a=none,a=1" = {[ "a" := PInt 1 ]}
  ∧ spec_parse "a=1,a=2" = {[ "a" := PInt 2 ]}.
Proof. by vm_compute. Qed.

(** C2: unless a value is an integer of more than 4300 digits, the parser
    returns the mapping the grammar of the specification describes (lines,
    commas, trimmed tokens; tokens without [=], with an empty key or with
    the value [none] left out; values typed as boolean, then integer, then
    text; later tokens overwriting earlier ones), whatever the tag table;
    at the first value that is such an integer [int] raises [ValueError]
    and no mapping is returned.  With the worked examples, and one with
    white space and line boundaries of every kind. *)
Theorem parse_job_options_spec (text : string) (tags : gmap string IppTag) :
  (_parse_job_options text tags).1
  = match grammar_oversized text with
    | None => Ok (grammar_parse text)
    | Some (_, value) => Raise (int_limit_error (digit_count value))
    end
  ∧ (_parse_job_options "a=1,b=true,c=none,d=x=y" tags).1
    = Ok {[ "a" := PInt 1; "b" := PBool true; "d" := PStr "x=y" ]}
  ∧ (_parse_job_options "key=TRUE" tags).1 = Ok {[ "key" := PBool true ]}
  ∧ (_parse_job_options "key=true" tags).1 = Ok {[ "key" := PBool true ]}
  ∧ (_parse_job_options spaced_options tags).1
    = Ok {[ "a" := PInt 1; "b" := PBool true; "c" := PStr "x y";
            "d" := PInt (-7); "e" := PStr "f"; "h" := PStr "=";
            "j" := PInt 1; "k" := PInt 2; "l" := PBool false ]}
  ∧ (_parse_job_options ("b=2,a=" +:+ long_number +:+ ",c=3") tags).1
    = Raise (Exn ValueError
        "Exceeds the limit (4300 digits) for integer string conversion: value has 4301 digits; use sys.set_int_max_str_digits() to increase the limit").
Proof.
  rewrite !parse_job_options_grammar. split; [done|]. by vm_compute.
Qed.

Lemma parse_job_options_spec_witness :
  (_parse_job_options " a = 07 , b = No " ∅).1
  = Ok {[ "a" := PInt 7; "b" := PStr "No" ]}.
Proof.
  destruct (parse_job_options_spec " a = 07 , b = No " ∅) as [-> _].
  by vm_compute.
Defined.

(** C2, the claim as it was worded: a value of 4301 digits is an integer
    by the grammar, and the parser raises instead of returning it. *)
Lemma parse_job_options_long_integer :
  spec_is_integer long_number = true
  ∧ grammar_parse ("a=" +:+ long_number)
    = {[ "a" := PInt (int_of_numeral long_number) ]}
  ∧ (_parse_job_options ("a=" +:+ long_number) ∅).1
    = Raise (int_limit_error 4301).
Proof.
  split; [by vm_compute|]. split; [by vm_compute|].
  rewrite parse_job_options_grammar. by vm_compute.
Qed.

(** C7: the parser tags every parsed key that the table lacks as
    [KEYWORD], and leaves every entry of the table as it was, also when it
    raises: an entry of the table after the call is one of before, or new
    and tagged [KEYWORD]; so does the seeding at import. *)
Theorem parse_job_options_registers (text : string) (tags : gmap string IppTag) :
  let r := _parse_job_options text tags in
  (∀ parsed k, r.1 = Ok parsed → is_Some (parsed !! k) → tags !! k = None →
               r.2 !! k = Some KEYWORD)
  ∧ (∀ k tag, tags !! k = Some tag → r.2 !! k = Some tag)
  ∧ (∀ k tag, tags !! k = Some tag → seed_tags tags !! k = Some tag)
  ∧ (∀ k, r.2 !! k = tags !! k ∨ (tags !! k = None ∧ r.2 !! k = Some KEYWORD)).
Proof.
  cbv zeta. split; [|split; [|split]].
  - intros parsed k Hok Hk Hnone. rewrite parse_job_options_tags, Hnone.
    rewrite parse_job_options_steps in Hok. cbn [fst] in Hok.
    destruct (first_oversized (spec_tokens text)) eqn:Hfirst; [done|].
    injection Hok as <-. rewrite (parse_job_options_registered _ Hfirst).
    by destruct Hk as [v ->].
  - intros k tag Hk. by rewrite parse_job_options_tags, Hk.
  - intros k tag Hk. unfold seed_tags. by do 4 apply setdefault_keeps.
  - intros k. rewrite parse_job_options_tags. destruct (tags !! k); [by left|].
    destruct (spec_registered text !! k); [by right|by left].
Qed.

Lemma parse_job_options_registers_witness :
  let tags : gmap string IppTag := {[ "copies" := INTEGER ]} in
  (_parse_job_options "copies=2,a=1" tags).2 !! "a" = Some KEYWORD
  ∧ (_parse_job_options "copies=2,a=1" tags).2 !! "copies" = Some INTEGER
  ∧ seed_tags tags !! "copies" = Some INTEGER.
Proof.
  intros tags.
  destruct (parse_job_options_registers "copies=2,a=1" tags) as (H1 & H2 & H3 & _).
  split; [|split].
  - eapply (H1 _ "a"); [vm_compute; reflexivity|eexists; vm_compute; reflexivity|reflexivity].
  - apply H2. reflexivity.
  - apply H3. reflexivity.
Defined.

(** ** Soundness of the matcher *)

Section Soundness.
Context {A : Type} `{EqDecision A} {X : Type}.
Implicit Types (r : regex A) (s w : list A) (caps c : list (list A))
  (k : list A → list (list A) → option X).

Lemma star_loop_sound body r :
  sound_matcher body r →
  ∀ fuel s caps k x, star_loop body k fuel s caps = Some x →
    ∃ w s' c, s = w ++ s' ∧ Match (Star r) w c ∧ k s' (caps ++ c) = Some x.
Proof.
  intros Hbody. induction fuel as [|fuel IH]; intros s caps k x; simpl.
  - intros Hk. exists [], s, []. rewrite app_nil_r. eauto using @Match.
  - destruct (body s caps _) as [y|] eqn:Hb.
    + intros [= ->]. apply Hbody in Hb as (w1 & s1 & c1 & -> & Hm1 & Hk).
      destruct (_ <? _)%nat; [|done].
      apply IH in Hk as (w2 & s2 & c2 & -> & Hm2 & Hk).
      exists (w1 ++ w2), s2, (c1 ++ c2).
      rewrite !(assoc_L (++)). eauto using @Match.
    + intros Hk. exists [], s, []. rewrite app_nil_r. eauto using @Match.
Qed.

Lemma rmatch_sound r : sound_matcher (X:=X) (rmatch r) r.
Proof.
  induction r as [a|p|r1 IH1 r2 IH2|r IH|r IH|r IH]; intros s caps k x; simpl.
  - destruct s as [|c s]; [done|]. case_decide; [subst c|done].
    intros Hk. exists [a], s, []. rewrite app_nil_r. eauto using @Match.
  - destruct s as [|c s]; [done|]. destruct (p c) eqn:Hp; [|done].
    intros Hk. exists [c], s, []. rewrite app_nil_r. eauto using @Match.
  - intros H1. apply IH1 in H1 as (w1 & s1 & c1 & -> & Hm1 & H2).
    apply IH2 in H2 as (w2 & s2 & c2 & -> & Hm2 & Hk).
    exists (w1 ++ w2), s2, (c1 ++ c2).
    rewrite !(assoc_L (++)). eauto using @Match.
  - destruct (rmatch r s caps k) as [y|] eqn:Hr.
    + intros [= ->]. apply IH in Hr as (w & s' & c & -> & Hm & Hk).
      exists w, s', c. eauto using @Match.
    + intros Hk. exists [], s, []. rewrite app_nil_r. eauto using @Match.
  - apply star_loop_sound, IH.
  - intros Hr. apply IH in Hr as (w & s' & c & -> & Hm & Hk).
    rewrite length_app, Nat.add_sub, take_app_length in Hk.
    exists w, s', (c ++ [w]). rewrite (assoc_L (++)). eauto using @Match.
Qed.

Lemma Match_group_free r w c : Match r w c → group_free r = true → c = [].
Proof.
  induction 1; simpl; try done.
  - intros [H1 H2]%andb_true_iff. by rewrite IHMatch1, IHMatch2.
  - intros Hr. by rewrite IHMatch1, IHMatch2.
Qed.

End Soundness.

Lemma re_search_sound {A} `{EqDecision A} (r : regex A) s caps :
  re_search r s = Some caps → ∃ w, Match r w caps.
Proof.
  induction s as [|a s IH]; simpl.
  - destruct (rmatch r [] [] _) as [c|] eqn:Hr; [|done].
    intros [= ->]. apply rmatch_sound in Hr as (w & s' & c' & _ & Hm & [= <-]). eauto.
  - destruct (rmatch r (a :: s) [] _) as [c|] eqn:Hr; [|done].
    intros [= ->]. apply rmatch_sound in Hr as (w & s' & c' & _ & Hm & [= <-]). eauto.
Qed.

Lemma Match_group_bodies {A} (r : regex A) w c bodies :
  Match r w c → group_bodies r = Some bodies →
  Forall2 (fun g body => Match body g []) c bodies.
Proof.
  intros Hm. revert bodies. induction Hm; intros bodies; simpl.
  - by intros [= <-].
  - by intros [= <-].
  - destruct (group_bodies r1) as [b1|]; [|done].
    destruct (group_bodies r2) as [b2|]; [|done].
    intros [= <-]. apply Forall2_app; auto.
  - destruct (group_free r); [|done]. by intros [= <-].
  - destruct (group_free r) eqn:Hg; [|done]. intros [= <-].
    by rewrite (Match_group_free _ _ _ Hm Hg).
  - destruct (group_free r); [|done]. by intros [= <-].
  - destruct (group_free r) eqn:Hg; [|done]. intros [= <-].
    rewrite (Match_group_free _ _ _ Hm1 Hg).
    by rewrite (Match_group_free (Star r) _ _ Hm2 Hg).
  - destruct (group_free r) eqn:Hg; [|done]. intros [= <-].
    pose proof (Match_group_free _ _ _ Hm Hg) as ->. simpl.
    by repeat constructor.
Qed.

Lemma Match_star_class {A} (p : A → bool) w c :
  Match (Star (Class p)) w c → forallb p w = true.
Proof.
  remember (Star (Class p)) as r eqn:Hr. induction 1; try done.
  injection Hr as ->. rewrite forallb_app, IHMatch2 by done.
  inversion H as [|? ? Hp| | | | | |]; subst. simpl. by rewrite Hp.
Qed.

Lemma Match_plus_class {A} (p : A → bool) w c :
  Match (plus (Class p)) w c →
  ∃ a w', w = a :: w' ∧ p a = true ∧ forallb p w' = true.
Proof.
  unfold plus. inversion 1 as [| |? ? w1 w2 c1 c2 H1 H2| | | | |]; subst.
  inversion H1 as [|? ? Hp| | | | | |]; subst. apply Match_star_class in H2. eauto.
Qed.

Lemma span_digits_app ds rest :
  forallb bdigit ds = true →
  match rest with [] => True | b :: _ => bdigit b = false end →
  span_digits (ds ++ rest) = (ds, rest).
Proof.
  intros Hds Hrest. induction ds as [|d ds IH]; cbn [app span_digits forallb] in *.
  - destruct rest as [|b rest]; [done|]. cbn [span_digits]. by rewrite Hrest.
  - apply andb_true_iff in Hds as [Hd Hds]. by rewrite Hd, IH.
Qed.

Lemma float_of_numeral_unsigned d w :
  bdigit d = true → float_of_numeral (d :: w) = float_of_digits false (d :: w).
Proof. by destruct d. Qed.

(** [float] accepts every text that [NUMBER_RE] matches. *)
Lemma number_float w c : Match NUMBER_RE w c → ∃ x, float_of_numeral w = Ok x.
Proof.
  unfold NUMBER_RE.
  inversion 1 as [| |? ? sgn w' c1 c' Hsgn Hrest| | | | |]; subst.
  inversion Hrest as [| |? ? ip fr c2 c3 Hip Hfr| | | | |]; subst.
  apply Match_plus_class in Hip as (d & ds & -> & Hd & Hds).
  assert (Hdd : forallb bdigit (d :: ds) = true) by (simpl; by rewrite Hd, Hds).
  assert (Hfrac : fr = [] ∨ ∃ f fs, fr = "."%byte :: f :: fs
                                     ∧ forallb bdigit (f :: fs) = true).
  { inversion Hfr as [| | |? |? ? ? Hf| | |]; subst; [by left|right].
    inversion Hf as [| |? ? w1 w2 c4 c5 Hdot Hfp| | | | |]; subst.
    inversion Hdot; subst.
    apply Match_plus_class in Hfp as (f & fs & -> & Hf1 & Hfs).
    exists f, fs. split; [done|]. simpl. by rewrite Hf1, Hfs. }
  assert (Hspan : span_digits ((d :: ds) ++ fr) = (d :: ds, fr)).
  { apply span_digits_app; [done|].
    destruct Hfrac as [->|(f & fs & -> & _)]; done. }
  assert (Hbody : ∀ neg, ∃ x, float_of_digits neg ((d :: ds) ++ fr) = Ok x).
  { intros neg. unfold float_of_digits. rewrite Hspan.
    destruct Hfrac as [->|(f & fs & -> & Hfs)]; [eauto|].
    pose proof (span_digits_app (f :: fs) [] Hfs I) as Hsp.
    rewrite app_nil_r in Hsp. rewrite Hsp. eauto. }
  inversion Hsgn as [| | |? |? ? ? Hminus| | |]; subst.
  - cbn [app]. rewrite (float_of_numeral_unsigned d _ Hd). apply (Hbody false).
  - inversion Hminus; subst. apply (Hbody true).
Qed.

(** The leftmost match is the one reported. *)
Example re_search_leftmost :
  re_search MEDIABOX_RE
    (list_byte_of_string "/MediaBox [0 0 1 1.5] /MediaBox[ -2 0 3 4 ]")
  = Some (list_byte_of_string <$> ["0"; "0"; "1"; "1.5"])
  ∧ re_search MEDIABOX_RE (list_byte_of_string "/MediaBox [0 0 1. 1]") = None.
Proof. by vm_compute. Qed.

(** Every match of [MEDIABOX_RE] has four groups, each a number. *)
Lemma mediabox_groups_are_numbers payload groups :
  re_search MEDIABOX_RE payload = Some groups →
  ∃ g1 g2 g3 g4 x1 y1 x2 y2,
    groups = [g1; g2; g3; g4]
    ∧ float_of_numeral g1 = Ok x1 ∧ float_of_numeral g2 = Ok y1
    ∧ float_of_numeral g3 = Ok x2 ∧ float_of_numeral g4 = Ok y2.
Proof.
  intros [w Hm]%re_search_sound.
  apply (Match_group_bodies _ _ _ [NUMBER_RE; NUMBER_RE; NUMBER_RE; NUMBER_RE]) in Hm;
    [|reflexivity].
  inversion Hm as [|g1 ? l1 ? H1 Hm1]; subst.
  inversion Hm1 as [|g2 ? l2 ? H2 Hm2]; subst.
  inversion Hm2 as [|g3 ? l3 ? H3 Hm3]; subst.
  inversion Hm3 as [|g4 ? l4 ? H4 Hm4]; subst.
  inversion Hm4; subst.
  apply number_float in H1 as [x1 ?], H2 as [y1 ?], H3 as [x2 ?], H4 as [y2 ?].
  by exists g1, g2, g3, g4, x1, y1, x2, y2.
Qed.

(** ** Formatting millimetres *)

Lemma rstrip_by_app_nonempty p a b :
  rstrip_by p b ≠ "" → rstrip_by p (a +:+ b) = a +:+ rstrip_by p b.
Proof. intros Hb. rewrite rstrip_by_app. by destruct (rstrip_by p b). Qed.

Lemma rstrip_by_app_empty p a b :
  rstrip_by p b = "" → rstrip_by p (a +:+ b) = rstrip_by p a.
Proof. intros Hb. by rewrite rstrip_by_app, Hb. Qed.

Lemma append_nonempty_l (a b : string) : a ≠ "" → a +:+ b ≠ "".
Proof. by destruct a. Qed.

Lemma append_nonempty_r (a b : string) : b ≠ "" → a +:+ b ≠ "".
Proof. destruct a; [done|]. by rewrite append_cons. Qed.

(** A property of every number below [bound], checked one by one. *)
Lemma forall_below (check : Z → bool) (bound : nat) :
  forallb check (Z.of_nat <$> seq 0 bound) = true →
  ∀ n, 0 <= n < Z.of_nat bound → check n = true.
Proof.
  intros Hall n Hn. rewrite forallb_forall in Hall. apply Hall.
  apply in_map_iff. exists (Z.to_nat n). split; [lia|].
  apply in_seq. lia.
Qed.

Lemma digit_char_isdigit d : 0 <= d < 10 → isdigit (digit_char d) = true.
Proof. apply (forall_below (fun d => isdigit (digit_char d)) 10). by vm_compute. Qed.

Lemma isdigit_not_dot c : isdigit c = true → Ascii.eqb "." c = false.
Proof. by destruct c as [[] [] [] [] [] [] [] []]. Qed.

Lemma all_digits_no_dot s : all_digits s = true → none_of (Ascii.eqb ".") s = true.
Proof.
  induction s as [|c s IH]; cbn [all_digits none_of]; [done|].
  intros [Hc Hs]%andb_true_iff. by rewrite (isdigit_not_dot c Hc), IH.
Qed.

Lemma digits_from_digits fuel n acc :
  all_digits acc = true → all_digits (digits_from fuel n acc) = true.
Proof.
  revert n acc. induction fuel as [|fuel IH]; intros n acc Hacc;
    cbn [digits_from].
  - cbn [all_digits]. rewrite digit_char_isdigit; [done|].
    apply Z.mod_pos_bound. lia.
  - assert (Hacc' : all_digits (String (digit_char (n mod 10)) acc) = true).
    { cbn [all_digits]. rewrite digit_char_isdigit; [done|].
      apply Z.mod_pos_bound. lia. }
    destruct (n <? 10); [done|]. by apply IH.
Qed.

Lemma digits_from_nonempty fuel n acc : digits_from fuel n acc ≠ "".
Proof.
  revert n acc. induction fuel as [|fuel IH]; intros n acc; cbn [digits_from].
  - done.
  - destruct (n <? 10); [done|]. apply IH.
Qed.

Lemma str_of_nonneg_digits n : all_digits (str_of_nonneg n) = true.
Proof. by apply digits_from_digits. Qed.

Lemma str_of_nonneg_nonempty n : str_of_nonneg n ≠ "".
Proof. apply digits_from_nonempty. Qed.

(** What the two [rstrip] calls leave of the decimals. *)
Lemma strip_decimals f :
  0 <= f < 100 →
  rstrip_by (Ascii.eqb "0") (String "." (two_digits f)) ≠ ""
  ∧ rstrip_by (Ascii.eqb ".") (rstrip_by (Ascii.eqb "0") (String "." (two_digits f)))
    = spec_decimals f.
Proof.
  intros Hf.
  pose proof (forall_below (fun f =>
    negb (String.eqb (rstrip_by (Ascii.eqb "0") (String "." (two_digits f))) "")
    && String.eqb
         (rstrip_by (Ascii.eqb ".")
            (rstrip_by (Ascii.eqb "0") (String "." (two_digits f))))
         (spec_decimals f)) 100 ltac:(by vm_compute) f Hf) as Hc.
  apply andb_true_iff in Hc as [H1 H2]. split.
  - apply negb_true_iff in H1. by apply String.eqb_neq in H1.
  - by apply String.eqb_eq.
Qed.

Lemma strip_fixed2 neg h :
  rstrip_by (Ascii.eqb ".") (rstrip_by (Ascii.eqb "0") (fixed2 neg h))
  = sign_text neg +:+ str_of_nonneg (h / 100) +:+ spec_decimals (h mod 100).
Proof.
  unfold fixed2.
  set (D := str_of_nonneg (h / 100)).
  destruct (strip_decimals (h mod 100)) as [Hne Hdec];
    [apply Z.mod_pos_bound; lia|].
  change ("." +:+ two_digits (h mod 100)) with (String "." (two_digits (h mod 100))).
  set (B := String "." (two_digits (h mod 100))) in *.
  rewrite (rstrip_by_app_nonempty _ (sign_text neg));
    [|rewrite rstrip_by_app_nonempty by done; by apply append_nonempty_r].
  rewrite (rstrip_by_app_nonempty _ D) by done.
  assert (HD : rstrip_by (Ascii.eqb ".") D = D).
  { apply rstrip_by_none, all_digits_no_dot, str_of_nonneg_digits. }
  assert (Hinner : rstrip_by (Ascii.eqb ".") (D +:+ rstrip_by (Ascii.eqb "0") B)
                   = D +:+ spec_decimals (h mod 100)).
  { destruct (spec_decimals (h mod 100)) as [|c r] eqn:Hsd.
    - rewrite rstrip_by_app_empty by done. by rewrite HD, append_empty_r.
    - rewrite rstrip_by_app_nonempty by (by rewrite Hdec). by rewrite Hdec. }
  rewrite rstrip_by_app_nonempty; rewrite Hinner; [done|].
  apply append_nonempty_l, str_of_nonneg_nonempty.
Qed.

(** [_format_mm] on a number: the sign, the whole part, and the decimals
    without trailing zeros or a bare point. *)
Lemma format_mm_finite s m e :
  _format_mm (S754_finite s m e)
  = sign_text s +:+ str_of_nonneg (round_half_even (Z.pos m * 100) e / 100)
    +:+ spec_decimals (round_half_even (Z.pos m * 100) e mod 100).
Proof.
  unfold _format_mm. cbn [format_2f]. rewrite strip_fixed2.
  destruct (String.eqb _ "") eqn:Hempty; [|done].
  apply String.eqb_eq in Hempty. exfalso. revert Hempty.
  apply append_nonempty_r, append_nonempty_l, str_of_nonneg_nonempty.
Qed.

Lemma format_mm_nonempty x : _format_mm x ≠ "".
Proof.
  unfold _format_mm. destruct (String.eqb _ "") eqn:Hempty; [done|].
  by apply String.eqb_neq.
Qed.

(** ** Writing and reading integers *)

Lemma digit_char_code d : 0 <= d < 10 → code (digit_char d) - 48 = d.
Proof.
  intros Hd.
  pose proof (forall_below (fun d => code (digit_char d) - 48 =? d) 10
                ltac:(by vm_compute) d Hd) as Hc.
  by apply Z.eqb_eq in Hc.
Qed.

(** [digits_from] puts its digits in front of [acc]. *)
Lemma digits_from_app fuel n acc :
  digits_from fuel n acc = digits_from fuel n "" +:+ acc.
Proof.
  revert n acc. induction fuel as [|fuel IH]; intros n acc; cbn [digits_from].
  - done.
  - destruct (n <? 10); [done|].
    rewrite (IH _ (String _ acc)), (IH _ (String _ "")).
    by rewrite append_assoc.
Qed.

Lemma digits_value_app a s t :
  digits_value a (s +:+ t) = digits_value (digits_value a s) t.
Proof.
  revert a. induction s as [|c s IH]; intros a; [done|].
  rewrite append_cons. cbn [digits_value]. apply IH.
Qed.

Lemma digits_value_digits_from fuel n :
  0 <= n < 10 ^ (Z.of_nat fuel + 1) →
  digits_value 0 (digits_from fuel n "") = n.
Proof.
  revert n. induction fuel as [|fuel IH]; intros n Hn; cbn [digits_from].
  - change (10 ^ (Z.of_nat 0 + 1)) with 10 in Hn.
    cbn [digits_value]. rewrite Z.mod_small by lia.
    rewrite digit_char_code by lia. lia.
  - destruct (n <? 10) eqn:Hlt.
    + apply Z.ltb_lt in Hlt. cbn [digits_value]. rewrite Z.mod_small by lia.
      rewrite digit_char_code by lia. lia.
    + apply Z.ltb_ge in Hlt.
      rewrite digits_from_app, digits_value_app, IH.
      * cbn [digits_value]. rewrite digit_char_code by (apply Z.mod_pos_bound; lia).
        pose proof (Z.div_mod n 10 ltac:(lia)). lia.
      * split; [apply Z.div_pos; lia|].
        apply Z.div_lt_upper_bound; [lia|].
        replace (Z.of_nat (S fuel) + 1) with (1 + (Z.of_nat fuel + 1)) in Hn by lia.
        rewrite Z.pow_add_r in Hn by lia. lia.
Qed.

Lemma str_of_nonneg_value n : 0 <= n → digits_value 0 (str_of_nonneg n) = n.
Proof.
  intros Hn. apply digits_value_digits_from. split; [done|].
  rewrite Z2Nat.id by apply Z.log2_nonneg.
  destruct (Z.eq_dec n 0) as [->|Hne]; [done|].
  apply Z.lt_le_trans with (2 ^ (Z.log2 n + 1)).
  - replace (Z.log2 n + 1) with (Z.succ (Z.log2 n)) by lia.
    apply Z.log2_spec. lia.
  - apply Z.pow_le_mono_l. lia.
Qed.

Lemma str_of_nonneg_head n c s : str_of_nonneg n = String c s → isdigit c = true.
Proof.
  intros Hs. pose proof (str_of_nonneg_digits n) as Hd. rewrite Hs in Hd.
  cbn [all_digits] in Hd. by apply andb_true_iff in Hd as [? _].
Qed.

(** [str] of an integer is a numeral of that integer. *)
Lemma int_of_numeral_str_of_int n :
  spec_is_integer (str_of_int n) = true ∧ int_of_numeral (str_of_int n) = n.
Proof.
  unfold str_of_int. destruct (n <? 0) eqn:Hn.
  - apply Z.ltb_lt in Hn. cbn [spec_is_integer int_of_numeral].
    rewrite str_of_nonneg_value by lia. split; [|lia].
    rewrite str_of_nonneg_digits.
    pose proof (str_of_nonneg_nonempty (- n)) as Hne.
    apply String.eqb_neq in Hne. by rewrite Hne.
  - apply Z.ltb_ge in Hn.
    pose proof (str_of_nonneg_digits n) as Hd.
    pose proof (str_of_nonneg_value n Hn) as Hv.
    destruct (str_of_nonneg n) as [|c s] eqn:Hs;
      [by destruct (str_of_nonneg_nonempty n)|].
    pose proof (str_of_nonneg_head n c s Hs) as Hc.
    unfold spec_is_integer, int_of_numeral.
    destruct c as [[] [] [] [] [] [] [] []]; try done.
Qed.

(** The fifteen distance keys of the feed encoder. *)
Example feed_distance_keys :
  (fun steps => str_of_int (steps - 1) +:+ "feed" +:+ str_of_int (steps * 3) +:+ "mm")
    <$> [1; 2; 3; 4; 5; 6; 7; 8; 9; 10; 11; 12; 13; 14; 15]
  = ["0feed3mm"; "1feed6mm"; "2feed9mm"; "3feed12mm"; "4feed15mm";
     "5feed18mm"; "6feed21mm"; "7feed24mm"; "8feed27mm"; "9feed30mm";
     "10feed33mm"; "11feed36mm"; "12feed39mm"; "13feed42mm"; "14feed45mm"].
Proof. by vm_compute. Qed.

(** ** The plugin on a host *)

Section Props.
Context `{Host}.

Lemma str_or_default_empty (s : string) : str_or_default (Some s) "" = s.
Proof.
  unfold str_or_default. destruct (String.eqb s "") eqn:E; [|done].
  by apply String.eqb_eq in E.
Qed.

Lemma eqb_false_ne (a b : string) : a ≠ b → String.eqb a b = false.
Proof. by intros ?%String.eqb_neq. Qed.

(** C3: the resolver trims the policy text; an empty result gives the empty
    identifier, [auto] in any letter case hands over to the inspection of
    the document, and any other text is returned trimmed and otherwise
    unchanged; with the two worked examples, for any document. *)
Theorem resolve_media_spec (policyText : string) (payload : pyobj) :
  let media := strip policyText in
  (media = "" → _resolve_media (Some policyText) payload = Ok "")
  ∧ (media ≠ "" → lower media = "auto" →
     _resolve_media (Some policyText) payload = _pdf_media_auto payload)
  ∧ (media ≠ "" → lower media ≠ "auto" →
     _resolve_media (Some policyText) payload = Ok media)
  ∧ _resolve_media (Some "") payload = Ok ""
  ∧ _resolve_media (Some "Custom.48x30mm") payload = Ok "Custom.48x30mm".
Proof.
  cbv zeta. unfold _resolve_media. rewrite str_or_default_empty.
  split; [|split; [|split]].
  - intros ->. done.
  - intros Hne Hauto. rewrite (eqb_false_ne _ _ Hne), Hauto. done.
  - intros Hne Hauto. by rewrite (eqb_false_ne _ _ Hne), (eqb_false_ne _ _ Hauto).
  - done.
Qed.

(** *** The payload normalizer *)



(** *** Assembly *)

Lemma job_attrs_lookup title copies (parsed feed : gmap string pyobj) media_resolved k :
  job_attrs title copies parsed feed media_resolved !! k =
    if bool_decide (k = "media" ∧ media_resolved ≠ "") then Some (PStr media_resolved)
    else match feed !! k with
         | Some v => Some v
         | None =>
             match parsed !! k with
             | Some v => Some v
             | None =>
                 ({[ "job-name" := PStr title; "copies" := PInt copies ]}
                    : gmap string pyobj) !! k
             end
         end.
Proof.
  unfold job_attrs, dict_update.
  assert (Hu : (feed ∪ (parsed ∪ ({[ "job-name" := PStr title; "copies" := PInt copies ]}
                   : gmap string pyobj))) !! k
               = match feed !! k with
                 | Some v => Some v
                 | None => match parsed !! k with
                           | Some v => Some v
                           | None => ({[ "job-name" := PStr title; "copies" := PInt copies ]}
                                        : gmap string pyobj) !! k
                           end
                 end).
  { rewrite !lookup_union. destruct (feed !! k), (parsed !! k);
      by destruct (_ !! k). }
  destruct (String.eqb media_resolved "") eqn:Hm.
  - apply String.eqb_eq in Hm as ->.
    rewrite bool_decide_eq_false_2 by (by intros [_ ?]). done.
  - apply String.eqb_neq in Hm.
    destruct (decide (k = "media")) as [->|Hk].
    + rewrite bool_decide_eq_true_2 by done. by rewrite lookup_insert_eq.
    + rewrite bool_decide_eq_false_2 by (by intros [? _]).
      by rewrite lookup_insert_ne.
Qed.

Lemma feed_options_keys x feed k :
  _feed_options x = Ok feed → is_Some (feed !! k) → k = "FeedWhere" ∨ k = "FeedDist".
Proof.
  unfold _feed_options. destruct (SFleb x zero).
  - intros [= <-] [v Hv]. left.
    apply lookup_singleton_Some in Hv. by destruct Hv.
  - destruct (py_round _); simpl; [|done]. intros [= <-] [v Hv].
    apply lookup_insert_Some in Hv as [[<- _]|[_ Hv]]; [by left|].
    apply lookup_singleton_Some in Hv as [<- _]. by right.
Qed.

Lemma print_via_ipp_submits (host : string) (port : Z) (queue : string)
    (payload : pyobj) (media : option string) (copies : Z) (title : string)
    (feed_after_mm : float) (text : string) (tags : gmap string IppTag)
    (media_resolved : string) (parsed feed : gmap string pyobj) :
  _resolve_media media payload = Ok media_resolved →
  (_parse_job_options text tags).1 = Ok parsed →
  _feed_options feed_after_mm = Ok feed →
  _print_via_ipp host port queue payload media copies title feed_after_mm text tags
  = (ipp_execute (_parse_job_options text tags).2 (_printer_uri host port queue)
       (print_job_message
          (job_attrs title copies parsed feed media_resolved) payload),
     (_parse_job_options text tags).2).
Proof.
  intros Hmedia Hparsed Hfeed. unfold _print_via_ipp. rewrite Hmedia.
  destruct (_parse_job_options text tags) as [r tags']. cbn [fst snd] in *.
  by rewrite Hparsed, Hfeed.
Qed.

(** An exception of the parser leaves [_print_via_ipp] before the feed is
    encoded. *)
Lemma print_via_ipp_parse_raises (host : string) (port : Z) (queue : string)
    (payload : pyobj) (media : option string) (copies : Z) (title : string)
    (feed_after_mm : float) (text : string) (tags : gmap string IppTag)
    (media_resolved : string) (e : exn) :
  _resolve_media media payload = Ok media_resolved →
  (_parse_job_options text tags).1 = Raise e →
  _print_via_ipp host port queue payload media copies title feed_after_mm text tags
  = (Raise e, (_parse_job_options text tags).2).
Proof.
  intros Hmedia Hparsed. unfold _print_via_ipp. rewrite Hmedia.
  destruct (_parse_job_options text tags) as [r tags']. cbn [fst snd] in *.
  by rewrite Hparsed.
Qed.

(** C5: where media resolution and feed encoding succeed, the job
    attributes sent start from [job-name] and [copies], take the parsed
    options over those, the feed options over both, and [media] last and
    only for a non-empty identifier; so a key of the feed encoder carries
    the encoder's value whatever the options text says.  Where the parser
    raises, its exception leaves [_print_via_ipp] and nothing is sent. *)
Theorem job_attrs_precedence (host : string) (port : Z) (queue : string)
    (payload : pyobj) (media : option string) (copies : Z) (title : string)
    (feed_after_mm : float) (text : string) (tags : gmap string IppTag)
    (media_resolved : string) (feed : gmap string pyobj) :
  _resolve_media media payload = Ok media_resolved →
  _feed_options feed_after_mm = Ok feed →
  let tags' := (_parse_job_options text tags).2 in
  match (_parse_job_options text tags).1 with
  | Raise e =>
      _print_via_ipp host port queue payload media copies title feed_after_mm
        text tags = (Raise e, tags')
  | Ok parsed =>
      let attrs := job_attrs title copies parsed feed media_resolved in
      _print_via_ipp host port queue payload media copies title feed_after_mm
        text tags
      = (ipp_execute tags' (_printer_uri host port queue)
           (print_job_message attrs payload), tags')
      ∧ (∀ k, attrs !! k =
           if bool_decide (k = "media" ∧ media_resolved ≠ "")
           then Some (PStr media_resolved)
           else match feed !! k with
                | Some v => Some v
                | None =>
                    match parsed !! k with
                    | Some v => Some v
                    | None =>
                        ({[ "job-name" := PStr title; "copies" := PInt copies ]}
                           : gmap string pyobj) !! k
                    end
                end)
      ∧ (∀ k v, feed !! k = Some v → attrs !! k = Some v)
  end.
Proof.
  intros Hmedia Hfeed. cbv zeta.
  destruct (_parse_job_options text tags).1 as [parsed|e] eqn:Hparsed.
  - split; [|split].
    + by apply print_via_ipp_submits.
    + intros k. apply job_attrs_lookup.
    + intros k v Hk. rewrite job_attrs_lookup, Hk.
      rewrite bool_decide_eq_false_2; [done|]. intros [-> _].
      by destruct (feed_options_keys feed_after_mm feed "media" Hfeed
                     (mk_is_Some _ _ Hk)).
  - by apply (print_via_ipp_parse_raises _ _ _ _ _ _ _ _ _ _ media_resolved).
Qed.

(** C8, amended to the [or] of the code: a non-empty [media] or
    [job_options] of the request is used, an absent or empty one gives way
    to the setting (and [job_options] to the empty text after that); a
    [feed_after_mm] of the request is used whenever it is present, else the
    setting converted by [float], or zero where the setting is empty; and
    these are the values [print_label] passes on. *)
Theorem effective_options (options : printing_options) :
  (∀ v, opt_media options = Some v → v ≠ "" → media_of options = Some v)
  ∧ (opt_media options = None ∨ opt_media options = Some "" →
     media_of options = get_setting "DEFAULT_MEDIA")
  ∧ (∀ x, opt_feed_after_mm options = Some x → feed_after_mm_of options = Ok x)
  ∧ (opt_feed_after_mm options = None →
     feed_after_mm_of options =
       match get_setting "DEFAULT_FEED_AFTER_MM" with
       | Some s => if String.eqb s "" then Ok zero else float_of_str s
       | None => Ok zero
       end)
  ∧ (∀ v, opt_job_options options = Some v → v ≠ "" →
     job_options_text_of options = v)
  ∧ (opt_job_options options = None ∨ opt_job_options options = Some "" →
     job_options_text_of options = str_or_default (get_setting "JOB_OPTIONS") "")
  ∧ (∀ kw tags x port (payload : pyobj),
       options_of kw = options →
       feed_after_mm_of options = Ok x →
       int_of_str (str_or_default (get_setting "CUPS_PORT") "631") = Ok port →
       _as_bytes (label_of kw) = Ok payload →
       print_label kw tags =
         let sub := _print_via_ipp
                      (str_or_default (get_setting "CUPS_HOST") "portterm") port
                      (str_or_default (get_setting "CUPS_QUEUE") "devterm_printer")
                      payload (media_of options) (copies_of options)
                      (title_of options) x (job_options_text_of options) tags in
         (ipp_failure_wrapped sub.1, sub.2)).
Proof.
  split; [|split; [|split; [|split; [|split; [|split]]]]].
  - intros v Hv Hne. unfold media_of, str_or. by rewrite Hv, (eqb_false_ne _ _ Hne).
  - unfold media_of, str_or. by intros [->| ->].
  - intros x Hx. unfold feed_after_mm_of. by rewrite Hx.
  - intros Hx. unfold feed_after_mm_of. by rewrite Hx.
  - intros v Hv Hne. unfold job_options_text_of, str_or, str_or_default.
    by rewrite Hv, !(eqb_false_ne _ _ Hne).
  - unfold job_options_text_of, str_or, str_or_default.
    intros [->| ->]; simpl; by destruct (get_setting "JOB_OPTIONS").
  - intros kw tags x port payload Hopt Hfeed Hport Hbytes.
    unfold print_label. rewrite Hopt, Hfeed, Hport, Hbytes.
    by destruct (_print_via_ipp _ _ _ _ _ _ _ _ _ _).
Qed.

(** C9: once the payload and the settings are read, every [Exception] out
    of the submission leaves [print_label] as the one [RuntimeError] whose
    text ends with the text of that exception, and a submission that
    succeeds makes [print_label] return [None]. *)
Theorem print_label_submission (kw : kwargs) (tags : gmap string IppTag)
    (x : float) (port : Z) (payload : pyobj) :
  feed_after_mm_of (options_of kw) = Ok x →
  int_of_str (str_or_default (get_setting "CUPS_PORT") "631") = Ok port →
  _as_bytes (label_of kw) = Ok payload →
  let sub := _print_via_ipp
               (str_or_default (get_setting "CUPS_HOST") "portterm") port
               (str_or_default (get_setting "CUPS_QUEUE") "devterm_printer")
               payload (media_of (options_of kw)) (copies_of (options_of kw))
               (title_of (options_of kw)) x
               (job_options_text_of (options_of kw)) tags in
  (∀ exc, sub.1 = Raise exc → is_Exception exc = true →
     print_label kw tags
     = (Raise (Exn RuntimeError ("IPP print failed: " +:+ exn_str exc)), sub.2))
  ∧ (sub.1 = Ok () → print_label kw tags = (Ok (), sub.2))
  ∧ (∀ media_resolved feed options exc,
       _resolve_media (media_of (options_of kw)) payload = Ok media_resolved →
       _feed_options x = Ok feed →
       let parsed := _parse_job_options (job_options_text_of (options_of kw)) tags in
       parsed.1 = Ok options →
       ipp_execute parsed.2
         (_printer_uri (str_or_default (get_setting "CUPS_HOST") "portterm") port
            (str_or_default (get_setting "CUPS_QUEUE") "devterm_printer"))
         (print_job_message
            (job_attrs (title_of (options_of kw)) (copies_of (options_of kw))
                       options feed media_resolved) payload)
       = Raise exc →
       is_Exception exc = true →
       print_label kw tags
       = (Raise (Exn RuntimeError ("IPP print failed: " +:+ exn_str exc)),
          parsed.2)).
Proof.
  intros Hfeed Hport Hbytes sub.
  assert (Hp : print_label kw tags = (ipp_failure_wrapped sub.1, sub.2)).
  { unfold print_label. rewrite Hfeed, Hport, Hbytes. fold sub. by destruct sub. }
  assert (Hwrap : ∀ exc, sub.1 = Raise exc → is_Exception exc = true →
            print_label kw tags
            = (Raise (Exn RuntimeError ("IPP print failed: " +:+ exn_str exc)),
               sub.2)).
  { intros exc Hexc Hcls. rewrite Hp, Hexc.
    unfold ipp_failure_wrapped, try_except. by rewrite Hcls. }
  split; [done|]. split.
  - intros Hok. by rewrite Hp, Hok.
  - intros media_resolved feed options exc Hmedia Hfd parsed Hparsed Hexc Hcls.
    pose proof (print_via_ipp_submits
      (str_or_default (get_setting "CUPS_HOST") "portterm") port
      (str_or_default (get_setting "CUPS_QUEUE") "devterm_printer") payload
      (media_of (options_of kw)) (copies_of (options_of kw))
      (title_of (options_of kw)) x (job_options_text_of (options_of kw)) tags
      media_resolved options feed Hmedia Hparsed Hfd) as Hsub.
    fold sub parsed in Hsub. rewrite (Hwrap exc).
    + by rewrite Hsub.
    + by rewrite Hsub.
    + done.
Qed.

Lemma py_or_falsy a b : truthy a = false → py_or a b = b.
Proof. unfold py_or. by intros ->. Qed.

(** C10, amended to the first three keywords: with no truthy value under
    [pdf_data], [label] and [data] (an empty byte sequence is not truthy)
    and nothing under [payload], [print_label] raises
    [ValueError("No label payload provided")] and submits nothing.  An
    empty byte sequence under [payload] itself is what the chain of [or]
    then selects, and it is submitted. *)
Theorem empty_payload_selection (kw : kwargs) (tags : gmap string IppTag)
    (x : float) (port : Z) :
  feed_after_mm_of (options_of kw) = Ok x →
  int_of_str (str_or_default (get_setting "CUPS_PORT") "631") = Ok port →
  truthy (kw_pdf_data kw) = false →
  truthy (kw_label kw) = false →
  truthy (kw_data kw) = false →
  (kw_payload kw = PNone → print_label kw tags = (Raise no_payload, tags))
  ∧ (kw_payload kw = PBytes [] →
     print_label kw tags =
       let sub := _print_via_ipp
                    (str_or_default (get_setting "CUPS_HOST") "portterm") port
                    (str_or_default (get_setting "CUPS_QUEUE") "devterm_printer")
                    (PBytes []) (media_of (options_of kw)) (copies_of (options_of kw))
                    (title_of (options_of kw)) x
                    (job_options_text_of (options_of kw)) tags in
       (ipp_failure_wrapped sub.1, sub.2)).
Proof.
  intros Hfeed Hport H1 H2 H3.
  assert (Hlabel : label_of kw = kw_payload kw).
  { unfold label_of. by rewrite (py_or_falsy _ _ H1), (py_or_falsy _ _ H2),
      (py_or_falsy _ _ H3). }
  split; intros Hp; unfold print_label; rewrite Hfeed, Hport, Hlabel, Hp; simpl.
  - done.
  - by destruct (_print_via_ipp _ _ _ _ _ _ _ _ _ _).
Qed.

End Props.

Lemma resolve_media_spec_witness :
  @_resolve_media plain_host (Some "   ") (PBytes []) = Ok ""
  ∧ @_resolve_media plain_host (Some " AUTO ") (PBytes [])
    = @_pdf_media_auto plain_host (PBytes [])
  ∧ @_resolve_media plain_host (Some " Custom.48x30mm ") (PBytes [])
    = Ok "Custom.48x30mm".
Proof.
  split; [|split].
  - destruct (@resolve_media_spec plain_host "   " (PBytes [])) as (H & _).
    apply H. reflexivity.
  - destruct (@resolve_media_spec plain_host " AUTO " (PBytes [])) as (_ & H & _).
    apply H; [vm_compute; discriminate|reflexivity].
  - destruct (@resolve_media_spec plain_host " Custom.48x30mm " (PBytes []))
      as (_ & _ & H & _).
    apply H; vm_compute; discriminate.
Defined.



Lemma job_attrs_precedence_witness :
  job_attrs "t" 1 {[ "FeedWhere" := PStr "Manual"; "copies" := PInt 5 ]}
            {[ "FeedWhere" := PStr "None" ]} "A6" !! "FeedWhere"
  = Some (PStr "None").
Proof.
  pose proof (@job_attrs_precedence plain_host "portterm" 631 "devterm_printer"
                (PBytes []) (Some "A6") 1 "t" zero "FeedWhere=Manual,copies=5" ∅
                "A6" {[ "FeedWhere" := PStr "None" ]} eq_refl eq_refl) as H.
  cbv zeta in H.
  change (@_parse_job_options "FeedWhere=Manual,copies=5" ∅).1
    with (Ok ({[ "FeedWhere" := PStr "Manual"; "copies" := PInt 5 ]}
                : gmap string pyobj)) in H.
  destruct H as (_ & _ & H). apply H. reflexivity.
Defined.

(** C8 as stated fails for a blank value: the request supplies [media = ""]
    (the serializer allows it) and the configured default is used. *)
Lemma effective_media_blank_request :
  let options := PrintingOptions (Some "") None None None (Some "") in
  opt_media options = Some ""
  ∧ @media_of plain_host options = Some "auto"
  ∧ opt_job_options options = Some ""
  ∧ @job_options_text_of plain_host options ≠ "".
Proof. vm_compute. repeat split; discriminate. Qed.

Lemma effective_options_witness :
  let options := PrintingOptions (Some "A6") None None (Some zero) (Some "a=1") in
  @media_of plain_host options = Some "A6"
  ∧ @feed_after_mm_of plain_host options = Ok zero
  ∧ @job_options_text_of plain_host options = "a=1"
  ∧ @media_of plain_host no_options = Some "auto".
Proof.
  intros options.
  destruct (@effective_options plain_host options) as (H1 & _ & H3 & _ & H5 & _).
  destruct (@effective_options plain_host no_options) as (_ & H2 & _).
  split; [|split; [|split]].
  - apply H1; [reflexivity|discriminate].
  - apply H3. reflexivity.
  - apply H5; [reflexivity|discriminate].
  - rewrite H2; [reflexivity|by left].
Defined.

Lemma print_label_submission_witness :
  (@print_label refusing_host
     (Kwargs (PBytes (list_byte_of_string "%PDF-1.4")) PNone PNone PNone None) ∅).1
  = Raise (Exn RuntimeError "IPP print failed: Connection refused")
  ∧ (@print_label plain_host
     (Kwargs (PBytes (list_byte_of_string "%PDF-1.4")) PNone PNone PNone None) ∅).1
  = Ok ().
Proof.
  split.
  - destruct (@print_label_submission refusing_host
                (Kwargs (PBytes (list_byte_of_string "%PDF-1.4")) PNone PNone PNone None)
                ∅ zero 631 (PBytes (list_byte_of_string "%PDF-1.4"))) as (H & _ & _);
      [reflexivity..|].
    rewrite (H (Exn (OtherException "IPPConnectionError") "Connection refused"));
      reflexivity.
  - destruct (@print_label_submission plain_host
                (Kwargs (PBytes (list_byte_of_string "%PDF-1.4")) PNone PNone PNone None)
                ∅ zero 631 (PBytes (list_byte_of_string "%PDF-1.4"))) as (_ & H & _);
      [reflexivity..|].
    rewrite H; reflexivity.
Defined.

(** C10 as stated fails for the keyword [payload]: the chain of [or] ends
    with it, so an empty byte sequence there is selected, normalised and
    submitted, and [print_label] returns normally. *)
Lemma empty_payload_keyword_submitted :
  let kw := Kwargs PNone PNone PNone (PBytes []) None in
  label_of kw = PBytes []
  ∧ @_as_bytes plain_host (label_of kw) = Ok (PBytes [])
  ∧ (@print_label plain_host kw ∅).1 = Ok ().
Proof. vm_compute. repeat split. Qed.

Lemma empty_payload_selection_witness :
  @print_label plain_host (Kwargs (PBytes []) PNone PNone PNone None) ∅
  = (Raise no_payload, ∅).
Proof.
  destruct (@empty_payload_selection plain_host
              (Kwargs (PBytes []) PNone PNone PNone None) ∅ zero 631) as [H _];
    [reflexivity..|].
  apply H. reflexivity.
Defined.

(** * Further properties of the code *)

(** ** The feed encoder on every binary64 *)

Lemma feed_options_ok x :
  valid_binary prec emax x = true →
  is_finite x = true ∨ SFleb x zero = true →
  ∃ feed, _feed_options x = Ok feed.
Proof.
  intros Hvalid Hx. destruct (SFleb x zero) eqn:Hle.
  - rewrite (feed_options_nonpositive _ Hle). by eexists.
  - destruct Hx as [Hfin|?]; [|done].
    destruct (py_round_finite _ (fdiv_three_finite _ Hvalid Hfin)) as [r Hr].
    unfold _feed_options. rewrite Hle, Hr. by eexists.
Qed.

Lemma feed_options_raise x e :
  _feed_options x = Raise e →
  SFleb x zero = false ∧ py_round (fdiv x three) = Raise e.
Proof.
  unfold _feed_options. destruct (SFleb x zero); [done|].
  by destruct (py_round (fdiv x three)); [|intros [= ->]].
Qed.

(** X1: [_feed_options] raises for exactly two binary64 values: [nan], with
    the [ValueError] of [round], and positive infinity, with its
    [OverflowError].  Every other value, negative infinity among them,
    gives a mapping. *)
Theorem feed_options_failures (x : float) :
  valid_binary prec emax x = true →
  match x with
  | S754_nan =>
      _feed_options x = Raise (Exn ValueError "cannot convert float NaN to integer")
  | S754_infinity false =>
      _feed_options x
      = Raise (Exn OverflowError "cannot convert float infinity to integer")
  | _ => ∃ feed, _feed_options x = Ok feed
  end.
Proof.
  intros Hvalid. destruct x as [s|[]| |s m e]; try done.
  - apply feed_options_ok; [done|by left].
  - apply feed_options_ok; [done|by right].
  - apply feed_options_ok; [done|by left].
Qed.

Lemma feed_options_failures_witness :
  _feed_options S754_nan = Raise (Exn ValueError "cannot convert float NaN to integer")
  ∧ ∃ feed, _feed_options (float_of_decimal false 7 0) = Ok feed.
Proof.
  split.
  - apply (feed_options_failures S754_nan). reflexivity.
  - apply (feed_options_failures (float_of_decimal false 7 0)). reflexivity.
Defined.

(** X2: whatever the distance, a mapping that [_feed_options] returns is
    [{FeedWhere: "None"}] or [{FeedWhere: "AfterJob", FeedDist: key}] with
    [key] one of the fifteen distance keys from [0feed3mm] to
    [14feed45mm]. *)
Theorem feed_options_range (x : float) (feed : gmap string pyobj) :
  _feed_options x = Ok feed →
  feed = {[ "FeedWhere" := PStr "None" ]}
  ∨ ∃ key,
      key ∈ ["0feed3mm"; "1feed6mm"; "2feed9mm"; "3feed12mm"; "4feed15mm";
             "5feed18mm"; "6feed21mm"; "7feed24mm"; "8feed27mm"; "9feed30mm";
             "10feed33mm"; "11feed36mm"; "12feed39mm"; "13feed42mm";
             "14feed45mm"]
      ∧ feed = {[ "FeedWhere" := PStr "AfterJob"; "FeedDist" := PStr key ]}.
Proof.
  unfold _feed_options. destruct (SFleb x zero); [intros [= <-]; by left|].
  destruct (py_round (fdiv x three)) as [r|e]; [|done]. simpl.
  intros [= <-]. right. eexists. split; [|reflexivity].
  set (steps := Z.max 1 (Z.min 15 r)).
  assert (Hsteps : 0 <= steps - 1 < Z.of_nat 15) by lia.
  replace (steps * 3) with ((steps - 1 + 1) * 3) by lia.
  revert Hsteps. generalize (steps - 1). intros i Hi.
  pose proof (forall_below (fun i => bool_decide
    (str_of_int i +:+ "feed" +:+ str_of_int ((i + 1) * 3) +:+ "mm"
     ∈ ["0feed3mm"; "1feed6mm"; "2feed9mm"; "3feed12mm"; "4feed15mm";
        "5feed18mm"; "6feed21mm"; "7feed24mm"; "8feed27mm"; "9feed30mm";
        "10feed33mm"; "11feed36mm"; "12feed39mm"; "13feed42mm";
        "14feed45mm"])) 15 ltac:(by vm_compute) i Hi) as Hkey.
  cbv beta in Hkey. by apply bool_decide_eq_true_1 in Hkey.
Qed.

Lemma feed_options_range_witness :
  ({[ "FeedWhere" := PStr "AfterJob"; "FeedDist" := PStr "1feed6mm" ]}
     : gmap string pyobj) = {[ "FeedWhere" := PStr "None" ]}
  ∨ ∃ key,
      key ∈ ["0feed3mm"; "1feed6mm"; "2feed9mm"; "3feed12mm"; "4feed15mm";
             "5feed18mm"; "6feed21mm"; "7feed24mm"; "8feed27mm"; "9feed30mm";
             "10feed33mm"; "11feed36mm"; "12feed39mm"; "13feed42mm";
             "14feed45mm"]
      ∧ ({[ "FeedWhere" := PStr "AfterJob"; "FeedDist" := PStr "1feed6mm" ]}
           : gmap string pyobj)
        = {[ "FeedWhere" := PStr "AfterJob"; "FeedDist" := PStr key ]}.
Proof. apply (feed_options_range (float_of_decimal false 7 0)). reflexivity. Defined.

(** X3: for a whole number [n] of millimetres from 1 to 45, the range the
    setting documents, the encoder feeds [3 * steps] millimetres with
    [steps = max(1, (n + 1) // 3)]: the multiple of three nearest to [n],
    and never less than three. *)
Theorem feed_options_whole_mm (n : Z) :
  1 <= n <= 45 →
  let steps := Z.max 1 ((n + 1) / 3) in
  _feed_options (float_of_decimal false n 0)
  = Ok {[ "FeedWhere" := PStr "AfterJob";
          "FeedDist" := PStr (str_of_int (steps - 1) +:+ "feed"
                              +:+ str_of_int (steps * 3) +:+ "mm") ]}.
Proof.
  intros Hn. cbv zeta.
  assert (Hcheck : ∀ i, 0 <= i < Z.of_nat 45 →
            (λ i, let x := float_of_decimal false (i + 1) 0 in
               SFltb zero x
               && match py_round (fdiv x three) with
                  | Ok r => Z.max 1 (Z.min 15 r) =? Z.max 1 ((i + 1 + 1) / 3)
                  | Raise _ => false
                  end) i = true).
  { apply forall_below. by vm_compute. }
  specialize (Hcheck (n - 1) ltac:(lia)). cbv beta zeta in Hcheck.
  replace (n - 1 + 1) with n in Hcheck by lia.
  apply andb_true_iff in Hcheck as [Hpos Hr].
  destruct (py_round (fdiv (float_of_decimal false n 0) three)) as [r|] eqn:Hround;
    [|done].
  apply Z.eqb_eq in Hr. rewrite (feed_options_positive _ r Hpos Hround).
  by rewrite Hr.
Qed.

Lemma feed_options_whole_mm_witness :
  _feed_options (float_of_decimal false 10 0)
  = Ok {[ "FeedWhere" := PStr "AfterJob"; "FeedDist" := PStr "2feed9mm" ]}.
Proof. apply (feed_options_whole_mm 10). lia. Defined.

(** ** Characters that a text does not hold *)

Lemma none_of_app p a b : none_of p (a +:+ b) = none_of p a && none_of p b.
Proof.
  induction a as [|c a IH]; [done|].
  rewrite append_cons. cbn [none_of]. rewrite IH. by rewrite andb_assoc.
Qed.

Lemma contains_none_of sep s :
  contains sep s = negb (none_of (fun c => Ascii.eqb c sep) s).
Proof.
  induction s as [|c s IH]; cbn [contains none_of]; [done|].
  rewrite IH. by destruct (Ascii.eqb c sep).
Qed.

Lemma contains_app sep a b : contains sep (a +:+ b) = contains sep a || contains sep b.
Proof.
  induction a as [|c a IH]; [done|].
  rewrite append_cons. cbn [contains]. rewrite IH. by destruct (Ascii.eqb c sep).
Qed.

Lemma none_of_strip p s : none_of p s = true → none_of p (strip s) = true.
Proof.
  destruct (strip_spec s) as (l & r & Hs & _). intros Hn.
  rewrite Hs, !none_of_app in Hn.
  by apply andb_true_iff in Hn as [_ [? _]%andb_true_iff].
Qed.

Lemma none_of_split p sep s :
  none_of p s = true → Forall (fun piece => none_of p piece = true) (split sep s).
Proof.
  induction s as [|c s IH]; cbn [split none_of].
  - by repeat constructor.
  - intros [Hc Hs]%andb_true_iff. specialize (IH Hs).
    destruct (Ascii.eqb c sep); [by constructor|].
    destruct (split sep s) as [|piece ps]; [repeat constructor; cbn; by rewrite Hc|].
    inversion IH; subst. constructor; [|done]. cbn [none_of]. by rewrite Hc.
Qed.

Lemma none_of_split1 p sep s :
  none_of p s = true →
  none_of p (split1 sep s).1 = true ∧ none_of p (split1 sep s).2 = true.
Proof.
  induction s as [|c s IH]; cbn [split1 none_of]; [done|].
  intros [Hc Hs]%andb_true_iff. destruct (Ascii.eqb c sep); [done|].
  destruct (IH Hs) as [Hk Hv]. destruct (split1 sep s) as [k v].
  cbn [fst snd none_of] in *. by rewrite Hc, Hk.
Qed.

Lemma splitlines_from_none_of p skip s :
  none_of p s = true →
  Forall (fun line => none_of p line = true) (splitlines_from skip s).
Proof.
  revert skip. induction s as [|c s IH]; intros skip; cbn [splitlines_from none_of].
  - constructor.
  - intros [Hc Hs]%andb_true_iff.
    destruct (skip && Ascii.eqb c "010"); [by apply IH|].
    destruct (is_linebreak c); [constructor; [done|by apply IH]|].
    specialize (IH false Hs). destruct (splitlines_from false s) as [|l ls].
    + repeat constructor. cbn [none_of]. by rewrite Hc.
    + inversion IH; subst. constructor; [|done]. cbn [none_of]. by rewrite Hc.
Qed.

Lemma all_digits_contains sep s :
  isdigit sep = false → all_digits s = true → contains sep s = false.
Proof.
  intros Hsep. induction s as [|c s IH]; cbn [all_digits contains]; [done|].
  intros [Hc Hs]%andb_true_iff. rewrite (IH Hs).
  destruct (Ascii.eqb c sep) eqn:Heq; [|done].
  apply Ascii.eqb_eq in Heq as ->. congruence.
Qed.

(** ** Texts that [strip], [split] and [splitlines] leave alone *)

Lemma rstrip_by_keeps p s :
  (∀ t c, s = t +:+ String c "" → p c = false) → rstrip_by p s = s.
Proof.
  induction s as [|a s IH]; [done|]. intros Hlast. cbn [rstrip_by].
  destruct s as [|b s].
  - cbn. by rewrite (Hlast "" a eq_refl).
  - rewrite IH; [done|]. intros t c Ht. apply (Hlast (String a t) c).
    by rewrite append_cons, <- Ht.
Qed.

Lemma strip_keeps s :
  (∀ c t, s = String c t → isspace c = false) →
  (∀ t c, s = t +:+ String c "" → isspace c = false) →
  strip s = s.
Proof.
  intros Hfirst Hlast. unfold strip. rewrite (rstrip_by_keeps _ _ Hlast).
  destruct s as [|c t]; [done|]. cbn. by rewrite (Hfirst c t eq_refl).
Qed.

Lemma strip_idemp s : strip (strip s) = strip s.
Proof.
  destruct (strip_spec s) as (l & r & _ & _ & _ & Hfirst & Hlast).
  by apply strip_keeps.
Qed.

Lemma strip_first s c t : strip s = s → s = String c t → isspace c = false.
Proof.
  intros Hs Heq. destruct (strip_spec s) as (l & r & _ & _ & _ & Hfirst & _).
  apply (Hfirst c t). by rewrite Hs.
Qed.

Lemma strip_last s t c : strip s = s → s = t +:+ String c "" → isspace c = false.
Proof.
  intros Hs Heq. destruct (strip_spec s) as (l & r & _ & _ & _ & _ & Hlast).
  apply (Hlast t c). by rewrite Hs.
Qed.

Lemma split_keeps sep s : contains sep s = false → split sep s = [s].
Proof.
  induction s as [|c s IH]; cbn [contains split]; [done|].
  destruct (Ascii.eqb c sep); [done|]. by intros ->%IH.
Qed.

Lemma splitlines_keeps s :
  s ≠ "" → none_of is_linebreak s = true → splitlines s = [s].
Proof.
  unfold splitlines. induction s as [|c s IH]; [done|].
  intros _ [Hc Hs]%andb_true_iff. cbn [splitlines_from andb].
  apply negb_true_iff in Hc. rewrite Hc.
  destruct s as [|d s]; [done|]. by rewrite IH.
Qed.

Lemma split1_app sep k v :
  contains sep k = false → split1 sep (k +:+ String sep v) = (k, v).
Proof.
  induction k as [|c k IH]; cbn [contains].
  - intros _. rewrite append_empty_l. cbn [split1]. by rewrite Ascii.eqb_refl.
  - destruct (Ascii.eqb c sep) eqn:Hc; [done|]. intros Hk.
    rewrite append_cons. cbn [split1]. by rewrite Hc, (IH Hk).
Qed.

Lemma append_inj_l (a x y : string) : a +:+ x = a +:+ y → x = y.
Proof.
  induction a as [|c a IH]; [by rewrite !append_empty_l|].
  rewrite !append_cons. intros [= Ha]. by apply IH.
Qed.

(** The last character of a text that ends in a text that is not empty. *)
Lemma last_char_app a b t c :
  b ≠ "" → a +:+ b = t +:+ String c "" → ∃ t', b = t' +:+ String c "".
Proof.
  revert t. induction a as [|x a IH]; intros t Hb.
  - rewrite append_empty_l. eauto.
  - rewrite append_cons. destruct t as [|y t].
    + rewrite append_empty_l. intros [= _ Ha].
      destruct a; [by rewrite append_empty_l in Ha|done].
    + rewrite append_cons. intros [= _ Ha]. by apply (IH t).
Qed.

(** A line feed between two texts: the lines of the first, then those of
    the second, with at most an empty line between them. *)
Lemma splitlines_from_app_lf skip a b :
  ∃ extra,
    (extra = [] ∨ extra = [""])
    ∧ (skip = false → splitlines_from skip a ++ extra ≠ [])
    ∧ splitlines_from skip (a +:+ String "010" b)
      = splitlines_from skip a ++ extra ++ splitlines_from false b.
Proof.
  revert skip. induction a as [|c a IH]; intros skip.
  - rewrite append_empty_l. destruct skip.
    + exists []. by repeat split; [left|..].
    + exists [""]. by repeat split; [right|..].
  - rewrite append_cons. cbn [splitlines_from].
    destruct (skip && Ascii.eqb c "010") eqn:Hskip.
    + destruct (IH false) as (extra & Hex & Hne & Heq). exists extra.
      split; [done|]. split; [|done].
      intros ->. done.
    + destruct (is_linebreak c).
      * destruct (IH (Ascii.eqb c "013")) as (extra & Hex & _ & ->).
        exists extra. by repeat split.
      * destruct (IH false) as (extra & Hex & Hne & ->).
        specialize (Hne eq_refl).
        destruct (splitlines_from false a) as [|l ls].
        -- destruct Hex as [->| ->]; [done|]. exists []. by repeat split; [left|..].
        -- exists extra. by repeat split.
Qed.

(** ** The job option parser on texts of a known shape *)

Lemma parse_token_skip st token :
  contains "=" token = false → parse_token st token = st.
Proof.
  intros Hc. unfold parse_token. rewrite Hc, orb_true_r. by destruct st.1.
Qed.

Lemma fold_parse_token_skip tokens st :
  Forall (fun token => contains "=" token = false) tokens →
  fold_left parse_token tokens st = st.
Proof.
  intros Hall. revert st. induction Hall as [|token tokens Ht _ IH]; intros st.
  - done.
  - cbn [fold_left]. by rewrite (parse_token_skip _ _ Ht).
Qed.

(** Every token of a text is trimmed and free of line boundaries, of
    commas and of any character the text is free of. *)
Lemma raw_lines_tokens text token :
  token ∈ raw_lines text →
  none_of is_linebreak token = true
  ∧ contains "," token = false
  ∧ strip token = token
  ∧ ∀ p, none_of p text = true → none_of p token = true.
Proof.
  rewrite raw_lines_spec. unfold spec_tokens. intros Hin.
  apply list_elem_of_bind in Hin as (line & Htoken & Hline).
  apply list_elem_of_fmap in Htoken as (piece & -> & Hpiece).
  pose proof (splitlines_from_lines false text) as Hlines.
  rewrite Forall_forall in Hlines. specialize (Hlines line Hline).
  destruct (split_spec "," line) as [_ Hsplit].
  rewrite Forall_forall in Hsplit. specialize (Hsplit piece Hpiece).
  split; [|split; [|split]].
  - apply none_of_strip.
    pose proof (none_of_split is_linebreak "," line Hlines) as Hps.
    rewrite Forall_forall in Hps. by apply Hps.
  - rewrite contains_none_of in Hsplit |- *. apply negb_false_iff in Hsplit.
    by rewrite (none_of_strip _ _ Hsplit).
  - apply strip_idemp.
  - intros p Hp. apply none_of_strip.
    pose proof (splitlines_from_none_of p false text Hp) as Hls.
    rewrite Forall_forall in Hls. specialize (Hls line Hline).
    pose proof (none_of_split p "," line Hls) as Hps.
    rewrite Forall_forall in Hps. by apply Hps.
Qed.

(** X4: a text without any [=] gives the empty mapping and leaves the tag
    table as it was, however many lines and commas it holds. *)
Theorem parse_job_options_no_equals (text : string) (tags : gmap string IppTag) :
  contains "=" text = false → _parse_job_options text tags = (Ok ∅, tags).
Proof.
  intros Hc. unfold _parse_job_options. destruct (String.eqb text ""); [done|].
  apply fold_parse_token_skip, Forall_forall. intros token Hin.
  destruct (raw_lines_tokens text token Hin) as (_ & _ & _ & Hp).
  rewrite contains_none_of in Hc |- *. apply negb_false_iff in Hc.
  by rewrite (Hp _ Hc).
Qed.

Lemma parse_job_options_no_equals_witness :
  _parse_job_options ("TrimMode Strong" +:+ String "010" "BlankSpace") ∅
  = (Ok ∅, ∅).
Proof. apply parse_job_options_no_equals. reflexivity. Defined.

(** X5: what an entry of the parser's result can be.  Its key is not
    empty, is trimmed and holds no [=], no comma and no line boundary.
    Its value is a [bool], an [int], or a text that is trimmed, holds no
    comma and no line boundary, is none of [none], [true] and [false] in
    any letter case, and is not matched by [-?\d+]. *)
Theorem parse_job_options_entries (text : string) (tags : gmap string IppTag)
    (parsed : gmap string pyobj) (key : string) (v : pyobj) :
  (_parse_job_options text tags).1 = Ok parsed →
  parsed !! key = Some v →
  (key ≠ "" ∧ strip key = key ∧ contains "=" key = false
   ∧ contains "," key = false ∧ none_of is_linebreak key = true)
  ∧ match v with
    | PBool _ | PInt _ => True
    | PStr s =>
        strip s = s ∧ contains "," s = false ∧ none_of is_linebreak s = true
        ∧ lower s ≠ "none" ∧ lower s ≠ "true" ∧ lower s ≠ "false"
        ∧ re_fullmatch INT_RE (list_ascii_of_string s) = false
    | _ => False
    end.
Proof.
  intros ->%parse_job_options_result. unfold spec_parse. intros Hk.
  apply elem_of_list_to_map_2 in Hk. rewrite elem_of_reverse in Hk.
  apply list_elem_of_omap in Hk as (token & Htoken & Hbind).
  rewrite <- raw_lines_spec in Htoken.
  destruct (raw_lines_tokens text token Htoken) as (Hlb & Hcomma & _ & _).
  rewrite contains_none_of in Hcomma. apply negb_false_iff in Hcomma.
  unfold spec_binding in Hbind.
  destruct (contains "=" token) eqn:Heq; [|done].
  destruct (split1_spec "=" token Heq) as [_ Hkeq].
  destruct (none_of_split1 _ "=" token Hlb) as [Hklb Hvlb].
  destruct (none_of_split1 _ "=" token Hcomma) as [Hkc Hvc].
  destruct (split1 "=" token) as [k0 v0]. cbn [fst snd] in *.
  destruct (String.eqb (strip k0) "") eqn:Hk0; [done|].
  destruct (String.eqb (lower (strip v0)) "none") eqn:Hnone; [done|].
  injection Hbind as <- <-. split.
  - split; [by apply String.eqb_neq|]. split; [apply strip_idemp|].
    rewrite !contains_none_of, !negb_false_iff.
    rewrite contains_none_of, negb_false_iff in Hkeq.
    split; [by apply none_of_strip|]. split; by apply none_of_strip.
  - unfold spec_typed_value. rewrite <- fullmatch_INT_RE.
    destruct (String.eqb (lower (strip v0)) "true") eqn:Htrue; [done|].
    destruct (String.eqb (lower (strip v0)) "false") eqn:Hfalse; [done|].
    destruct (re_fullmatch INT_RE _) eqn:Hint; [done|].
    split; [apply strip_idemp|].
    rewrite contains_none_of, negb_false_iff.
    split; [by apply none_of_strip|]. split; [by apply none_of_strip|].
    by rewrite <- !String.eqb_neq.
Qed.

Lemma parse_job_options_entries_witness :
  ("TrimMode" ≠ "" ∧ strip "TrimMode" = "TrimMode" ∧ contains "=" "TrimMode" = false
   ∧ contains "," "TrimMode" = false ∧ none_of is_linebreak "TrimMode" = true)
  ∧ (strip "Strong" = "Strong" ∧ contains "," "Strong" = false
     ∧ none_of is_linebreak "Strong" = true
     ∧ lower "Strong" ≠ "none" ∧ lower "Strong" ≠ "true" ∧ lower "Strong" ≠ "false"
     ∧ re_fullmatch INT_RE (list_ascii_of_string "Strong") = false).
Proof.
  apply (parse_job_options_entries "TrimMode = Strong , a=none" ∅
           {[ "TrimMode" := PStr "Strong" ]} "TrimMode" (PStr "Strong")).
  - vm_compute. reflexivity.
  - vm_compute. reflexivity.
Defined.

(** X6: parsing a text a second time returns the same mapping and adds
    nothing to the tag table, and two texts parsed one after the other
    leave the same tag table in either order. *)
Theorem parse_job_options_repeat (text other : string) (tags : gmap string IppTag) :
  _parse_job_options text (_parse_job_options text tags).2
  = _parse_job_options text tags
  ∧ (_parse_job_options other (_parse_job_options text tags).2).2
    = (_parse_job_options text (_parse_job_options other tags).2).2.
Proof.
  split; [|apply parse_job_options_tags_commute].
  apply injective_projections.
  - by rewrite !parse_job_options_steps.
  - apply map_eq. intros k. rewrite !parse_job_options_tags.
    destruct (tags !! k); [done|]. by destruct (spec_registered text !! k).
Qed.

(** X7: the order of the seeding at import and a parse matters for
    [BlankSpace].  Where pyipp's table has no entry for it, seeding first
    (as the module does) leaves it tagged [BOOLEAN] after any parse; a
    parse that binds [BlankSpace] on the unseeded table tags it [KEYWORD],
    and seeding afterwards does not change that. *)
Theorem seeding_precedes_parsing (text : string) (tags : gmap string IppTag) :
  tags !! "BlankSpace" = None →
  (_parse_job_options text (seed_tags tags)).2 !! "BlankSpace" = Some BOOLEAN
  ∧ (∀ parsed, (_parse_job_options text tags).1 = Ok parsed →
     is_Some (parsed !! "BlankSpace") →
     seed_tags (_parse_job_options text tags).2 !! "BlankSpace" = Some KEYWORD).
Proof.
  intros Hnone.
  assert (Hseed : ∀ t : gmap string IppTag,
            seed_tags t !! "BlankSpace"
            = match t !! "BlankSpace" with Some x => Some x | None => Some BOOLEAN end).
  { intros t. unfold seed_tags. rewrite !setdefault_lookup.
    repeat (rewrite decide_False by done). rewrite decide_True by done.
    rewrite decide_False by done. by destruct (t !! "BlankSpace"). }
  split.
  - rewrite parse_job_options_tags, Hseed, Hnone. done.
  - intros parsed Hparsed [v Hv]. rewrite Hseed, parse_job_options_tags, Hnone.
    rewrite parse_job_options_steps in Hparsed. cbn [fst] in Hparsed.
    destruct (first_oversized (spec_tokens text)) eqn:Hfirst; [done|].
    injection Hparsed as <-.
    by rewrite (parse_job_options_registered _ Hfirst), Hv.
Qed.

Lemma seeding_precedes_parsing_witness :
  (_parse_job_options "BlankSpace=False" (seed_tags ∅)).2 !! "BlankSpace" = Some BOOLEAN
  ∧ seed_tags (_parse_job_options "BlankSpace=False" ∅).2 !! "BlankSpace" = Some KEYWORD.
Proof.
  destruct (seeding_precedes_parsing "BlankSpace=False" ∅) as [H1 H2].
  - reflexivity.
  - split; [exact H1|].
    apply (H2 {[ "BlankSpace" := PBool false ]}); [vm_compute; reflexivity|].
    eexists. vm_compute. reflexivity.
Defined.

(** X8: a text [key=value] of one binding.  For a key that is not empty,
    is trimmed and holds no [=], comma or line boundary, and a value that
    is trimmed, holds no comma or line boundary and is not [none], the
    parser returns the one entry of [key] with the typed value and tags
    [key] as [KEYWORD] unless the table has it; for a value that is an
    integer of more than 4300 digits it raises the [ValueError] of [int]
    instead and leaves the tag table as it was. *)
Theorem parse_job_options_single (key value : string) (tags : gmap string IppTag) :
  key ≠ "" → strip key = key → strip value = value →
  none_of is_linebreak key = true → none_of is_linebreak value = true →
  contains "," key = false → contains "," value = false →
  contains "=" key = false →
  lower value ≠ "none" →
  _parse_job_options (key +:+ "=" +:+ value) tags
  = (if oversized value
     then (Raise (int_limit_error (digit_count value)), tags)
     else (Ok {[ key := spec_typed_value value ]}, setdefault key KEYWORD tags)).
Proof.
  intros Hkey Hsk Hsv Hlk Hlv Hck Hcv Hek Hnone.
  change ("=" +:+ value) with (String "=" value).
  set (text := key +:+ String "=" value).
  assert (Htext : text ≠ "").
  { unfold text. by apply append_nonempty_l. }
  assert (Hstrip : strip text = text).
  { apply strip_keeps.
    - intros c t Ht. unfold text in Ht. destruct key as [|c' k]; [done|].
      rewrite append_cons in Ht. injection Ht as -> _.
      by apply (strip_first _ _ k Hsk).
    - intros t c Ht. unfold text in Ht. destruct value as [|v0 v].
      + change (String "=" "") with ("" +:+ String "=" "") in Ht.
        apply last_char_app in Ht as [t' Ht']; [|done].
        destruct t' as [|x t'].
        * rewrite append_empty_l in Ht'. by injection Ht' as <-.
        * rewrite append_cons in Ht'. injection Ht' as _ Ht'. by destruct t'.
      + change (String "=" (String v0 v)) with ("=" +:+ String v0 v) in Ht.
        rewrite <- append_assoc in Ht.
        apply last_char_app in Ht as [t' Ht']; [|done].
        by apply (strip_last _ t' c Hsv). }
  assert (Hlines : raw_lines text = [text]).
  { unfold raw_lines. rewrite splitlines_keeps.
    - cbn [map concat]. rewrite split_keeps.
      + cbn [map]. by rewrite Hstrip.
      + unfold text. rewrite contains_app. cbn [contains]. by rewrite Hck, Hcv.
    - done.
    - unfold text. rewrite none_of_app. cbn [none_of]. by rewrite Hlk, Hlv. }
  unfold _parse_job_options. rewrite (eqb_false_ne _ _ Htext), Hlines.
  cbn [fold_left]. unfold parse_token. cbn [fst snd].
  rewrite (eqb_false_ne _ _ Htext).
  assert (contains "=" text = true) as ->.
  { unfold text. rewrite contains_app. cbn [contains]. by rewrite orb_true_r. }
  cbn [negb orb]. unfold text. rewrite (split1_app _ _ _ Hek), Hsk, Hsv.
  rewrite (eqb_false_ne _ _ Hkey), (eqb_false_ne _ _ Hnone).
  rewrite parsed_value_spec. destruct (oversized value); [done|].
  by rewrite insert_empty.
Qed.

Lemma parse_job_options_single_witness :
  _parse_job_options ("copies" +:+ "=" +:+ "-12") ∅
  = (Ok {[ "copies" := PInt (-12) ]}, setdefault "copies" KEYWORD ∅)
  ∧ (_parse_job_options ("a" +:+ "=" +:+ long_number) ∅).1
    = Raise (int_limit_error 4301).
Proof.
  split.
  - rewrite (parse_job_options_single "copies" "-12" ∅);
      [reflexivity|vm_compute; congruence..].
  - pose proof (parse_job_options_single "a" long_number ∅) as H.
    rewrite H; [reflexivity|try (vm_compute; reflexivity)..].
    + discriminate.
    + intros Heq. vm_compute in Heq. discriminate Heq.
Defined.



Lemma spec_parse_lines a b :
  spec_parse (a +:+ String "010" b) = spec_parse b ∪ spec_parse a.
Proof.
  unfold spec_parse, spec_tokens, splitlines.
  destruct (splitlines_from_app_lf false a b) as (extra & Hex & _ & ->).
  rewrite !bind_app, !omap_app.
  assert (omap spec_binding (extra ≫= λ line, strip <$> split "," line) = []) as ->.
  { by destruct Hex as [->| ->]. }
  rewrite app_nil_l, reverse_app. apply list_to_map_app.
Qed.

Lemma steps_tags_alone tokens (m m' : gmap string pyobj) (t : gmap string IppTag) :
  (fold_left spec_step tokens (m, t)).2 = (fold_left spec_step tokens (m', t)).2.
Proof.
  revert m m' t. induction tokens as [|token tokens IH]; intros m m' t; [done|].
  cbn [fold_left]. unfold spec_step at 2 4.
  destruct (spec_binding token) as [[key v]|]; apply IH.
Qed.

Lemma parse_job_options_fold text tags :
  _parse_job_options text tags = fold_left parse_token (spec_tokens text) (Ok ∅, tags).
Proof.
  unfold _parse_job_options. rewrite raw_lines_spec.
  destruct (String.eqb text "") eqn:Hempty; [|done].
  by apply String.eqb_eq in Hempty as ->.
Qed.

Lemma spec_tokens_lines a b :
  ∃ extra, Forall (fun token => contains "=" token = false) extra
           ∧ spec_tokens (a +:+ String "010" b)
             = spec_tokens a ++ extra ++ spec_tokens b.
Proof.
  unfold spec_tokens, splitlines.
  destruct (splitlines_from_app_lf false a b) as (extra & Hex & _ & ->).
  exists (extra ≫= λ line, strip <$> split "," line).
  split; [|by rewrite !bind_app].
  destruct Hex as [->| ->]; [done|]. by repeat constructor.
Qed.

(** X9: a line feed between two texts.  Parsing [a], a line feed and [b]
    is parsing [a] and then [b] on the tag table that [a] left: the
    mapping is that of [a] updated with that of [b], and the tag table is
    the one after both; where the parse of [a] raises, [b] is not
    reached. *)
Theorem parse_job_options_lines (a b : string) (tags : gmap string IppTag) :
  let first := _parse_job_options a tags in
  let second := _parse_job_options b first.2 in
  _parse_job_options (a +:+ String "010" b) tags
  = match first.1 with
    | Raise e => (Raise e, first.2)
    | Ok options =>
        match second.1 with
        | Raise e => (Raise e, second.2)
        | Ok others => (Ok (dict_update options others), second.2)
        end
    end.
Proof.
  cbv zeta. destruct (spec_tokens_lines a b) as (extra & Hextra & Htokens).
  rewrite (parse_job_options_fold (a +:+ String "010" b)), Htokens.
  rewrite !fold_left_app, <- parse_job_options_fold.
  rewrite (fold_parse_token_skip extra _ Hextra).
  destruct (_parse_job_options a tags) as [[options|e] tags1]; cbn [fst snd].
  - rewrite parse_job_options_steps, parse_fold_steps. cbn [fst snd].
    rewrite (steps_tags_alone _ options ∅).
    destruct (first_oversized (spec_tokens b)) eqn:Hfirst; [done|].
    rewrite steps_result, (accepted_all _ Hfirst). done.
  - apply parse_fold_raise.
Qed.

(** The default of [JOB_OPTIONS]: two of its four lines say [none]. *)
Lemma parse_default_job_options (tags : gmap string IppTag) :
  _parse_job_options JOB_OPTIONS_default tags
  = (Ok {[ "TrimMode" := PStr "Strong"; "BlankSpace" := PBool false ]},
     setdefault "BlankSpace" KEYWORD (setdefault "TrimMode" KEYWORD tags)).
Proof.
  rewrite parse_job_options_steps.
  assert (spec_tokens JOB_OPTIONS_default
          = ["print-scaling=none"; "TrimMode=Strong"; "BlankSpace=False";
             "orientation-requested=none"]) as Htokens by (by vm_compute).
  assert (spec_parse JOB_OPTIONS_default
          = {[ "TrimMode" := PStr "Strong"; "BlankSpace" := PBool false ]}) as ->
    by (by vm_compute).
  rewrite Htokens.
  change (first_oversized _) with (@None string).
  change (accepted _)
    with ["print-scaling=none"; "TrimMode=Strong"; "BlankSpace=False";
          "orientation-requested=none"].
  cbn [fold_left]. unfold spec_step.
  change (spec_binding "print-scaling=none") with (@None (string * pyobj)).
  change (spec_binding "orientation-requested=none") with (@None (string * pyobj)).
  change (spec_binding "TrimMode=Strong") with (Some ("TrimMode", PStr "Strong")).
  change (spec_binding "BlankSpace=False") with (Some ("BlankSpace", PBool false)).
  done.
Qed.

(** ** The printer URI *)

Lemma str_of_int_no_slash n : contains "/" (str_of_int n) = false.
Proof.
  unfold str_of_int. destruct (n <? 0); cbn [contains Ascii.eqb];
    apply all_digits_contains; try done; apply str_of_nonneg_digits.
Qed.

Lemma str_of_int_inj n m : str_of_int n = str_of_int m → n = m.
Proof.
  intros Heq. destruct (int_of_numeral_str_of_int n) as [_ <-].
  destruct (int_of_numeral_str_of_int m) as [_ <-]. by rewrite Heq.
Qed.

(** X10: for host names without a colon, [_printer_uri] gives different
    URIs to different triples of host, port and queue: the three can be
    read back from the URI. *)
Theorem printer_uri_injective (host host' : string) (port port' : Z)
    (queue queue' : string) :
  contains ":" host = false → contains ":" host' = false →
  _printer_uri host port queue = _printer_uri host' port' queue' →
  host = host' ∧ port = port' ∧ queue = queue'.
Proof.
  unfold _printer_uri. intros Hh Hh' Heq.
  apply append_inj_l in Heq.
  change (":" +:+ str_of_int port +:+ "/printers/" +:+ queue)
    with (String ":" (str_of_int port +:+ String "/" ("printers/" +:+ queue))) in Heq.
  change (":" +:+ str_of_int port' +:+ "/printers/" +:+ queue')
    with (String ":" (str_of_int port' +:+ String "/" ("printers/" +:+ queue'))) in Heq.
  apply (f_equal (split1 ":")) in Heq.
  rewrite !split1_app in Heq by done. injection Heq as Hhost Heq.
  apply (f_equal (split1 "/")) in Heq.
  rewrite !split1_app in Heq by apply str_of_int_no_slash.
  injection Heq as Hport Hqueue.
  split; [done|]. split; [by apply str_of_int_inj|by apply append_inj_l in Hqueue].
Qed.

Lemma printer_uri_injective_witness :
  "portterm" = "portterm" ∧ 631 = 631 ∧ "devterm_printer" = "devterm_printer".
Proof.
  apply (printer_uri_injective "portterm" "portterm" 631 631); reflexivity.
Defined.

(** ** Signs in binary64 *)

Lemma binary_round_aux_sign sx mx ex lx :
  SFabs (binary_round_aux prec emax sx mx ex lx)
  = SFabs (binary_round_aux prec emax false mx ex lx).
Proof.
  unfold binary_round_aux.
  destruct (shr_fexp prec emax mx ex lx) as [r1 e1].
  destruct (shr_fexp prec emax _ e1 loc_Exact) as [r2 e2].
  destruct (shr_m r2); [done| |done]. by destruct (e2 <=? emax - prec).
Qed.

Lemma binary_normalize_opp m e :
  SFabs (binary_normalize prec emax (- m) e false)
  = SFabs (binary_normalize prec emax m e false).
Proof.
  destruct m as [|p|p]; [done|..];
    [change (- Z.pos p) with (Z.neg p)|change (- Z.neg p) with (Z.pos p)];
    unfold binary_normalize, binary_round;
    destruct (shl_align _ _ _) as [mz ez];
    by rewrite (binary_round_aux_sign true).
Qed.

(** [abs(a - b) = abs(b - a)] in binary64. *)
Lemma fsub_abs_sym a b : SFabs (fsub a b) = SFabs (fsub b a).
Proof.
  destruct a as [sa|sa| |sa ma ea], b as [sb|sb| |sb mb eb];
    try done; try (by destruct sa); try (by destruct sb);
    try (by destruct sa, sb).
  unfold fsub, SFsub. rewrite (Z.min_comm eb ea).
  rewrite <- binary_normalize_opp. f_equal. f_equal. lia.
Qed.

Lemma binary_round_aux_unsigned mx ex lx :
  unsigned_float (binary_round_aux prec emax false mx ex lx).
Proof.
  unfold binary_round_aux.
  destruct (shr_fexp prec emax mx ex lx) as [r1 e1].
  destruct (shr_fexp prec emax _ e1 loc_Exact) as [r2 e2].
  destruct (shr_m r2); [done| |done]. by destruct (e2 <=? emax - prec).
Qed.

Lemma points_to_mm_unsigned d : unsigned_float (points_to_mm (SFabs d)).
Proof.
  unfold points_to_mm.
  change mm_per_inch with (S754_finite false 7149464408450662 (-48)).
  change points_per_inch with (S754_finite false 5066549580791808 (-46)).
  assert (Hmul : unsigned_float
            (fmul (SFabs d) (S754_finite false 7149464408450662 (-48)))).
  { destruct d as [s|s| |s m e]; try done. apply binary_round_aux_unsigned. }
  destruct (fmul (SFabs d) _) as [s|s| |s m e]; cbn in Hmul; subst; try done.
  unfold fdiv, SFdiv. destruct (SFdiv_core_binary _ _ _ _ _ _) as [[mz ez] lz].
  apply binary_round_aux_unsigned.
Qed.

Lemma spec_decimals_no_minus f : 0 <= f < 100 → contains "-" (spec_decimals f) = false.
Proof.
  intros Hf.
  apply (forall_below (fun f => negb (contains "-" (spec_decimals f))) 100) in Hf;
    [by apply negb_true_iff in Hf|by vm_compute].
Qed.

Lemma format_mm_unsigned x : unsigned_float x → contains "-" (_format_mm x) = false.
Proof.
  destruct x as [s|s| |s m e]; cbn [unsigned_float]; intros Hs; subst; try done.
  rewrite format_mm_finite, !contains_app. cbn [sign_text contains orb].
  rewrite (all_digits_contains "-") by (done || apply str_of_nonneg_digits).
  rewrite spec_decimals_no_minus; [done|]. by apply Z.mod_pos_bound.
Qed.

Lemma custom_media_unsigned w h :
  contains "-" (custom_media (SFabs w) (SFabs h)) = false.
Proof.
  unfold custom_media. rewrite !contains_app.
  rewrite !format_mm_unsigned by apply points_to_mm_unsigned. done.
Qed.

(** A media name made from a page is trimmed and is not [auto]. *)
Lemma custom_media_fixed w h :
  custom_media w h ≠ "" ∧ strip (custom_media w h) = custom_media w h
  ∧ lower (custom_media w h) ≠ "auto".
Proof.
  unfold custom_media.
  set (body := _format_mm (points_to_mm w) +:+ "x" +:+ _format_mm (points_to_mm h)
               +:+ "mm").
  change ("Custom." +:+ body) with (String "C" ("ustom." +:+ body)).
  split; [done|]. split; [|done].
  apply strip_keeps.
  - by intros c t [= <- _].
  - intros t c Ht.
    change (String "C" ("ustom." +:+ body)) with ("Custom." +:+ body) in Ht.
    unfold body in Ht. rewrite <- !append_assoc in Ht.
    apply last_char_app in Ht as [t' Ht']; [|done].
    destruct t' as [|a [|b t']]; try done.
    + by injection Ht' as _ <-.
    + injection Ht' as _ _ Ht'. by destruct t'.
Qed.

(** ** The matcher on an input of a known shape *)

Lemma rmatch_seq {A} `{EqDecision A} {X} (r1 r2 : regex A) s caps
    (k : list A → list (list A) → option X) :
  rmatch (Seq r1 r2) s caps k
  = rmatch r1 s caps (fun s' caps' => rmatch r2 s' caps' k).
Proof. done. Qed.

Lemma rmatch_lit {A} `{EqDecision A} {X} (a : A) s caps
    (k : list A → list (list A) → option X) :
  rmatch (Lit a) (a :: s) caps k = k s caps.
Proof. cbn [rmatch]. by rewrite decide_True. Qed.

Lemma rmatch_lit_ne {A} `{EqDecision A} {X} (a c : A) s caps
    (k : list A → list (list A) → option X) :
  c ≠ a → rmatch (Lit a) (c :: s) caps k = None.
Proof. intros Hc. cbn [rmatch]. by rewrite decide_False. Qed.

Lemma rmatch_class {A} `{EqDecision A} {X} (p : A → bool) c s caps
    (k : list A → list (list A) → option X) :
  rmatch (Class p) (c :: s) caps k = if p c then k s caps else None.
Proof. done. Qed.

Lemma rmatch_opt {A} `{EqDecision A} {X} (r : regex A) s caps
    (k : list A → list (list A) → option X) :
  rmatch (Opt r) s caps k
  = match rmatch r s caps k with Some x => Some x | None => k s caps end.
Proof. done. Qed.

Lemma rmatch_group {A} `{EqDecision A} {X} (r : regex A) s caps
    (k : list A → list (list A) → option X) :
  rmatch (Group r) s caps k
  = rmatch r s caps (fun s' caps' =>
      k s' (caps' ++ [take (length s - length s') s])).
Proof. done. Qed.

(** A greedy run takes all of [ds] where the rest of the pattern accepts
    what follows. *)
Lemma star_class_run {A} `{EqDecision A} {X} (p : A → bool)
    (k : list A → list (list A) → option X) fuel ds rest caps x :
  forallb p ds = true → stops p rest →
  (length (ds ++ rest) <= fuel)%nat →
  k rest caps = Some x →
  star_loop (rmatch (Class p)) k fuel (ds ++ rest) caps = Some x.
Proof.
  intros Hds Hrest. revert fuel. induction ds as [|d ds IH]; intros fuel Hlen Hk.
  - cbn [app]. destruct fuel as [|fuel]; [done|]. cbn [star_loop rmatch].
    destruct rest as [|c rest]; [done|]. cbn in Hrest. by rewrite Hrest.
  - cbn [forallb] in Hds. apply andb_true_iff in Hds as [Hd Hds].
    destruct fuel as [|fuel]; [cbn in Hlen; lia|].
    cbn [app star_loop rmatch]. rewrite Hd.
    rewrite (proj2 (Nat.ltb_lt _ _)) by (cbn; lia).
    rewrite IH; [done|done|cbn in Hlen; lia|done].
Qed.

Lemma rmatch_star_run {A} `{EqDecision A} {X} (p : A → bool)
    (k : list A → list (list A) → option X) ds rest caps x :
  forallb p ds = true → stops p rest →
  k rest caps = Some x →
  rmatch (Star (Class p)) (ds ++ rest) caps k = Some x.
Proof. intros ???. cbn [rmatch]. by apply star_class_run. Qed.

Lemma rmatch_plus_run {A} `{EqDecision A} {X} (p : A → bool)
    (k : list A → list (list A) → option X) ds rest caps x :
  ds ≠ [] → forallb p ds = true → stops p rest →
  k rest caps = Some x →
  rmatch (plus (Class p)) (ds ++ rest) caps k = Some x.
Proof.
  intros Hne Hds Hrest Hk. destruct ds as [|d ds]; [done|].
  cbn [forallb] in Hds. apply andb_true_iff in Hds as [Hd Hds].
  unfold plus. rewrite rmatch_seq. cbn [app]. rewrite rmatch_class, Hd.
  by apply rmatch_star_run.
Qed.

Lemma rmatch_lits {X} bs (r : regex byte) s caps
    (k : list byte → list (list byte) → option X) :
  rmatch (lits bs r) (bs ++ s) caps k = rmatch r s caps k.
Proof.
  induction bs as [|b bs IH]; [done|].
  cbn [lits app]. by rewrite rmatch_seq, rmatch_lit.
Qed.

Lemma stops_app {A} (p : A → bool) (a b : list A) :
  a ≠ [] → stops p a → stops p (a ++ b).
Proof. by destruct a. Qed.

Lemma re_search_here {A} `{EqDecision A} (r : regex A) s caps :
  rmatch r s [] (fun _ caps => Some caps) = Some caps → re_search r s = Some caps.
Proof. intros Hr. destruct s; cbn [re_search]; by rewrite Hr. Qed.


(** ** Numerals under the matcher *)

Lemma span_digits_spec w :
  w = (span_digits w).1 ++ (span_digits w).2
  ∧ forallb bdigit (span_digits w).1 = true
  ∧ stops bdigit (span_digits w).2.
Proof.
  induction w as [|b w (IH1 & IH2 & IH3)]; [done|]. cbn [span_digits].
  destruct (bdigit b) eqn:Hb; [|done].
  destruct (span_digits w) as [ds r]. cbn [fst snd] in *.
  cbn [app forallb]. by rewrite Hb, <- IH1.
Qed.

(** What [float_of_digits] accepts: digits, then nothing or a point and
    digits. *)
Lemma float_of_digits_shape neg w x :
  float_of_digits neg w = Ok x →
  ∃ ip frac,
    w = ip ++ frac ∧ ip ≠ [] ∧ forallb bdigit ip = true
    ∧ (frac = []
       ∨ ∃ fp, frac = "."%byte :: fp ∧ fp ≠ [] ∧ forallb bdigit fp = true).
Proof.
  unfold float_of_digits.
  destruct (span_digits_spec w) as (Hw & Hip & _).
  destruct (span_digits w) as [ip rest]. cbn [fst snd] in *.
  destruct ip as [|d ip]; [by destruct rest as [|[] ?]|].
  destruct rest as [|c fp].
  - intros _. exists (d :: ip), []. split; [done|]. split; [done|]. split; [done|].
    by left.
  - destruct (decide (c = "."%byte)) as [->|Hc]; [|by destruct c].
    destruct fp as [|f fp]; [done|].
    destruct (span_digits_spec (f :: fp)) as (Hfp & Hfd & _).
    destruct (span_digits (f :: fp)) as [fd frest]. cbn [fst snd] in *.
    destruct frest as [|? ?]; [|done].
    intros _. exists (d :: ip), ("."%byte :: f :: fp).
    split; [done|]. split; [done|]. split; [done|]. right.
    exists (f :: fp). split; [done|]. split; [done|].
    rewrite app_nil_r in Hfp. by rewrite Hfp.
Qed.

Lemma bdigit_not_sign b :
  bdigit b = true → b ≠ "-"%byte ∧ b ≠ "."%byte ∧ bspace b = false.
Proof. by destruct b. Qed.

Lemma bspace_not_number b :
  bspace b = true → bdigit b = false ∧ b ≠ "."%byte ∧ b ≠ "-"%byte.
Proof. by destruct b. Qed.

Lemma digits_run_number {X} (k : list byte → list (list byte) → option X)
    w rest caps r x :
  float_of_digits false w = Ok x ∨ float_of_digits true w = Ok x →
  number_ends rest →
  k rest caps = Some r →
  rmatch (Seq (plus (Class bdigit))
            (Opt (Seq (Lit "."%byte) (plus (Class bdigit)))))
         (w ++ rest) caps k = Some r.
Proof.
  intros Hw Hrest Hk.
  assert (∃ ip frac,
    w = ip ++ frac ∧ ip ≠ [] ∧ forallb bdigit ip = true
    ∧ (frac = []
       ∨ ∃ fp, frac = "."%byte :: fp ∧ fp ≠ [] ∧ forallb bdigit fp = true))
    as (ip & frac & -> & Hne & Hip & Hfrac).
  { destruct Hw as [Hw|Hw]; by apply float_of_digits_shape in Hw. }
  rewrite rmatch_seq, <- (assoc_L (++)).
  apply rmatch_plus_run; [done|done|..].
  - destruct Hfrac as [->|(fp & -> & _)]; [|done].
    destruct rest as [|c rest]; [done|]. by destruct Hrest.
  - destruct Hfrac as [->|(fp & -> & Hfp & Hfd)].
    + cbn [app]. rewrite rmatch_opt, rmatch_seq.
      destruct rest as [|c rest]; [done|]. destruct Hrest as [_ Hc].
      by rewrite rmatch_lit_ne.
    + cbn [app]. rewrite rmatch_opt, rmatch_seq, rmatch_lit.
      rewrite (rmatch_plus_run bdigit k fp rest caps r); [done..| |done].
      destruct rest as [|c rest]; [done|]. by destruct Hrest.
Qed.

(** [NUMBER_RE] takes the whole of a numeral that [float] accepts, where
    what follows cannot belong to a number. *)
Lemma number_run {X} (k : list byte → list (list byte) → option X)
    n rest caps r x :
  float_of_numeral n = Ok x → number_ends rest →
  k rest caps = Some r →
  rmatch NUMBER_RE (n ++ rest) caps k = Some r.
Proof.
  intros Hn Hrest Hk. unfold NUMBER_RE. rewrite rmatch_seq.
  destruct n as [|c n]; [done|].
  destruct (decide (c = "-"%byte)) as [->|Hc].
  - cbn [float_of_numeral] in Hn. cbn [app]. rewrite rmatch_opt, rmatch_lit.
    rewrite (digits_run_number k n rest caps r x); [done|by right|done..].
  - assert (float_of_digits false (c :: n) = Ok x) as Hn' by (by destruct c).
    cbn [app]. rewrite rmatch_opt, rmatch_lit_ne by done.
    by apply (digits_run_number k (c :: n) rest caps r x); [left|..].
Qed.

Lemma group_number_run {X} (k : list byte → list (list byte) → option X)
    n rest caps r x :
  float_of_numeral n = Ok x → number_ends rest →
  k rest (caps ++ [n]) = Some r →
  rmatch (Group NUMBER_RE) (n ++ rest) caps k = Some r.
Proof.
  intros Hn Hrest Hk. rewrite rmatch_group.
  apply (number_run _ n rest caps r x Hn Hrest).
  rewrite length_app, Nat.add_sub, take_app_length. done.
Qed.

Lemma numeral_head n x :
  float_of_numeral n = Ok x → stops bspace n.
Proof.
  destruct n as [|c n]; [done|]. cbn [stops].
  destruct (decide (c = "-"%byte)) as [->|Hc]; [done|].
  intros Hn. assert (float_of_digits false (c :: n) = Ok x) as Hn' by (by destruct c).
  apply float_of_digits_shape in Hn' as (ip & frac & Hw & Hne & Hip & _).
  destruct ip as [|d ip]; [done|]. injection Hw as -> _.
  cbn [forallb] in Hip. apply andb_true_iff in Hip as [Hd _].
  by apply bdigit_not_sign in Hd as (_ & _ & ?).
Qed.

Lemma spaces_end_number ws rest :
  ws ≠ [] → forallb bspace ws = true → number_ends (ws ++ rest).
Proof.
  destruct ws as [|c ws]; [done|]. cbn [forallb app number_ends].
  intros _ [Hc _]%andb_true_iff. by apply bspace_not_number in Hc as (? & ? & _).
Qed.

(** [MEDIABOX_RE] matches a media box entry at the front of the input and
    captures its four numerals. *)
Lemma rmatch_mediabox w0 w1 n1 w2 n2 w3 n3 w4 n4 w5 post x1 y1 x2 y2 :
  forallb bspace w0 = true → forallb bspace w1 = true →
  forallb bspace w2 = true → w2 ≠ [] →
  forallb bspace w3 = true → w3 ≠ [] →
  forallb bspace w4 = true → w4 ≠ [] →
  forallb bspace w5 = true →
  float_of_numeral n1 = Ok x1 → float_of_numeral n2 = Ok y1 →
  float_of_numeral n3 = Ok x2 → float_of_numeral n4 = Ok y2 →
  rmatch MEDIABOX_RE (mediabox_text w0 w1 n1 w2 n2 w3 n3 w4 n4 w5 ++ post) []
    (fun _ caps => Some caps)
  = Some [n1; n2; n3; n4].
Proof.
  intros H0 H1 H2 H2' H3 H3' H4 H4' H5 Hn1 Hn2 Hn3 Hn4.
  unfold MEDIABOX_RE, mediabox_text.
  rewrite <- !(assoc_L (++)). rewrite rmatch_lits.
  rewrite rmatch_seq. apply rmatch_star_run; [done|done|].
  cbn [app]. rewrite rmatch_seq, rmatch_lit, rmatch_seq.
  apply rmatch_star_run; [done| |].
  { apply stops_app; [by destruct n1|by apply (numeral_head n1 x1)]. }
  rewrite rmatch_seq. apply (group_number_run _ n1 _ _ _ x1); [done| |].
  { by apply spaces_end_number. }
  rewrite rmatch_seq. apply rmatch_plus_run; [done|done| |].
  { apply stops_app; [by destruct n2|by apply (numeral_head n2 y1)]. }
  rewrite rmatch_seq. apply (group_number_run _ n2 _ _ _ y1); [done| |].
  { by apply spaces_end_number. }
  rewrite rmatch_seq. apply rmatch_plus_run; [done|done| |].
  { apply stops_app; [by destruct n3|by apply (numeral_head n3 x2)]. }
  rewrite rmatch_seq. apply (group_number_run _ n3 _ _ _ x2); [done| |].
  { by apply spaces_end_number. }
  rewrite rmatch_seq. apply rmatch_plus_run; [done|done| |].
  { apply stops_app; [by destruct n4|by apply (numeral_head n4 y2)]. }
  rewrite rmatch_seq. apply (group_number_run _ n4 _ _ _ y2); [done| |].
  { destruct w5 as [|c w5]; [done|by apply spaces_end_number]. }
  rewrite rmatch_seq. apply rmatch_star_run; [done|done|].
  by rewrite rmatch_lit.
Qed.


(** ** The words [MEDIABOX_RE] matches *)

Lemma Match_seq_inv {A} (r1 r2 : regex A) w c :
  Match (Seq r1 r2) w c →
  ∃ w1 w2 c1 c2, w = w1 ++ w2 ∧ c = c1 ++ c2 ∧ Match r1 w1 c1 ∧ Match r2 w2 c2.
Proof.
  inversion 1 as [| |? ? w1 w2 c1 c2 H1 H2| | | | |]; subst.
  by exists w1, w2, c1, c2.
Qed.

Lemma Match_lit_inv {A} (a : A) w c : Match (Lit a) w c → w = [a] ∧ c = [].
Proof. by inversion 1. Qed.

Lemma Match_lits bs (r : regex byte) w c :
  Match (lits bs r) w c → ∃ w', w = bs ++ w' ∧ Match r w' c.
Proof.
  revert w c. induction bs as [|b bs IH]; intros w c; cbn [lits].
  - intros Hm. by exists w.
  - intros (w1 & w2 & c1 & c2 & -> & -> & [-> ->]%Match_lit_inv & Hm)%Match_seq_inv.
    apply IH in Hm as (w' & -> & Hm). by exists w'.
Qed.

Lemma Match_spaces w c :
  Match (Star (Class bspace)) w c → forallb bspace w = true ∧ c = [].
Proof.
  intros Hm. split; [by apply Match_star_class in Hm|].
  by apply Match_group_free in Hm.
Qed.

Lemma Match_spaces_plus w c :
  Match (plus (Class bspace)) w c → (w ≠ [] ∧ forallb bspace w = true) ∧ c = [].
Proof.
  intros Hm. split; [|by apply Match_group_free in Hm].
  apply Match_plus_class in Hm as (a & w' & -> & Ha & Hw).
  split; [done|]. cbn [forallb]. by rewrite Ha, Hw.
Qed.

(** [NUMBER_RE] matches numerals only. *)
Lemma Match_number w c :
  Match NUMBER_RE w c → ∃ n, numeral_ok n ∧ w = numeral_text n.
Proof.
  unfold NUMBER_RE.
  intros (sgn & w' & c1 & c' & -> & -> & Hsgn & Hrest)%Match_seq_inv.
  apply Match_seq_inv in Hrest as (ip & fr & c2 & c3 & -> & -> & Hip & Hfr).
  apply Match_plus_class in Hip as (d & ds & -> & Hd & Hds).
  assert (Hdd : forallb bdigit (d :: ds) = true) by (cbn; by rewrite Hd, Hds).
  assert (∃ fp, forallb bdigit fp = true
                ∧ fr = match fp with [] => [] | _ => "."%byte :: fp end)
    as (fp & Hfp & ->).
  { inversion Hfr as [| | |? |? ? ? Hf| | |]; subst; [by exists []|].
    apply Match_seq_inv in Hf as (w1 & w2 & c4 & c5 & -> & _ & [-> _]%Match_lit_inv & Hf).
    apply Match_plus_class in Hf as (f & fs & -> & Hf1 & Hfs).
    exists (f :: fs). split; [|done]. cbn. by rewrite Hf1, Hfs. }
  inversion Hsgn as [| | |? |? ? ? Hminus| | |]; subst.
  - by exists (Numeral false (d :: ds) fp).
  - apply Match_lit_inv in Hminus as [-> _]. by exists (Numeral true (d :: ds) fp).
Qed.

Lemma Match_number_group w c :
  Match (Group NUMBER_RE) w c → ∃ n, numeral_ok n ∧ w = numeral_text n ∧ c = [w].
Proof.
  inversion 1 as [| | | | | | |? ? c' Hm]; subst.
  pose proof (Match_group_free _ _ _ Hm eq_refl) as ->.
  apply Match_number in Hm as (n & Hn & ->). by exists n.
Qed.

(** [MEDIABOX_RE] matches media box entries only, and captures their four
    numerals. *)
Lemma Match_mediabox w c :
  Match MEDIABOX_RE w c →
  ∃ w0 w1 n1 w2 n2 w3 n3 w4 n4 w5,
    w = mediabox_text w0 w1 (numeral_text n1) w2 (numeral_text n2)
                      w3 (numeral_text n3) w4 (numeral_text n4) w5
    ∧ box_ok w0 w1 w2 w3 w4 w5
    ∧ numeral_ok n1 ∧ numeral_ok n2 ∧ numeral_ok n3 ∧ numeral_ok n4
    ∧ c = [numeral_text n1; numeral_text n2; numeral_text n3; numeral_text n4].
Proof.
  unfold MEDIABOX_RE.
  intros (w' & -> & Hm)%Match_lits.
  apply Match_seq_inv in Hm as (w0 & ? & ? & ? & -> & -> & [H0 ->]%Match_spaces & Hm).
  apply Match_seq_inv in Hm as (? & ? & ? & ? & -> & -> & [-> ->]%Match_lit_inv & Hm).
  apply Match_seq_inv in Hm as (w1 & ? & ? & ? & -> & -> & [H1 ->]%Match_spaces & Hm).
  apply Match_seq_inv in Hm
    as (? & ? & ? & ? & -> & -> & (n1 & Hn1 & -> & ->)%Match_number_group & Hm).
  apply Match_seq_inv in Hm as (w2 & ? & ? & ? & -> & -> & [H2 ->]%Match_spaces_plus & Hm).
  apply Match_seq_inv in Hm
    as (? & ? & ? & ? & -> & -> & (n2 & Hn2 & -> & ->)%Match_number_group & Hm).
  apply Match_seq_inv in Hm as (w3 & ? & ? & ? & -> & -> & [H3 ->]%Match_spaces_plus & Hm).
  apply Match_seq_inv in Hm
    as (? & ? & ? & ? & -> & -> & (n3 & Hn3 & -> & ->)%Match_number_group & Hm).
  apply Match_seq_inv in Hm as (w4 & ? & ? & ? & -> & -> & [H4 ->]%Match_spaces_plus & Hm).
  apply Match_seq_inv in Hm
    as (? & ? & ? & ? & -> & -> & (n4 & Hn4 & -> & ->)%Match_number_group & Hm).
  apply Match_seq_inv in Hm as (w5 & ? & ? & ? & -> & -> & [H5 ->]%Match_spaces & Hm).
  apply Match_lit_inv in Hm as [-> ->].
  exists w0, w1, n1, w2, n2, w3, n3, w4, n4, w5.
  split; [done|]. split; [done|]. done.
Qed.

(** A match at the front of the input is a media box entry there. *)
Lemma rmatch_box_at s caps :
  rmatch MEDIABOX_RE s [] (fun _ caps => Some caps) = Some caps →
  ∃ w0 w1 n1 w2 n2 w3 n3 w4 n4 w5 post,
    s = mediabox_text w0 w1 (numeral_text n1) w2 (numeral_text n2)
                      w3 (numeral_text n3) w4 (numeral_text n4) w5 ++ post
    ∧ box_ok w0 w1 w2 w3 w4 w5
    ∧ numeral_ok n1 ∧ numeral_ok n2 ∧ numeral_ok n3 ∧ numeral_ok n4
    ∧ caps = [numeral_text n1; numeral_text n2; numeral_text n3; numeral_text n4].
Proof.
  intros (w & post & c & -> & Hm & [= <-])%rmatch_sound.
  apply Match_mediabox in Hm
    as (w0 & w1 & n1 & w2 & n2 & w3 & n3 & w4 & n4 & w5 & -> & Hok & H1 & H2 & H3
        & H4 & ->).
  by exists w0, w1, n1, w2, n2, w3, n3, w4, n4, w5, post.
Qed.

Lemma rmatch_no_box s :
  ¬ box_at s → rmatch MEDIABOX_RE s [] (fun _ caps => Some caps) = None.
Proof.
  intros Hno. destruct (rmatch _ _ _ _) as [caps|] eqn:Hm; [|done].
  destruct Hno. apply rmatch_box_at in Hm
    as (w0 & w1 & n1 & w2 & n2 & w3 & n3 & w4 & n4 & w5 & post & -> & Hok & H1 & H2
        & H3 & H4 & _).
  by exists w0, w1, n1, w2, n2, w3, n3, w4, n4, w5, post.
Qed.

(** What the search reports is a media box entry of the input. *)
Lemma re_search_box s caps :
  re_search MEDIABOX_RE s = Some caps →
  ∃ pre w0 w1 n1 w2 n2 w3 n3 w4 n4 w5 post,
    s = pre ++ mediabox_text w0 w1 (numeral_text n1) w2 (numeral_text n2)
                             w3 (numeral_text n3) w4 (numeral_text n4) w5 ++ post
    ∧ box_ok w0 w1 w2 w3 w4 w5
    ∧ numeral_ok n1 ∧ numeral_ok n2 ∧ numeral_ok n3 ∧ numeral_ok n4
    ∧ caps = [numeral_text n1; numeral_text n2; numeral_text n3; numeral_text n4].
Proof.
  assert (Hhere : ∀ s, rmatch MEDIABOX_RE s [] (fun _ caps => Some caps) = Some caps →
    ∃ pre w0 w1 n1 w2 n2 w3 n3 w4 n4 w5 post,
      s = pre ++ mediabox_text w0 w1 (numeral_text n1) w2 (numeral_text n2)
                               w3 (numeral_text n3) w4 (numeral_text n4) w5 ++ post
      ∧ box_ok w0 w1 w2 w3 w4 w5
      ∧ numeral_ok n1 ∧ numeral_ok n2 ∧ numeral_ok n3 ∧ numeral_ok n4
      ∧ caps = [numeral_text n1; numeral_text n2; numeral_text n3; numeral_text n4]).
  { intros s' Hm. apply rmatch_box_at in Hm
      as (w0 & w1 & n1 & w2 & n2 & w3 & n3 & w4 & n4 & w5 & post & -> & Hrest).
    by exists [], w0, w1, n1, w2, n2, w3, n3, w4, n4, w5, post. }
  induction s as [|b s IH]; cbn [re_search].
  - destruct (rmatch MEDIABOX_RE [] [] _) as [c|] eqn:Hm; [|done].
    intros [= ->]. by apply Hhere.
  - destruct (rmatch MEDIABOX_RE (b :: s) [] _) as [c|] eqn:Hm.
    + intros [= ->]. by apply Hhere.
    + intros Hs. apply IH in Hs
        as (pre & w0 & w1 & n1 & w2 & n2 & w3 & n3 & w4 & n4 & w5 & post & -> & Hrest).
      by exists (b :: pre), w0, w1, n1, w2, n2, w3, n3, w4, n4, w5, post.
Qed.

(** [float] reads a numeral as the binary64 nearest to its value. *)
Lemma numeral_float n :
  numeral_ok n → float_of_numeral (numeral_text n) = Ok (numeral_value n).
Proof.
  destruct n as [neg ip fp]. unfold numeral_ok, numeral_text, numeral_value.
  cbn [num_neg num_int num_frac]. intros (Hne & Hip & Hfp).
  set (frac := match fp with [] => [] | _ => "."%byte :: fp end).
  assert (Hspan : span_digits (ip ++ frac) = (ip, frac)).
  { apply span_digits_app; [done|]. unfold frac. by destruct fp. }
  assert (Hbody : float_of_digits neg (ip ++ frac)
                  = Ok (float_of_decimal neg (bdigits_value 0 (ip ++ fp))
                                         (Z.of_nat (length fp)))).
  { unfold float_of_digits. rewrite Hspan.
    destruct ip as [|d ds]; [done|]. unfold frac. destruct fp as [|f fs].
    - by rewrite app_nil_r.
    - pose proof (span_digits_app (f :: fs) [] Hfp I) as Hsp.
      rewrite app_nil_r in Hsp. by rewrite Hsp. }
  destruct neg; [done|]. cbn [app].
  destruct ip as [|d ds]; [done|]. cbn [forallb] in Hip.
  apply andb_true_iff in Hip as [Hd _].
  cbn [app]. by rewrite (float_of_numeral_unsigned d _ Hd).
Qed.

(** The search reports the first media box entry of the input. *)
Lemma re_search_first_box pre w0 w1 n1 w2 n2 w3 n3 w4 n4 w5 post :
  let box := mediabox_text w0 w1 (numeral_text n1) w2 (numeral_text n2)
                           w3 (numeral_text n3) w4 (numeral_text n4) w5 in
  box_ok w0 w1 w2 w3 w4 w5 →
  numeral_ok n1 → numeral_ok n2 → numeral_ok n3 → numeral_ok n4 →
  (∀ skipped rest, pre = skipped ++ rest → rest ≠ [] → ¬ box_at (rest ++ box ++ post)) →
  re_search MEDIABOX_RE (pre ++ box ++ post)
  = Some [numeral_text n1; numeral_text n2; numeral_text n3; numeral_text n4].
Proof.
  intros box (H0 & H1 & [H2' H2] & [H3' H3] & [H4' H4] & H5) Hn1 Hn2 Hn3 Hn4.
  induction pre as [|b pre IH]; intros Hfirst.
  - cbn [app]. apply re_search_here.
    apply (rmatch_mediabox w0 w1 _ w2 _ w3 _ w4 _ w5 post
             (numeral_value n1) (numeral_value n2) (numeral_value n3)
             (numeral_value n4)); try done; by apply numeral_float.
  - cbn [app re_search]. rewrite rmatch_no_box.
    + apply IH. intros skipped rest -> Hrest.
      by apply (Hfirst (b :: skipped) rest).
    + by apply (Hfirst [] (b :: pre)).
Qed.

Lemma re_search_no_box s :
  (∀ pre rest, s = pre ++ rest → ¬ box_at rest) → re_search MEDIABOX_RE s = None.
Proof.
  intros Hno. destruct (re_search MEDIABOX_RE s) as [caps|] eqn:Hs; [|done].
  apply re_search_box in Hs
    as (pre & w0 & w1 & n1 & w2 & n2 & w3 & n3 & w4 & n4 & w5 & post & -> & Hok & H1
        & H2 & H3 & H4 & _).
  destruct (Hno pre _ eq_refl).
  by exists w0, w1, n1, w2, n2, w3, n3, w4, n4, w5, post.
Qed.

(** An entry starts with the solidus of its name. *)
Lemma box_at_head s : box_at s → ∃ rest, s = "/"%byte :: rest.
Proof.
  intros (w0 & w1 & n1 & w2 & n2 & w3 & n3 & w4 & n4 & w5 & post & -> & _).
  by eexists.
Qed.

(** The raw scan on a document, in the three cases: no entry; a first
    entry; and in any case one of the two. *)
Lemma scan_bytes_no_box document :
  (∀ pre rest, document = pre ++ rest → ¬ box_at rest) → scan_bytes document = Ok "".
Proof. intros Hno. unfold scan_bytes. by rewrite re_search_no_box. Qed.

Lemma scan_bytes_first_box pre w0 w1 n1 w2 n2 w3 n3 w4 n4 w5 post :
  let box := mediabox_text w0 w1 (numeral_text n1) w2 (numeral_text n2)
                           w3 (numeral_text n3) w4 (numeral_text n4) w5 in
  box_ok w0 w1 w2 w3 w4 w5 →
  numeral_ok n1 → numeral_ok n2 → numeral_ok n3 → numeral_ok n4 →
  (∀ skipped rest, pre = skipped ++ rest → rest ≠ [] → ¬ box_at (rest ++ box ++ post)) →
  scan_bytes (pre ++ box ++ post)
  = Ok (custom_media (SFabs (fsub (numeral_value n3) (numeral_value n1)))
                     (SFabs (fsub (numeral_value n4) (numeral_value n2)))).
Proof.
  intros box Hok Hn1 Hn2 Hn3 Hn4 Hfirst. unfold scan_bytes.
  pose proof (re_search_first_box pre w0 w1 n1 w2 n2 w3 n3 w4 n4 w5 post
                Hok Hn1 Hn2 Hn3 Hn4 Hfirst) as Hs.
  cbv zeta in Hs. fold box in Hs. rewrite Hs. by rewrite !numeral_float.
Qed.

Lemma scan_bytes_outcomes document :
  scan_bytes document = Ok ""
  ∨ ∃ pre w0 w1 n1 w2 n2 w3 n3 w4 n4 w5 post,
      document = pre ++ mediabox_text w0 w1 (numeral_text n1) w2 (numeral_text n2)
                          w3 (numeral_text n3) w4 (numeral_text n4) w5 ++ post
      ∧ box_ok w0 w1 w2 w3 w4 w5
      ∧ numeral_ok n1 ∧ numeral_ok n2 ∧ numeral_ok n3 ∧ numeral_ok n4
      ∧ scan_bytes document
        = Ok (custom_media (SFabs (fsub (numeral_value n3) (numeral_value n1)))
                           (SFabs (fsub (numeral_value n4) (numeral_value n2)))).
Proof.
  unfold scan_bytes.
  destruct (re_search MEDIABOX_RE document) as [caps|] eqn:Hs; [|by left].
  apply re_search_box in Hs
    as (pre & w0 & w1 & n1 & w2 & n2 & w3 & n3 & w4 & n4 & w5 & post & -> & Hok & H1
        & H2 & H3 & H4 & ->).
  right. exists pre, w0, w1, n1, w2, n2, w3, n3, w4, n4, w5, post.
  by rewrite !numeral_float.
Qed.

(** ** Media inference on a host *)

Section Media.
Context `{Host}.

Lemma scan_bytes_shape document :
  scan_bytes document = Ok ""
  ∨ ∃ w h, scan_bytes document = Ok (custom_media (SFabs w) (SFabs h)).
Proof.
  destruct (scan_bytes_outcomes document)
    as [->|(pre & w0 & w1 & n1 & w2 & n2 & w3 & n3 & w4 & n4 & w5 & post & _ & _ & _
            & _ & _ & _ & ->)]; [by left|].
  right. by eexists _, _.
Qed.

(** Every outcome of [_pdf_media_auto]. *)
Lemma pdf_media_auto_shape payload :
  _pdf_media_auto payload = Ok ""
  ∨ (∃ w h, _pdf_media_auto payload = Ok (custom_media (SFabs w) (SFabs h)))
  ∨ ∃ e, _pdf_media_auto payload = Raise e
         ∧ ((read_pdf payload = Raise e ∧ is_Exception e = false)
            ∨ (bytes_like payload = None
               ∧ e = Exn TypeError (scan_type_error payload))).
Proof.
  assert (Hscan : mediabox_by_regex payload = Ok ""
    ∨ (∃ w h, mediabox_by_regex payload = Ok (custom_media (SFabs w) (SFabs h)))
    ∨ ∃ e, mediabox_by_regex payload = Raise e
           ∧ bytes_like payload = None
           ∧ e = Exn TypeError (scan_type_error payload)).
  { unfold mediabox_by_regex. destruct (bytes_like payload) as [document|].
    - destruct (scan_bytes_shape document) as [->|(w & h & ->)];
        [by left|right; left; by eexists _, _].
    - right. right. by eexists. }
  unfold _pdf_media_auto.
  destruct (read_pdf payload) as [[box|]|e].
  - right. left. by eexists _, _.
  - destruct Hscan as [->|[(w & h & ->)|(e & -> & Hb & ->)]];
      [by left|right; left; by eexists _, _|].
    right. right. eexists. split; [done|]. by right.
  - destruct (is_Exception e) eqn:He.
    + destruct Hscan as [->|[(w & h & ->)|(e' & -> & Hb & ->)]];
        [by left|right; left; by eexists _, _|].
      right. right. eexists. split; [done|]. by right.
    + right. right. exists e. split; [done|]. by left.
Qed.

(** Where pypdf finds no page or raises, the raw scan decides. *)
Lemma pdf_media_auto_scan payload document :
  bytes_like payload = Some document →
  (read_pdf payload = Ok None
   ∨ ∃ e, read_pdf payload = Raise e ∧ is_Exception e = true) →
  _pdf_media_auto payload = scan_bytes document.
Proof.
  intros Hbytes Hfail. unfold _pdf_media_auto, mediabox_by_regex. rewrite Hbytes.
  by destruct Hfail as [->|(e & -> & ->)].
Qed.

(** C4: where pypdf finds no page or raises, [_pdf_media_auto] takes the
    first [/MediaBox [x1 y1 x2 y2]] of the raw bytes: four numerals, each
    an optional minus sign, digits and an optional point with digits,
    white space between them, optional white space after the name and
    inside the brackets.  Without such an entry the result is the empty
    text; with one, the result is [Custom.<W>x<H>mm] for the formatted
    [abs(x2 - x1) * 25.4 / 72.0] and [abs(y2 - y1) * 25.4 / 72.0], the
    numerals read as the nearest binary64; and no other result is
    returned.  [_format_mm] writes a number rounded to hundredths, without
    trailing zeros or a bare point, never as the empty text: 48.00 as
    [48], 47.50 as [47.5], 0.00 as [0]. *)
Theorem pdf_media_auto_fallback (payload : pyobj) (document : list byte) :
  bytes_like payload = Some document →
  (read_pdf payload = Ok None
   ∨ ∃ e, read_pdf payload = Raise e ∧ is_Exception e = true) →
  ((∀ pre rest, document = pre ++ rest → ¬ box_at rest) →
   _pdf_media_auto payload = Ok "")
  ∧ (∀ pre w0 w1 n1 w2 n2 w3 n3 w4 n4 w5 post,
       let box := mediabox_text w0 w1 (numeral_text n1) w2 (numeral_text n2)
                                w3 (numeral_text n3) w4 (numeral_text n4) w5 in
       document = pre ++ box ++ post →
       box_ok w0 w1 w2 w3 w4 w5 →
       numeral_ok n1 → numeral_ok n2 → numeral_ok n3 → numeral_ok n4 →
       (∀ skipped rest, pre = skipped ++ rest → rest ≠ [] →
                        ¬ box_at (rest ++ box ++ post)) →
       _pdf_media_auto payload =
         Ok ("Custom."
             +:+ _format_mm (fdiv (fmul (SFabs (fsub (numeral_value n3)
                                                     (numeral_value n1)))
                                        mm_per_inch) points_per_inch)
             +:+ "x"
             +:+ _format_mm (fdiv (fmul (SFabs (fsub (numeral_value n4)
                                                     (numeral_value n2)))
                                        mm_per_inch) points_per_inch)
             +:+ "mm"))
  ∧ (_pdf_media_auto payload = Ok ""
     ∨ ∃ pre w0 w1 n1 w2 n2 w3 n3 w4 n4 w5 post,
         document = pre ++ mediabox_text w0 w1 (numeral_text n1) w2 (numeral_text n2)
                             w3 (numeral_text n3) w4 (numeral_text n4) w5 ++ post
         ∧ box_ok w0 w1 w2 w3 w4 w5
         ∧ numeral_ok n1 ∧ numeral_ok n2 ∧ numeral_ok n3 ∧ numeral_ok n4
         ∧ _pdf_media_auto payload
           = Ok (custom_media (SFabs (fsub (numeral_value n3) (numeral_value n1)))
                              (SFabs (fsub (numeral_value n4) (numeral_value n2)))))
  ∧ (∀ s m e,
       _format_mm (S754_finite s m e)
       = sign_text s
         +:+ str_of_nonneg (round_half_even (Z.pos m * 100) e / 100)
         +:+ spec_decimals (round_half_even (Z.pos m * 100) e mod 100))
  ∧ (∀ x, _format_mm x ≠ "")
  ∧ _resolve_media (Some "auto") payload = _pdf_media_auto payload
  ∧ _format_mm (float_of_decimal false 4800 2) = "48"
  ∧ _format_mm (float_of_decimal false 4750 2) = "47.5"
  ∧ _format_mm (float_of_decimal false 0 2) = "0"
  ∧ scan_bytes (list_byte_of_string "<< /MediaBox [0 0 136 85] >>")
    = Ok "Custom.47.98x29.99mm"
  ∧ scan_bytes (list_byte_of_string "/MediaBox [0 0 72 72] /MediaBox[ -2 0 3 4 ]")
    = Ok "Custom.25.4x25.4mm"
  ∧ scan_bytes spaced_box = Ok "Custom.25.4x50.89mm"
  ∧ scan_bytes (list_byte_of_string "/MediaBox [ 0 0 0.004 0.005 ]")
    = Ok "Custom.0x0mm"
  ∧ scan_bytes (list_byte_of_string "/MediaBox [12 3 4]") = Ok ""
  ∧ scan_bytes (list_byte_of_string "/MediaBox [0 0 1. 1]") = Ok ""
  ∧ scan_bytes (list_byte_of_string "/MediaBox [0 0 +1 1e3]") = Ok "".
Proof.
  intros Hbytes Hfail.
  rewrite (pdf_media_auto_scan payload document Hbytes Hfail).
  split; [apply scan_bytes_no_box|].
  split.
  { intros pre w0 w1 n1 w2 n2 w3 n3 w4 n4 w5 post box -> Hok H1 H2 H3 H4 Hfirst.
    by apply scan_bytes_first_box. }
  split; [apply scan_bytes_outcomes|].
  split; [apply format_mm_finite|].
  split; [apply format_mm_nonempty|].
  split.
  { unfold _resolve_media. cbn. apply (pdf_media_auto_scan _ _ Hbytes Hfail). }
  by vm_compute.
Qed.

(** X11: media resolution never raises an [Exception].  For every policy
    and document [_resolve_media] returns an identifier, unless pypdf
    itself raises an exception that is not an [Exception] (a
    [KeyboardInterrupt], say), which then comes out of [_pdf_media_auto]
    and [_resolve_media] as it is.  In particular no [ValueError] of [float]
    or of the unpacking of the groups can come out of the raw scan. *)
Theorem resolve_media_no_exception (media_value : option string) (payload : list byte) :
  (∃ media, _resolve_media media_value (PBytes payload) = Ok media)
  ∨ ∃ e, first_page_mediabox payload = Raise e ∧ is_Exception e = false
         ∧ _resolve_media media_value (PBytes payload) = Raise e
         ∧ _pdf_media_auto (PBytes payload) = Raise e.
Proof.
  unfold _resolve_media.
  destruct (String.eqb (strip _) ""); [left; by eexists|].
  destruct (String.eqb (lower _) "auto"); [|left; by eexists].
  destruct (pdf_media_auto_shape (PBytes payload))
    as [->|[(w & h & ->)|(e & Hr & [[He Hc]|[Hb _]])]];
    [left; by eexists..| |done].
  right. exists e. by rewrite Hr.
Qed.

(** X12: where pypdf reads a first page, [_pdf_media_auto] names the medium
    from the media box of that page alone, [abs(right - left)] by
    [abs(top - bottom)] points, whatever the raw bytes hold; and a box
    given with its corners exchanged names the same medium. *)
Theorem pdf_media_auto_structured (payload : list byte) (box : mediabox) :
  first_page_mediabox payload = Ok (Some box) →
  _pdf_media_auto (PBytes payload)
  = Ok (custom_media (SFabs (fsub (box_right box) (box_left box)))
                     (SFabs (fsub (box_top box) (box_bottom box))))
  ∧ (∀ other,
       first_page_mediabox other
       = Ok (Some (MediaBox (box_right box) (box_top box)
                            (box_left box) (box_bottom box))) →
       _pdf_media_auto (PBytes other) = _pdf_media_auto (PBytes payload)).
Proof.
  intros Hbox. unfold _pdf_media_auto, read_pdf. cbn [bytes_like].
  rewrite Hbox. split; [done|].
  intros other ->. cbn [box_left box_right box_top box_bottom].
  by rewrite (fsub_abs_sym (box_left box)), (fsub_abs_sym (box_bottom box)).
Qed.

(** X13: an identifier that [_resolve_media] returns is a fixed point of
    the resolver: it is trimmed and is not [auto], and given back as the
    policy, with any document, it resolves to itself. *)
Theorem resolve_media_stable (media_value : option string)
    (payload other : pyobj) (media : string) :
  _resolve_media media_value payload = Ok media →
  _resolve_media (Some media) other = Ok media
  ∧ strip media = media ∧ lower media ≠ "auto".
Proof.
  unfold _resolve_media at 1.
  set (m := strip (str_or_default media_value "")).
  assert (Hexplicit : ∀ s, s ≠ "" → strip s = s → lower s ≠ "auto" →
            _resolve_media (Some s) other = Ok s ∧ strip s = s ∧ lower s ≠ "auto").
  { intros s Hne Hs Hl. split; [|done]. unfold _resolve_media.
    rewrite str_or_default_empty, Hs.
    by rewrite (eqb_false_ne _ _ Hne), (eqb_false_ne _ _ Hl). }
  destruct (String.eqb m "") eqn:Hm; [by intros [= <-]|].
  apply String.eqb_neq in Hm.
  destruct (String.eqb (lower m) "auto") eqn:Hauto.
  - destruct (pdf_media_auto_shape payload) as [->|[(w & h & ->)|(e & -> & _)]].
    + by intros [= <-].
    + intros [= <-]. destruct (custom_media_fixed (SFabs w) (SFabs h)) as (? & ? & ?).
      by apply Hexplicit.
    + done.
  - apply String.eqb_neq in Hauto. intros [= <-].
    apply Hexplicit; [done| |done]. apply strip_idemp.
Qed.

(** X14: a media name that [_pdf_media_auto] returns holds no minus sign:
    width and height are absolute values, and neither the conversion to
    millimetres nor [_format_mm] brings a sign back, not even for a
    negative zero. *)
Theorem pdf_media_auto_unsigned (payload : pyobj) (media : string) :
  _pdf_media_auto payload = Ok media → contains "-" media = false.
Proof.
  destruct (pdf_media_auto_shape payload) as [->|[(w & h & ->)|(e & -> & _)]].
  - by intros [= <-].
  - intros [= <-]. apply custom_media_unsigned.
  - done.
Qed.


End Media.

Lemma pdf_media_auto_fallback_witness :
  @_pdf_media_auto plain_host (PBytes (list_byte_of_string "/MediaBox [0 0 136.5 -85]"))
  = Ok "Custom.48.15x29.99mm"
  ∧ @_pdf_media_auto plain_host (PByteArray []) = Ok "".
Proof.
  split.
  - destruct (@pdf_media_auto_fallback plain_host
                (PBytes (list_byte_of_string "/MediaBox [0 0 136.5 -85]"))
                (list_byte_of_string "/MediaBox [0 0 136.5 -85]") eq_refl)
      as (_ & Hbox & _).
    + right. eexists. split; reflexivity.
    + rewrite (Hbox [] (list_byte_of_string " ") []
                 (Numeral false (list_byte_of_string "0") [])
                 (list_byte_of_string " ")
                 (Numeral false (list_byte_of_string "0") [])
                 (list_byte_of_string " ")
                 (Numeral false (list_byte_of_string "136") (list_byte_of_string "5"))
                 (list_byte_of_string " ")
                 (Numeral true (list_byte_of_string "85") []) [] []).
      * vm_compute. reflexivity.
      * reflexivity.
      * repeat split; (reflexivity || discriminate).
      * repeat split; (reflexivity || discriminate).
      * repeat split; (reflexivity || discriminate).
      * repeat split; (reflexivity || discriminate).
      * repeat split; (reflexivity || discriminate).
      * intros skipped rest Hpre Hrest. by destruct skipped, rest.
  - destruct (@pdf_media_auto_fallback plain_host (PByteArray []) [] eq_refl)
      as (Hnone & _).
    + right. eexists. split; reflexivity.
    + apply Hnone. intros pre rest Hdoc Hbox.
      apply box_at_head in Hbox as [tail ->]. by destruct pre.
Defined.

(** The scan on a host that has no PDF reader: a document, a document
    without an entry, a buffer that is not [bytes], and objects that are
    no documents. *)
Example pdf_media_auto_example :
  @_pdf_media_auto plain_host (PBytes (list_byte_of_string "<< /MediaBox [0 0 136 85] >>"))
  = Ok "Custom.47.98x29.99mm"
  ∧ @_pdf_media_auto plain_host (PBytes (list_byte_of_string "%PDF-1.4")) = Ok ""
  ∧ @_pdf_media_auto plain_host (PObject "memoryview" true (Some spaced_box))
    = Ok "Custom.25.4x50.89mm"
  ∧ @_pdf_media_auto plain_host PNone
    = Raise (Exn TypeError "expected string or bytes-like object, got 'NoneType'")
  ∧ @_pdf_media_auto plain_host (PInt 5)
    = Raise (Exn TypeError "expected string or bytes-like object, got 'int'").
Proof. by vm_compute. Qed.

Lemma pdf_media_auto_structured_witness :
  @_pdf_media_auto reading_host (PBytes []) = Ok "Custom.47.98x29.99mm".
Proof.
  destruct (@pdf_media_auto_structured reading_host []
              (MediaBox zero zero (float_of_decimal false 136 0)
                        (float_of_decimal false 85 0))) as [H _].
  - reflexivity.
  - rewrite H. reflexivity.
Defined.

Lemma resolve_media_stable_witness :
  @_resolve_media plain_host (Some "Custom.48x30mm") (PBytes []) = Ok "Custom.48x30mm"
  ∧ strip "Custom.48x30mm" = "Custom.48x30mm" ∧ lower "Custom.48x30mm" ≠ "auto".
Proof.
  apply (@resolve_media_stable plain_host (Some " Custom.48x30mm ")
           (PBytes []) (PBytes [])).
  reflexivity.
Defined.

Lemma pdf_media_auto_unsigned_witness :
  contains "-" "Custom.47.98x29.99mm" = false.
Proof.
  apply (@pdf_media_auto_unsigned plain_host
           (PBytes (list_byte_of_string "<< /MediaBox [136 85 0 0] >>"))).
  reflexivity.
Defined.


(** ** Submission on a host *)

Section Submission.
Context `{Host}.

(** The tag table after [_print_via_ipp]. *)
Lemma print_via_ipp_tags host port queue payload media copies title x text tags :
  (_print_via_ipp host port queue payload media copies title x text tags).2 = tags
  ∨ (_print_via_ipp host port queue payload media copies title x text tags).2
    = (_parse_job_options text tags).2.
Proof.
  unfold _print_via_ipp. destruct (_resolve_media media payload); [|by left].
  destruct (_parse_job_options text tags) as [[parsed|e] tags']; [|by right].
  destruct (_feed_options x); by right.
Qed.

(** What the parser raises is the [ValueError] of [int] on a value of too
    many digits. *)
Lemma parse_job_options_raises text tags e :
  (_parse_job_options text tags).1 = Raise e →
  ∃ value, oversized value = true ∧ e = int_limit_error (digit_count value).
Proof.
  rewrite parse_job_options_steps. cbn [fst]. unfold first_oversized.
  destruct (filter _ (spec_tokens text)) as [|token tokens] eqn:Hfilter; [done|].
  cbn [head]. intros [= <-].
  assert (Hin : token ∈ filter (λ token, token_oversized token = true)
                               (spec_tokens text)).
  { rewrite Hfilter. by left. }
  apply list_elem_of_filter in Hin as [Hover _].
  exists (strip (split1 "=" token).2). split; [|done].
  unfold token_oversized in Hover. by destruct (spec_binding token).
Qed.

(** X16: every way [_print_via_ipp] ends, for a feed that is a binary64.
    Media resolution raises, and nothing else has happened: pypdf raised
    an exception that is not an [Exception], or the payload is no
    bytes-like object and the raw scan raised [TypeError].  Or the parser
    raises the [ValueError] of [int] on a value of more than 4300 digits,
    with the tags of the tokens before it registered.  Or the feed is not
    finite and above zero, and [round] raises after the parse.  Or the
    message is assembled and handed to the printer. *)
Theorem print_via_ipp_outcomes (host : string) (port : Z) (queue : string)
    (payload : pyobj) (media : option string) (copies : Z) (title : string)
    (x : float) (text : string) (tags : gmap string IppTag) :
  valid_binary prec emax x = true →
  let r := _print_via_ipp host port queue payload media copies title x text tags in
  let parsed := _parse_job_options text tags in
  (∃ e, _resolve_media media payload = Raise e ∧ r = (Raise e, tags)
        ∧ ((read_pdf payload = Raise e ∧ is_Exception e = false)
           ∨ (bytes_like payload = None
              ∧ e = Exn TypeError (scan_type_error payload))))
  ∨ (∃ media_resolved value,
       _resolve_media media payload = Ok media_resolved
       ∧ oversized value = true
       ∧ parsed.1 = Raise (int_limit_error (digit_count value))
       ∧ r = (Raise (int_limit_error (digit_count value)), parsed.2))
  ∨ (∃ options e, parsed.1 = Ok options
          ∧ is_finite x = false ∧ SFleb x zero = false
          ∧ _feed_options x = Raise e ∧ r = (Raise e, parsed.2))
  ∨ (∃ media_resolved options feed,
       _resolve_media media payload = Ok media_resolved
       ∧ parsed.1 = Ok options
       ∧ _feed_options x = Ok feed
       ∧ r = (ipp_execute parsed.2 (_printer_uri host port queue)
                (print_job_message
                   (job_attrs title copies options feed media_resolved) payload),
              parsed.2)).
Proof.
  intros Hvalid. cbv zeta.
  destruct (_resolve_media media payload) as [media_resolved|e] eqn:Hmedia.
  - destruct (_parse_job_options text tags).1 as [options|e] eqn:Hparsed.
    + destruct (_feed_options x) as [feed|e] eqn:Hfeed.
      * right. right. right. exists media_resolved, options, feed.
        split; [done|]. split; [done|]. split; [done|].
        by apply print_via_ipp_submits.
      * right. right. left. exists options, e.
        destruct (feed_options_raise x e Hfeed) as [Hle _].
        assert (Hfin : is_finite x = false).
        { destruct (is_finite x) eqn:Hfin; [|done].
          destruct (feed_options_ok x Hvalid (or_introl Hfin)) as [feed Hok].
          congruence. }
        split; [done|]. split; [done|]. split; [done|]. split; [done|].
        unfold _print_via_ipp. rewrite Hmedia.
        destruct (_parse_job_options text tags) as [r tags']. cbn [fst snd] in *.
        by rewrite Hparsed, Hfeed.
    + right. left.
      destruct (parse_job_options_raises text tags e Hparsed) as (value & Hover & ->).
      exists media_resolved, value. split; [done|]. split; [done|]. split; [done|].
      by apply (print_via_ipp_parse_raises _ _ _ _ _ _ _ _ _ _ media_resolved).
  - left. exists e. split; [done|].
    split; [unfold _print_via_ipp; by rewrite Hmedia|].
    assert (Hauto : _pdf_media_auto payload = Raise e).
    { unfold _resolve_media in Hmedia.
      destruct (String.eqb (strip _) ""); [done|].
      by destruct (String.eqb (lower _) "auto"). }
    destruct (pdf_media_auto_shape payload) as [Hs|[(w & h & Hs)|(e' & Hs & Hcause)]];
      [congruence..|].
    by assert (e' = e) as -> by congruence.
Qed.

(** X17: every exception that leaves [print_label] is of one of three
    kinds: the exception of [float] on the feed setting, of [int] on the
    port setting or of [_as_bytes], raised before anything is parsed or
    submitted and with the tag table untouched; the [RuntimeError]
    [IPP print failed: ...] around an [Exception] of the submission; or an
    exception that is not an [Exception]. *)
Theorem print_label_errors (kw : kwargs) (tags : gmap string IppTag) (e : exn) :
  (print_label kw tags).1 = Raise e →
  ((feed_after_mm_of (options_of kw) = Raise e
    ∨ int_of_str (str_or_default (get_setting "CUPS_PORT") "631") = Raise e
    ∨ _as_bytes (label_of kw) = Raise e)
   ∧ (print_label kw tags).2 = tags)
  ∨ (∃ cause, is_Exception cause = true
              ∧ e = Exn RuntimeError ("IPP print failed: " +:+ exn_str cause))
  ∨ is_Exception e = false.
Proof.
  unfold print_label.
  destruct (feed_after_mm_of (options_of kw)) as [x|e1]; [|intros [= ->]; left; auto].
  destruct (int_of_str _) as [port|e2]; [|intros [= ->]; left; auto].
  destruct (_as_bytes (label_of kw)) as [payload|e3]; [|intros [= ->]; left; auto].
  destruct (_print_via_ipp _ _ _ _ _ _ _ _ _ _) as [r tags']. cbn [fst].
  destruct r as [[]|cause]; [done|]. unfold ipp_failure_wrapped, try_except.
  destruct (is_Exception cause) eqn:Hc; intros [= <-]; right.
  - left. by exists cause.
  - by right.
Qed.

(** X18: [print_label] never removes or changes an entry of the tag table,
    whether it returns or raises. *)
Theorem print_label_keeps_tags (kw : kwargs) (tags : gmap string IppTag)
    (k : string) (tag : IppTag) :
  tags !! k = Some tag → (print_label kw tags).2 !! k = Some tag.
Proof.
  intros Hk. unfold print_label.
  destruct (feed_after_mm_of (options_of kw)) as [x|e1]; [|done].
  destruct (int_of_str _) as [port|e2]; [|done].
  destruct (_as_bytes (label_of kw)) as [payload|e3]; [|done].
  match goal with
  | |- context [_print_via_ipp ?h ?p ?q ?b ?m ?c ?t ?x ?txt ?tg] =>
      pose proof (print_via_ipp_tags h p q b m c t x txt tg) as Htags;
      destruct (_print_via_ipp h p q b m c t x txt tg) as [r tags']
  end.
  cbn [snd] in *. destruct Htags as [->| ->]; [done|].
  by rewrite parse_job_options_tags, Hk.
Qed.

(** X19: on a tag table that the module has seeded, every key of the job
    attributes handed to the transport, apart from [job-name], [copies]
    and [media], has a tag in the table the transport reads: the seeding
    covers the keys of the feed encoder and the parser those of the
    options text.  Where the parser raises, nothing is handed over. *)
Theorem submitted_keys_are_tagged (host : string) (port : Z) (queue : string)
    (payload : pyobj) (media : option string) (copies : Z) (title : string)
    (x : float) (text : string) (tags : gmap string IppTag)
    (media_resolved : string) (feed : gmap string pyobj) :
  _resolve_media media payload = Ok media_resolved →
  _feed_options x = Ok feed →
  let parsed := _parse_job_options text (seed_tags tags) in
  match parsed.1 with
  | Raise e =>
      _print_via_ipp host port queue payload media copies title x text
        (seed_tags tags) = (Raise e, parsed.2)
  | Ok options =>
      let attrs := job_attrs title copies options feed media_resolved in
      _print_via_ipp host port queue payload media copies title x text
        (seed_tags tags)
      = (ipp_execute parsed.2 (_printer_uri host port queue)
           (print_job_message attrs payload), parsed.2)
      ∧ ∀ k, is_Some (attrs !! k) →
          k = "job-name" ∨ k = "copies" ∨ k = "media" ∨ is_Some (parsed.2 !! k)
  end.
Proof.
  intros Hmedia Hfeed. cbv zeta.
  destruct (_parse_job_options text (seed_tags tags)).1 as [options|e] eqn:Hparsed;
    [|by apply (print_via_ipp_parse_raises _ _ _ _ _ _ _ _ _ _ media_resolved)].
  split; [by apply print_via_ipp_submits|].
  intros k. rewrite job_attrs_lookup, parse_job_options_tags.
  rewrite parse_job_options_steps in Hparsed. cbn [fst] in Hparsed.
  destruct (first_oversized (spec_tokens text)) eqn:Hfirst; [done|].
  injection Hparsed as <-. rewrite (parse_job_options_registered _ Hfirst).
  case_bool_decide as Hm; [intros _; destruct Hm as [-> _]; auto|].
  destruct (feed !! k) as [v|] eqn:Hfk.
  - intros _. right. right. right.
    assert (Hseed : is_Some (seed_tags tags !! k)).
    { unfold seed_tags. rewrite !setdefault_lookup.
      destruct (tags !! k); [done|].
      destruct (feed_options_keys x feed k Hfeed (mk_is_Some _ _ Hfk)) as [->| ->].
      - rewrite decide_False by done. rewrite decide_False by done.
        by rewrite decide_True.
      - rewrite decide_False by done. rewrite decide_False by done.
        rewrite decide_False by done. by rewrite decide_True. }
    destruct Hseed as [t ->]. by eexists.
  - destruct (spec_parse text !! k) as [v|] eqn:Hpk.
    + intros _. right. right. right. destruct (seed_tags tags !! k); by eexists.
    + intros [v Hv]. apply lookup_insert_Some in Hv as [[<- _]|[_ Hv]]; [auto|].
      apply lookup_singleton_Some in Hv as [<- _]. auto.
Qed.

(** X20: what the shipped configuration sends.  With the defaults of
    [SETTINGS], no printing options and a payload that normalises, the
    job goes to [ipp://portterm:631/printers/devterm_printer] with the
    attributes [job-name = inventree-label], [copies = 1],
    [TrimMode = Strong], [BlankSpace = False], [FeedWhere = None] and the
    medium inferred from the document, if any; [print-scaling] and
    [orientation-requested], whose default value is [none], are not sent;
    and [TrimMode] and [BlankSpace] are what the call adds to the tag
    table. *)
Theorem print_label_defaults (kw : kwargs) (payload : pyobj)
    (tags : gmap string IppTag) (media_resolved : string) :
  (∀ key, get_setting key = SETTINGS_default key) →
  int_of_str "631" = Ok 631 → float_of_str "0" = Ok zero →
  kw_printing_options kw = None →
  _as_bytes (label_of kw) = Ok payload →
  _pdf_media_auto payload = Ok media_resolved →
  let tags' := setdefault "BlankSpace" KEYWORD (setdefault "TrimMode" KEYWORD tags) in
  print_label kw tags
  = (ipp_failure_wrapped
       (ipp_execute tags' "ipp://portterm:631/printers/devterm_printer"
          (print_job_message
             (job_attrs "inventree-label" 1
                {[ "TrimMode" := PStr "Strong"; "BlankSpace" := PBool false ]}
                {[ "FeedWhere" := PStr "None" ]} media_resolved)
             payload)),
     tags').
Proof.
  intros Hset Hport Hfeed Hopt Hbytes Hmedia. cbv zeta.
  unfold print_label, options_of, feed_after_mm_of, media_of, job_options_text_of,
    copies_of, title_of.
  rewrite Hopt, !Hset. cbn [default no_options opt_media opt_copies opt_title
    opt_feed_after_mm opt_job_options str_or].
  change (SETTINGS_default "DEFAULT_FEED_AFTER_MM") with (Some "0").
  change (SETTINGS_default "CUPS_PORT") with (Some "631").
  change (SETTINGS_default "CUPS_HOST") with (Some "portterm").
  change (SETTINGS_default "CUPS_QUEUE") with (Some "devterm_printer").
  change (SETTINGS_default "DEFAULT_MEDIA") with (Some "auto").
  change (SETTINGS_default "JOB_OPTIONS") with (Some JOB_OPTIONS_default).
  cbv beta iota. change (String.eqb "0" "") with false. cbv beta iota.
  change (str_or_default (Some "631") "631") with "631".
  change (str_or_default (Some "portterm") "portterm") with "portterm".
  change (str_or_default (Some "devterm_printer") "devterm_printer")
    with "devterm_printer".
  change (str_or_default None "inventree-label") with "inventree-label".
  change (str_or_default (Some JOB_OPTIONS_default) "") with JOB_OPTIONS_default.
  rewrite Hfeed, Hport, Hbytes. cbv beta iota.
  rewrite (print_via_ipp_submits _ _ _ _ _ _ _ _ _ _ media_resolved
             {[ "TrimMode" := PStr "Strong"; "BlankSpace" := PBool false ]}
             {[ "FeedWhere" := PStr "None" ]});
    [|done|by rewrite parse_default_job_options|done].
  by rewrite parse_default_job_options.
Qed.

End Submission.

Lemma print_via_ipp_outcomes_witness :
  @_print_via_ipp plain_host "portterm" 631 "devterm_printer" (PBytes []) None 1 "t"
    S754_nan "a=1" ∅
  = (Raise (Exn ValueError "cannot convert float NaN to integer"),
     {[ "a" := KEYWORD ]}).
Proof.
  destruct (@print_via_ipp_outcomes plain_host "portterm" 631 "devterm_printer"
              (PBytes []) None 1 "t" S754_nan "a=1" ∅ eq_refl)
    as [(e & He & _)|[(m & value & _ & _ & Hparsed & _)
       |[(options & e & _ & _ & _ & Hfeed & Hr)|(m & options & feed & _ & _ & Hfeed & _)]]].
  - discriminate He.
  - discriminate Hparsed.
  - rewrite Hr. injection Hfeed as <-. reflexivity.
  - discriminate Hfeed.
Defined.

Lemma print_label_errors_witness :
  ((@feed_after_mm_of plain_host no_options = Raise no_payload
    ∨ @int_of_str plain_host "631" = Raise no_payload
    ∨ @_as_bytes plain_host PNone = Raise no_payload)
   ∧ (@print_label plain_host (Kwargs PNone PNone PNone PNone None) ∅).2 = ∅)
  ∨ (∃ cause, is_Exception cause = true
              ∧ no_payload = Exn RuntimeError ("IPP print failed: " +:+ exn_str cause))
  ∨ is_Exception no_payload = false.
Proof.
  apply (@print_label_errors plain_host (Kwargs PNone PNone PNone PNone None) ∅).
  reflexivity.
Defined.

Lemma print_label_keeps_tags_witness :
  (@print_label plain_host
     (Kwargs (PBytes (list_byte_of_string "%PDF-1.4")) PNone PNone PNone
        (Some (PrintingOptions None None None None (Some "copies=2"))))
     {[ "copies" := INTEGER ]}).2 !! "copies"
  = Some INTEGER.
Proof. apply print_label_keeps_tags. reflexivity. Defined.

Lemma submitted_keys_are_tagged_witness :
  "TrimMode" = "job-name" ∨ "TrimMode" = "copies" ∨ "TrimMode" = "media"
  ∨ is_Some ((_parse_job_options "TrimMode=Strong" (seed_tags ∅)).2 !! "TrimMode").
Proof.
  pose proof (@submitted_keys_are_tagged plain_host "portterm" 631 "devterm_printer"
                (PBytes []) None 1 "t" zero "TrimMode=Strong" ∅ ""
                {[ "FeedWhere" := PStr "None" ]} eq_refl eq_refl) as H.
  cbv zeta in H.
  change (@_parse_job_options "TrimMode=Strong" (seed_tags ∅)).1
    with (Ok ({[ "TrimMode" := PStr "Strong" ]} : gmap string pyobj)) in H.
  destruct H as [_ H]. apply H. eexists. vm_compute. reflexivity.
Defined.

Lemma print_label_defaults_witness :
  @print_label plain_host
    (Kwargs (PBytes (list_byte_of_string "%PDF-1.4")) PNone PNone PNone None) ∅
  = (Ok (), {[ "TrimMode" := KEYWORD; "BlankSpace" := KEYWORD ]}).
Proof.
  rewrite (@print_label_defaults plain_host _
             (PBytes (list_byte_of_string "%PDF-1.4")) ∅ "");
    reflexivity.
Defined.
